(** * systrap: subprocess supervision (pkg/sentry/platform/systrap/subprocess.go)

    A shallow embedding of the Go code of [subprocess.go] and of the
    assembly dispatcher [__export_syshandler], with the properties the
    specification states about them.

    Go state is passed explicitly through a small monad whose outcomes are a
    normal return, a Go panic, termination of the process by a signal, or
    blocking for ever.  Everything the file obtains from the host kernel or
    from packages outside it (ptrace, wait4, the stub's replies in the shared
    Message, the injected system calls) is read from a script of responses,
    and every such call is recorded in a log, newest first. *)

From Stdlib Require Import ZArith Lia String.
From stdpp Require Import base tactics option list strings functions gmap.

Local Open Scope Z_scope.

(** ** Machine integers *)

Definition uint64 (z : Z) : Z := z mod 2 ^ 64.
Definition uint32 (z : Z) : Z := z mod 2 ^ 32.
Definition int32 (z : Z) : Z := (z + 2 ^ 31) mod 2 ^ 32 - 2 ^ 31.

(** ** Go errors.  A nil [error] is [None]. *)

Inductive error :=
| Errno (e : Z)          (* unix.Errno *)
| Errorf (msg : string). (* any other error value *)

#[global] Instance error_eq_dec : EqDecision error.
Proof. solve_decision. Defined.

Definition EINTR : error := Errno 4.
Definition EAGAIN : error := Errno 11.

(* Linux kernel errnos which "should never be seen by user programs". *)
Definition ERESTARTSYS : error := Errno 512.
Definition ERESTARTNOINTR : error := Errno 513.
Definition ERESTARTNOHAND : error := Errno 514.

(** ** Signals and ptrace constants (Linux, all architectures) *)

Definition SIGTRAP : Z := 5.
Definition SIGKILL : Z := 9.
Definition SIGSEGV : Z := 11.
Definition SIGCHLD : Z := 17.
Definition SIGCONT : Z := 18.
Definition SIGSTOP : Z := 19.
Definition PTRACE_EVENT_EXIT : Z := 6.
Definition PTRACE_O_TRACESYSGOOD : Z := 1.
Definition PTRACE_O_TRACEEXIT : Z := 64.
Definition PTRACE_O_EXITKILL : Z := 1048576.
Definition WALL : Z := 1073741824.
Definition WUNTRACED : Z := 2.

(** ** unix.WaitStatus, as golang.org/x/sys/unix decodes it *)

Module WaitStatus.
Definition mask : Z := 127.
Definition exited : Z := 0.
Definition stopped : Z := 127.
Definition shift : Z := 8.

Definition Exited (w : Z) : bool := Z.land w mask =? exited.
Definition Signaled (w : Z) : bool :=
  negb (Z.land w mask =? stopped) && negb (Z.land w mask =? exited).
Definition Stopped (w : Z) : bool := Z.land w 255 =? stopped.
Definition ExitStatus (w : Z) : Z :=
  if negb (Exited w) then -1 else Z.land (Z.shiftr w shift) 255.
Definition Signal (w : Z) : Z :=
  if negb (Signaled w) then -1 else Z.land w mask.
Definition StopSignal (w : Z) : Z :=
  if negb (Stopped w) then -1 else Z.land (Z.shiftr w shift) 255.
Definition TrapCause (w : Z) : Z :=
  if negb (StopSignal w =? SIGTRAP) then -1 else Z.shiftr (Z.shiftr w shift) 8.
End WaitStatus.

(** ** Data model *)

(* Pointers to subprocesses, contexts, arch contexts and sysmsg threads are
   names in the store; Go pointers never dangle, so the store is total. *)
Abbreviation sid := nat (only parsing).
Abbreviation cid := nat (only parsing).
Abbreviation acid := nat (only parsing).
Abbreviation stid := nat (only parsing).

(* Types declared by the architecture and by collaborating packages. *)
Class ArchTypes := {
  Registers : Type;   (* arch.Registers *)
  PtraceRegs : Type;  (* linux.PtraceRegs, the register block of the Message *)
  FPState : Type;     (* the part of arch.Context64 besides the registers *)
  MsgRest : Type;     (* fields of sysmsg.Msg this file never names *)
  Forwarder : Type;   (* interrupt.Forwarder *)
}.

Record SyscallArgument := { Value : Z }.

Record FileRange := { Start : Z; End_ : Z }.

Record SignalInfo := { Signo : Z; siErrno : Z; Code : Z; Fields : list Z }.

(* linux.SignalInfo{Signo: n}: every other field has its zero value. *)
Definition SignalInfo_Signo (n : Z) : SignalInfo :=
  {| Signo := n; siErrno := 0; Code := 0; Fields := replicate 112 0 |}.

Inductive EventType :=
| EventTypeSyscall
| EventTypeSyscallCanBePatched
| EventTypeSyscallTrap
| EventTypeFault
| EventTypeInterrupt
| EventTypeOther (raw : Z).

#[global] Instance EventType_eq_dec : EqDecision EventType.
Proof. solve_decision. Defined.

Inductive sysmsg_State := StateNone | StateDone | StateOther (raw : Z).

(* waitOutcome *)
Definition stopped : Z := 0.
Definition killed : Z := 1.

Section Systrap.
Context `{AT : ArchTypes}.

Record thread := {
  tgid : Z;
  tid : Z;
  sysmsgStackID : Z;
  initRegs : Registers }.

(* sysmsg.Msg: the shared-memory Message. *)
Record Msg := {
  State : sysmsg_State;
  Type_ : EventType;
  Err : Z;
  Line : Z;
  Regs : PtraceRegs;
  MsgSignalInfo : SignalInfo;
  Self : Z;
  Syshandler : Z;
  SyshandlerStack : Z;
  rest : MsgRest }.

Record sysmsgThread := {
  sthread : thread;
  subproc : sid;
  stackRange : FileRange;
  msg : Msg;
  fpuStateToMsgOffset : Z }.

Record context := {
  signalInfo : SignalInfo;
  interrupt : Forwarder;
  sysmsgThread_ : option stid;   (* nil or a pointer *)
  lastFaultSP : option sid;      (* nil or a pointer *)
  lastFaultAddr : Z }.

Record Context64 := { acRegs : Registers; acFP : FPState }.

Record AddrRange := { arStart : Z; arEnd : Z }.

Record subprocess := {
  numContexts : Z;       (* atomicbitops.Int32 *)
  released : bool;
  contexts : gset cid }.

Record subprocessPool := {
  active : gset sid;
  available : gset sid }.

(** Panics, one constructor per [panic] site, with the values it formats. *)
Inductive dump :=
| DumpNotStopped (status : Z)
| DumpNotExited (status : Z)
| DumpUnknownOutcome (outcome : Z)
| DumpProcessExited (tgid tid msg : Z) (err : option error).

Inductive panic :=
| PanicDump (message : dump) (regs : option string) (stubStart : Z)
| PanicWait (err : error)
| PanicWaitTid (r tid : Z)
| PanicSetRegs (err : error)
| PanicSyscallEnter (errno : Z)
| PanicGetRegs (err : error)
| PanicAttach (errno : Z)
| PanicAttachWait (sig : Z)
| PanicSetOptions (errno : Z)
| PanicCont (errno : Z)
| PanicCloneWait (sig : Z)
| PanicAllocate (err : error)
| PanicMmap (errno : Z)
| PanicMapStack (err : error)
| PanicPrctl (err : error)
| PanicSeccomp (err : error)
| PanicTkill (errno : Z)
| PanicDetach (errno : Z)
| PanicStubInit (err line : Z)
| PanicStubThread (tid err line : Z)
| PanicUnknownMessageType (ty : EventType)
| PanicOverflow (addr length : Z)
| PanicMunmap (addr length : Z) (err : error).

Inductive warning :=
| WarnGetRegs (err : error)
| WarnKilledBySIGKILL (tgid : Z)
| WarnInterrupted (tgid tid sig : Z).

(** Calls that leave this file, and what they answer. *)
Inductive call :=
| CPtraceAttach (tid : Z)
| CPtraceDetach (tid sig : Z)
| CPtraceCont (tid : Z)
| CPtraceSetOptions (tid opts : Z)
| CWait4 (tid options : Z)
| CGetRegs (tid : Z)
| CSetRegs (tid : Z) (regs : Registers)
| CGetEventMessage (tid : Z)
| CTgkill (tgid tid sig : Z)
| CRawTgkill (tgid tid sig : Z)
| CWarningf (w : warning)
| CRequestThread (s : sid)
| CAllocate (length : Z)
| CMmapStack (length offset : Z)
| CMapStack (t : Z) (addr : Z) (readOnly : bool)
| CMapPrivateStack (t : Z) (addr size : Z)
| CDecRef (fr : FileRange)
| CSysThreadInit (t : Z) (sentryStackAddr sysmsgStackAddr : Z)
| CSysThreadDestroy (t : Z)
| CWaitEvent (t : Z) (st : sysmsg_State) (published : Msg)
| CSubprocessSyscall (s : sid) (sysno : Z) (args : list SyscallArgument).

Inductive response :=
| RErrno (errno : Z)
| RErr (err : option error)
| RWait4 (r status : Z) (err : option error)
| RRegs (regs : Registers) (err : option error)
| REventMsg (m : Z) (err : option error)
| RKilled
| RThread (p : thread)
| RAlloc (fr : FileRange) (mem : Msg) (err : option error)
| RMmap (addr errno : Z)
| RMsg (m : Msg)
| RSyscall (rval : Z) (err : option error).

Record state := {
  script : list response;   (* what the environment will answer *)
  log : list call;          (* calls made so far, newest first *)
  pid : Z;                  (* os.Getpid() *)
  subprocs : sid → subprocess;
  ctxs : cid → context;
  acs : acid → Context64;
  sysThreads : stid → sysmsgThread;
  nextSysThread : stid;     (* the next object [&sysmsgThread{...}] yields *)
  globalPool : subprocessPool }.

Inductive outcome (A : Type) :=
| Ret (a : A)          (* normal return *)
| Panic (p : panic)    (* Go panic: the process aborts *)
| Terminated (sig : Z) (* the process is killed by a signal *)
| Stuck.               (* blocked: the environment never answers *)
#[global] Arguments Ret {A} a.
#[global] Arguments Panic {A} p.
#[global] Arguments Terminated {A} sig.
#[global] Arguments Stuck {A}.

Definition M (A : Type) : Type := state → outcome A * state.

#[global] Instance M_ret : MRet M := λ A a σ, (Ret a, σ).

#[global] Instance M_bind : MBind M := λ A B f m σ,
  match m σ with
  | (Ret a, σ') => f a σ'
  | (Panic p, σ') => (Panic p, σ')
  | (Terminated sig, σ') => (Terminated sig, σ')
  | (Stuck, σ') => (Stuck, σ')
  end.

Definition do_panic {A} (p : panic) : M A := λ σ, (Panic p, σ).
Definition stuck {A} : M A := λ σ, (Stuck, σ).
Definition terminated {A} (sig : Z) : M A := λ σ, (Terminated sig, σ).
Definition gets {A} (f : state → A) : M A := λ σ, (Ret (f σ), σ).
Definition modify (f : state → state) : M unit := λ σ, (Ret tt, f σ).

Definition set_os (sc : list response) (lg : list call) (σ : state) : state :=
  {| script := sc; log := lg; pid := pid σ; subprocs := subprocs σ;
     ctxs := ctxs σ; acs := acs σ; sysThreads := sysThreads σ;
     nextSysThread := nextSysThread σ; globalPool := globalPool σ |}.

Definition set_subproc (s : sid) (sp : subprocess) (σ : state) : state :=
  {| script := script σ; log := log σ; pid := pid σ;
     subprocs := <[s := sp]> (subprocs σ);
     ctxs := ctxs σ; acs := acs σ; sysThreads := sysThreads σ;
     nextSysThread := nextSysThread σ; globalPool := globalPool σ |}.

Definition set_ctx (c : cid) (x : context) (σ : state) : state :=
  {| script := script σ; log := log σ; pid := pid σ; subprocs := subprocs σ;
     ctxs := <[c := x]> (ctxs σ); acs := acs σ; sysThreads := sysThreads σ;
     nextSysThread := nextSysThread σ; globalPool := globalPool σ |}.

Definition set_ac (a : acid) (x : Context64) (σ : state) : state :=
  {| script := script σ; log := log σ; pid := pid σ; subprocs := subprocs σ;
     ctxs := ctxs σ; acs := <[a := x]> (acs σ); sysThreads := sysThreads σ;
     nextSysThread := nextSysThread σ; globalPool := globalPool σ |}.

Definition set_sysThread (st : stid) (x : sysmsgThread) (σ : state) : state :=
  {| script := script σ; log := log σ; pid := pid σ; subprocs := subprocs σ;
     ctxs := ctxs σ; acs := acs σ; sysThreads := <[st := x]> (sysThreads σ);
     nextSysThread := nextSysThread σ; globalPool := globalPool σ |}.

Definition set_globalPool (p : subprocessPool) (σ : state) : state :=
  {| script := script σ; log := log σ; pid := pid σ; subprocs := subprocs σ;
     ctxs := ctxs σ; acs := acs σ; sysThreads := sysThreads σ;
     nextSysThread := nextSysThread σ; globalPool := p |}.

(* A call that waits for an answer: it is logged, and the next response of
   the script is its answer; with no response left it never returns. *)
Definition oscall (c : call) : M response := λ σ,
  match script σ with
  | [] => (Stuck, set_os [] (c :: log σ) σ)
  | r :: sc => (Ret r, set_os sc (c :: log σ) σ)
  end.

(* A call whose answer the code does not use. *)
Definition notify (c : call) : M unit :=
  modify (λ σ, set_os (script σ) (c :: log σ) σ).

(** Functions this file calls and does not define: architecture-specific
    register handling, methods of sysmsg.Msg, the interrupt forwarder, and
    layout constants. *)
Class ArchOps := {
  dumpRegs : Registers → string;
  createSyscallRegs : Registers → Z → list SyscallArgument → Registers;
  syscallReturnValue : Registers → Z * option error;
  regsPtraceRegs : Registers → PtraceRegs;
  setPtraceRegs : PtraceRegs → Registers → Registers;
  resetSysemuRegs : thread → Registers → Registers;
  restoreFPState : Msg → Z → Context64 → Msg * Context64;
  restoreArchSpecificState :
    Registers → thread → sysmsgThread → Context64 → Registers * Msg;
  retrieveArchSpecificState :
    Registers → Msg → thread → Context64 → Registers * Context64;
  maybePatchSignalInfo : Registers → SignalInfo → bool * Registers * SignalInfo;
  updateSyscallRegs : Registers → Registers;
  archSpecificSysThreadInit : sysmsgThread → Registers → Registers;
  EnableSentryFastPath : Msg → Msg;
  FPUStateOffset : Msg → Z * option error;
  Msg_Init : Msg → Msg;
  Enable : Forwarder → sysmsgThread → bool * Forwarder;
  Disable : Forwarder → Forwarder;
  sysmsgPerThreadMemAddr : sysmsgThread → Z;
  StackAddrToSyshandlerStack : Z → Z;
  SignalInterrupt : Z;
  PerThreadSharedStackSize : Z;
  PerThreadSharedStackOffset : Z;
  PerThreadPrivateStackOffset : Z;
  PerThreadPrivateStackSize : Z;
  MsgOffsetFromSharedStack : Z;
  stubSysmsgStart : Z;
  Sighandler_blob_offset____export_syshandler : Z;
  stubSysmsgRules : Z;
  stubStart : Z;
  stubEnd : Z;
  maximumUserAddress : Z;
  SYS_PRCTL : Z;
  SYS_SECCOMP : Z;
  SYS_MUNMAP : Z;
  PR_SET_NO_NEW_PRIVS : Z;
  SECCOMP_SET_MODE_FILTER : Z;
}.

Context `{AO : ArchOps}.

(** ** thread: ptrace operations *)

Definition getRegs (t : thread) : M (Registers * option error) :=
  r ← oscall (CGetRegs (tid t));
  match r with RRegs regs err => mret (regs, err) | _ => stuck end.

Definition setRegs (t : thread) (regs : Registers) : M (option error) :=
  r ← oscall (CSetRegs (tid t) regs);
  match r with RErr err => mret err | _ => stuck end.

Definition getEventMessage (t : thread) : M (Z * option error) :=
  r ← oscall (CGetEventMessage (tid t));
  match r with REventMsg m err => mret (m, err) | _ => stuck end.

(* unix.RawSyscall6(unix.SYS_PTRACE, ...): the errno. *)
Definition ptrace (c : call) : M Z :=
  r ← oscall c;
  match r with RErrno errno => mret errno | _ => stuck end.

(* unix.RawSyscall(unix.SYS_TGKILL, ...): the errno. *)
Definition RawTgkill (tgid tid sig : Z) : M Z :=
  r ← oscall (CRawTgkill tgid tid sig);
  match r with RErrno errno => mret errno | _ => stuck end.

Definition Wait4 (tid options : Z) : M (Z * Z * option error) :=
  r ← oscall (CWait4 tid options);
  match r with RWait4 r status err => mret (r, status, err) | _ => stuck end.

(* unix.Tgkill: answers with an error value, or, when the signal kills the
   calling process, does not return. *)
Definition Tgkill (tgid tid sig : Z) : M (option error) :=
  r ← oscall (CTgkill tgid tid sig);
  match r with
  | RErr err => mret err
  | RKilled => terminated sig
  | _ => stuck
  end.

Definition dumpAndPanic (t : thread) (message : dump) : M unit :=
  '(regs, err) ← getRegs t;
  match err with
  | None => do_panic (PanicDump message (Some (dumpRegs regs)) stubStart)
  | Some e =>
      notify (CWarningf (WarnGetRegs e));;
      do_panic (PanicDump message None stubStart)
  end.

Definition unexpectedStubExit (t : thread) : M unit :=
  '(m, err) ← getEventMessage t;
  let status := uint32 m in
  (if WaitStatus.Signaled status && (WaitStatus.Signal status =? SIGKILL)
   then
     notify (CWarningf (WarnKilledBySIGKILL (tgid t)));;
     pid ← gets pid;
     Tgkill pid pid SIGKILL;;
     mret tt
   else mret tt);;
  dumpAndPanic t (DumpProcessExited (tgid t) (tid t) m err).

(* The body of the [for] loop of [wait]; [fuel] bounds the iterations. *)
Fixpoint wait_loop (fuel : nat) (t : thread) (outcome : Z) : M Z :=
  match fuel with
  | O => stuck
  | S fuel =>
    '(r, status, err) ← Wait4 (tid t) (Z.lor WALL WUNTRACED);
    if bool_decide (err = Some EINTR) || bool_decide (err = Some EAGAIN) then
      wait_loop fuel t outcome
    else match err with
    | Some e => do_panic (PanicWait e)
    | None =>
      if negb (r =? tid t) then do_panic (PanicWaitTid r (tid t)) else
      if outcome =? stopped then
        (if negb (WaitStatus.Stopped status)
         then dumpAndPanic t (DumpNotStopped status) else mret tt);;
        let stopSig := WaitStatus.StopSignal status in
        if stopSig =? 0 then wait_loop fuel t outcome else
        if stopSig =? SIGTRAP then
          (if WaitStatus.TrapCause status =? PTRACE_EVENT_EXIT
           then unexpectedStubExit t else mret tt);;
          mret (Z.lor stopSig (Z.shiftl (WaitStatus.TrapCause status) 8))
        else mret stopSig
      else if outcome =? killed then
        (if negb (WaitStatus.Exited status) && negb (WaitStatus.Signaled status)
         then dumpAndPanic t (DumpNotExited status) else mret tt);;
        mret (WaitStatus.ExitStatus status)
      else
        dumpAndPanic t (DumpUnknownOutcome outcome);;
        wait_loop fuel t outcome
    end
  end.

(* Every iteration consumes a response, so the script's length bounds the
   loop. *)
Definition wait (t : thread) (outcome : Z) : M Z :=
  λ σ, wait_loop (S (length (script σ))) t outcome σ.

Definition thread_init (t : thread) : M unit :=
  errno ← ptrace (CPtraceSetOptions (tid t)
    (Z.lor (Z.lor PTRACE_O_TRACESYSGOOD PTRACE_O_TRACEEXIT) PTRACE_O_EXITKILL));
  if negb (errno =? 0) then do_panic (PanicSetOptions errno) else mret tt.

Definition attach (t : thread) : M unit :=
  errno ← ptrace (CPtraceAttach (tid t));
  if negb (errno =? 0) then do_panic (PanicAttach errno) else
  sig ← wait t stopped;
  if negb (sig =? SIGSTOP) then do_panic (PanicAttachWait sig) else
  thread_init t.

Definition detach (t : thread) : M unit :=
  errno ← ptrace (CPtraceDetach (tid t) SIGSTOP);
  if negb (errno =? 0) then do_panic (PanicDetach errno) else mret tt.

(* The [for] loop of [thread.syscall]. *)
Fixpoint syscall_loop (fuel : nat) (t : thread) : M unit :=
  match fuel with
  | O => stuck
  | S fuel =>
    errno ← ptrace (CPtraceCont (tid t));
    if negb (errno =? 0) then do_panic (PanicSyscallEnter errno) else
    sig ← wait t stopped;
    if sig =? SIGTRAP then mret tt
    else
      (if negb (sig =? SIGSTOP) && negb (sig =? SIGCHLD)
       then notify (CWarningf (WarnInterrupted (tgid t) (tid t) sig))
       else mret tt);;
      syscall_loop fuel t
  end.

Definition thread_syscall (t : thread) (regs : Registers) : M (Z * option error) :=
  err ← setRegs t regs;
  match err with
  | Some e => do_panic (PanicSetRegs e)
  | None =>
    (λ σ, syscall_loop (S (length (script σ))) t σ);;
    '(regs', err) ← getRegs t;
    match err with
    | Some e => do_panic (PanicGetRegs e)
    | None => mret (syscallReturnValue regs')
    end
  end.

Fixpoint syscallIgnoreInterrupt_loop (fuel : nat) (t : thread)
    (initRegs : Registers) (sysno : Z) (args : list SyscallArgument)
    : M (Z * option error) :=
  match fuel with
  | O => stuck
  | S fuel =>
    let regs := createSyscallRegs initRegs sysno args in
    '(rval, err) ← thread_syscall t regs;
    if bool_decide (err = Some ERESTARTSYS) then
      syscallIgnoreInterrupt_loop fuel t initRegs sysno args
    else if bool_decide (err = Some ERESTARTNOINTR) then
      syscallIgnoreInterrupt_loop fuel t initRegs sysno args
    else if bool_decide (err = Some ERESTARTNOHAND) then
      syscallIgnoreInterrupt_loop fuel t initRegs sysno args
    else mret (rval, err)
  end.

Definition syscallIgnoreInterrupt (t : thread) (initRegs : Registers)
    (sysno : Z) (args : list SyscallArgument) : M (Z * option error) :=
  λ σ, syscallIgnoreInterrupt_loop (S (length (script σ))) t initRegs sysno args σ.

(** ** Address ranges *)

(** Modelled from the spec: [hostarch.Addr.ToRange] and
    [hostarch.AddrRange.Contains] are declared outside this file.  The spec
    writes the unmapped range as the half-open [[a,b)] with [a ≤ b], and
    [Unmap] reports a failed [ToRange] as "addr + length overflows": the end
    is [addr + length] in 64-bit arithmetic, and the range is valid when the
    sum did not wrap around. *)
Definition ToRange (addr length : Z) : AddrRange * bool :=
  let end_ := uint64 (addr + length) in
  ({| arStart := addr; arEnd := end_ |}, addr <=? end_).

Definition Contains (ar : AddrRange) (x : Z) : bool :=
  (arStart ar <=? x) && (x <? arEnd ar).

(** ** subprocess *)

Definition set_contexts (cs : gset cid) (sp : subprocess) : subprocess :=
  {| numContexts := numContexts sp; released := released sp; contexts := cs |}.
Definition set_numContexts (n : Z) (sp : subprocess) : subprocess :=
  {| numContexts := n; released := released sp; contexts := contexts sp |}.
Definition set_released (b : bool) (sp : subprocess) : subprocess :=
  {| numContexts := numContexts sp; released := b; contexts := contexts sp |}.

Definition set_lastFaultSP (sp : option sid) (x : context) : context :=
  {| signalInfo := signalInfo x; interrupt := interrupt x;
     sysmsgThread_ := sysmsgThread_ x; lastFaultSP := sp;
     lastFaultAddr := lastFaultAddr x |}.
Definition set_signalInfo (si : SignalInfo) (x : context) : context :=
  {| signalInfo := si; interrupt := interrupt x;
     sysmsgThread_ := sysmsgThread_ x; lastFaultSP := lastFaultSP x;
     lastFaultAddr := lastFaultAddr x |}.
Definition set_interrupt (f : Forwarder) (x : context) : context :=
  {| signalInfo := signalInfo x; interrupt := f;
     sysmsgThread_ := sysmsgThread_ x; lastFaultSP := lastFaultSP x;
     lastFaultAddr := lastFaultAddr x |}.
Definition set_sysmsgThread (st : option stid) (x : context) : context :=
  {| signalInfo := signalInfo x; interrupt := interrupt x;
     sysmsgThread_ := st; lastFaultSP := lastFaultSP x;
     lastFaultAddr := lastFaultAddr x |}.

Definition modify_subproc (s : sid) (f : subprocess → subprocess) : M unit :=
  modify (λ σ, set_subproc s (f (subprocs σ s)) σ).
Definition modify_ctx (c : cid) (f : context → context) : M unit :=
  modify (λ σ, set_ctx c (f (ctxs σ c)) σ).

(* s.syscall: the injected system call runs on the subprocess's
   syscallThread, which is declared outside this file. *)
Definition subprocess_syscall (s : sid) (sysno : Z) (args : list SyscallArgument)
    : M (Z * option error) :=
  r ← oscall (CSubprocessSyscall s sysno args);
  match r with RSyscall rval err => mret (rval, err) | _ => stuck end.

(* One iteration of [for c := range s.contexts] in [Unmap]. *)
Definition Unmap_visit (s : sid) (ar : AddrRange) (c : cid) : M unit :=
  x ← gets (λ σ, ctxs σ c);
  if bool_decide (lastFaultSP x = Some s) && Contains ar (lastFaultAddr x) then
    modify_ctx c (set_lastFaultSP None);;
    modify_subproc s (λ sp, set_contexts (contexts sp ∖ {[c]}) sp)
  else mret tt.

(* The loop over the keys of [s.contexts], visited in the order [cs].  The
   body deletes at most the key it is visiting, so every key present at the
   start is visited once. *)
Fixpoint Unmap_range (s : sid) (ar : AddrRange) (cs : list cid) : M unit :=
  match cs with
  | [] => mret tt
  | c :: cs => Unmap_visit s ar c;; Unmap_range s ar cs
  end.

Definition Unmap (s : sid) (addr length : Z) : M unit :=
  let '(ar, ok) := ToRange addr length in
  if negb ok then do_panic (PanicOverflow addr length) else
  cs ← gets (λ σ, elements (contexts (subprocs σ s)));
  Unmap_range s ar cs;;
  '(_, err) ← subprocess_syscall s SYS_MUNMAP
                [{| Value := addr |}; {| Value := length |}];
  match err with
  | Some e => do_panic (PanicMunmap addr length e)
  | None => mret tt
  end.

Definition unmap (s : sid) : M unit :=
  Unmap s 0 (uint64 stubStart);;
  if negb (maximumUserAddress =? stubEnd)
  then Unmap s stubEnd (uint64 (maximumUserAddress - stubEnd))
  else mret tt.

(** Modelled from the spec: [subprocessPool.release] is declared outside this
    file.  The spec has [release(sp)] return a Subprocess to the available
    set once idle: a Subprocess is marked released, possibly while it still
    owns live contexts, and is moved from the active to the available set
    only when its bound-context count is zero. *)
Definition subprocessPool_release (s : sid) : M unit :=
  modify_subproc s (set_released true);;
  n ← gets (λ σ, numContexts (subprocs σ s));
  if n =? 0 then
    modify (λ σ, set_globalPool
      {| active := active (globalPool σ) ∖ {[s]};
         available := available (globalPool σ) ∪ {[s]} |} σ)
  else mret tt.

(* The goroutine that [Release] starts, run to completion. *)
Definition Release (s : sid) : M unit :=
  unmap s;;
  subprocessPool_release s.

Definition unregisterContext (s : option sid) (c : cid) : M unit :=
  match s with
  | None => mret tt
  | Some s =>
    modify_subproc s (λ sp, set_contexts (contexts sp ∖ {[c]}) sp);;
    modify_subproc s (λ sp, set_numContexts (int32 (numContexts sp - 1)) sp);;
    released ← gets (λ σ, released (subprocs σ s));
    n ← gets (λ σ, numContexts (subprocs σ s));
    if released && (n =? 0) then subprocessPool_release s else mret tt
  end.

(** ** sysmsgThread and switchToApp *)

Definition set_msg (m : Msg) (th : sysmsgThread) : sysmsgThread :=
  {| sthread := sthread th; subproc := subproc th; stackRange := stackRange th;
     msg := m; fpuStateToMsgOffset := fpuStateToMsgOffset th |}.
Definition set_fpuStateToMsgOffset (off : Z) (th : sysmsgThread) : sysmsgThread :=
  {| sthread := sthread th; subproc := subproc th; stackRange := stackRange th;
     msg := msg th; fpuStateToMsgOffset := off |}.

Definition set_Type (ty : EventType) (m : Msg) : Msg :=
  {| State := State m; Type_ := ty; Err := Err m; Line := Line m; Regs := Regs m;
     MsgSignalInfo := MsgSignalInfo m; Self := Self m; Syshandler := Syshandler m;
     SyshandlerStack := SyshandlerStack m; rest := rest m |}.
Definition set_Regs (r : PtraceRegs) (m : Msg) : Msg :=
  {| State := State m; Type_ := Type_ m; Err := Err m; Line := Line m; Regs := r;
     MsgSignalInfo := MsgSignalInfo m; Self := Self m; Syshandler := Syshandler m;
     SyshandlerStack := SyshandlerStack m; rest := rest m |}.
Definition set_handler (self handler stack : Z) (st : sysmsg_State) (m : Msg) : Msg :=
  {| State := st; Type_ := Type_ m; Err := Err m; Line := Line m; Regs := Regs m;
     MsgSignalInfo := MsgSignalInfo m; Self := self; Syshandler := handler;
     SyshandlerStack := stack; rest := rest m |}.

Definition modify_sysThread (st : stid) (f : sysmsgThread → sysmsgThread) : M unit :=
  modify (λ σ, set_sysThread st (f (sysThreads σ st)) σ).
Definition modify_msg (st : stid) (f : Msg → Msg) : M unit :=
  modify_sysThread st (λ th, set_msg (f (msg th)) th).
Definition get_sysThread (st : stid) : M sysmsgThread :=
  gets (λ σ, sysThreads σ st).
Definition get_msg (st : stid) : M Msg := gets (λ σ, msg (sysThreads σ st)).
Definition get_regs (ac : acid) : M Registers := gets (λ σ, acRegs (acs σ ac)).
Definition put_regs (ac : acid) (r : Registers) : M unit :=
  modify (λ σ, set_ac ac {| acRegs := r; acFP := acFP (acs σ ac) |} σ).

(* [&sysmsgThread{...}]: a new object. *)
Definition new_sysThread (th : sysmsgThread) : M stid := λ σ,
  (Ret (nextSysThread σ),
   {| script := script σ; log := log σ; pid := pid σ; subprocs := subprocs σ;
      ctxs := ctxs σ; acs := acs σ;
      sysThreads := <[nextSysThread σ := th]> (sysThreads σ);
      nextSysThread := S (nextSysThread σ); globalPool := globalPool σ |}).

(* sysmsgThread.waitEvent blocks until the stub has moved the Message on;
   the answer is the Message as the stub left it. *)
Definition waitEvent (st : stid) (state : sysmsg_State) : M unit :=
  th ← get_sysThread st;
  r ← oscall (CWaitEvent (tid (sthread th)) state (msg th));
  match r with RMsg m => modify_msg st (λ _, m) | _ => stuck end.

Definition sysmsgThread_destroy (st : stid) : M unit :=
  th ← get_sysThread st;
  notify (CSysThreadDestroy (tid (sthread th))).

Definition mapStack (st : stid) (addr : Z) (readOnly : bool) : M (option error) :=
  th ← get_sysThread st;
  r ← oscall (CMapStack (tid (sthread th)) addr readOnly);
  match r with RErr err => mret err | _ => stuck end.

Definition mapPrivateStack (st : stid) (addr size : Z) : M (option error) :=
  th ← get_sysThread st;
  r ← oscall (CMapPrivateStack (tid (sthread th)) addr size);
  match r with RErr err => mret err | _ => stuck end.

(* [getSysmsgThread] from [sysThread.waitEvent(sysmsg.StateNone)] to its
   end: the new stub thread reports, and is bound to the context. *)
Definition startSysmsgThread (c : cid) (st : stid) : M (stid + error) :=
  waitEvent st StateNone;;
  m ← get_msg st;
  if negb (Err m =? 0) then do_panic (PanicStubInit (Err m) (Line m)) else
  let '(off, err) := FPUStateOffset m in
  modify_sysThread st (set_fpuStateToMsgOffset off);;
  match err with
  | Some e => sysmsgThread_destroy st;; mret (inr e)
  | None =>
    modify_ctx c (set_sysmsgThread (Some st));;
    mret (inl st)
  end.

(* [getSysmsgThread] from "Create a new seccomp process" to the PTRACE_DETACH
   that resumes it.  [tregs] points to the registers of [ac]. *)
Definition createSysmsgThread (s : sid) (ac : acid) : M stid :=
  r ← oscall (CRequestThread s);
  match r with
  | RThread p =>
    attach p;;
    errno ← ptrace (CPtraceCont (tid p));
    if negb (errno =? 0) then do_panic (PanicCont errno) else
    sig ← wait p stopped;
    if negb (sig =? SIGSTOP) then do_panic (PanicCloneWait sig) else
    r ← oscall (CAllocate PerThreadSharedStackSize);
    match r with
    | RAlloc fr mem err =>
      match err with
      | Some e => do_panic (PanicAllocate e)
      | None =>
        st ← new_sysThread {| sthread := p; subproc := s; stackRange := fr;
                              msg := mem; fpuStateToMsgOffset := 0 |};
        r ← oscall (CMmapStack PerThreadSharedStackSize (Start fr));
        match r with
        | RMmap sentryStackAddr errno =>
          if negb (errno =? 0) then do_panic (PanicMmap errno) else
          th ← get_sysThread st;
          let sysmsgStackAddr :=
            uint64 (sysmsgPerThreadMemAddr th + PerThreadSharedStackOffset) in
          err ← mapStack st sysmsgStackAddr true;
          match err with
          | Some e => do_panic (PanicMapStack e)
          | None =>
            notify (CSysThreadInit (tid p) sentryStackAddr sysmsgStackAddr);;
            err ← mapStack st sysmsgStackAddr false;
            match err with
            | Some e => notify (CDecRef fr);; do_panic (PanicMapStack e)
            | None =>
              let privateStackAddr :=
                uint64 (sysmsgPerThreadMemAddr th + PerThreadPrivateStackOffset) in
              err ← mapPrivateStack st privateStackAddr PerThreadPrivateStackSize;
              match err with
              | Some e => notify (CDecRef fr);; do_panic (PanicMapStack e)
              | None =>
                modify_msg st (λ m, set_handler
                  (uint64 (sysmsgStackAddr + MsgOffsetFromSharedStack))
                  (uint64 (stubSysmsgStart + Sighandler_blob_offset____export_syshandler))
                  (StackAddrToSyshandlerStack (sysmsgPerThreadMemAddr th))
                  StateDone (Msg_Init m));;
                '(_, err) ← syscallIgnoreInterrupt p (initRegs p) SYS_PRCTL
                  [{| Value := PR_SET_NO_NEW_PRIVS |}; {| Value := 1 |}; {| Value := 0 |}];
                match err with
                | Some e => do_panic (PanicPrctl e)
                | None =>
                  '(_, err) ← syscallIgnoreInterrupt p (initRegs p) SYS_SECCOMP
                    [{| Value := SECCOMP_SET_MODE_FILTER |}; {| Value := 0 |};
                     {| Value := stubSysmsgRules |}];
                  match err with
                  | Some e => do_panic (PanicSeccomp e)
                  | None =>
                    tregs ← get_regs ac;
                    th ← get_sysThread st;
                    let tregs := archSpecificSysThreadInit th (resetSysemuRegs p tregs) in
                    put_regs ac tregs;;
                    err ← setRegs p tregs;
                    match err with
                    | Some e => do_panic (PanicSetRegs e)
                    | None =>
                      e ← RawTgkill (tgid p) (tid p) SIGSEGV;
                      if negb (e =? 0) then do_panic (PanicTkill e) else
                      e ← RawTgkill (tgid p) (tid p) SIGCONT;
                      if negb (e =? 0) then do_panic (PanicTkill e) else
                      errno ← ptrace (CPtraceDetach (tid p) 0);
                      if negb (errno =? 0) then do_panic (PanicDetach errno) else
                      mret st
                    end
                  end
                end
              end
            end
          end
        | _ => stuck
        end
      end
    | _ => stuck
    end
  | _ => stuck
  end.

(* The part of [getSysmsgThread] that creates a new sysmsg thread. *)
Definition newSysmsgThread (s : sid) (c : cid) (ac : acid) : M (stid + error) :=
  st ← createSysmsgThread s ac;
  startSysmsgThread c st.

Definition getSysmsgThread (s : sid) (c : cid) (ac : acid) : M (stid + error) :=
  cur ← gets (λ σ, sysmsgThread_ (ctxs σ c));
  cur ← match cur with
       | Some st =>
         th ← get_sysThread st;
         if negb (subproc th =? s)%nat
         then sysmsgThread_destroy st;; mret None
         else mret (Some st)
       | None => mret None
       end;
  match cur with
  | Some st => mret (inl st)
  | None => newSysmsgThread s c ac
  end.

(* A deferred call runs when the function returns and when it panics. *)
Definition defer {A} (d : M unit) (body : M A) : M A := λ σ,
  match body σ with
  | (Ret a, σ') => (d;; mret a) σ'
  | (Panic p, σ') => (d;; do_panic p) σ'
  | r => r
  end.

(* switchToApp, the round-trip: the guest registers are published in the
   Message and the supervisor waits for the stub to reach the Done state. *)
Definition roundtrip (ac : acid) (st : stid) : M unit :=
  th ← get_sysThread st;
  regs ← get_regs ac;
  a ← gets (λ σ, acs σ ac);
  let '(regs, m) := restoreArchSpecificState regs (sthread th) th a in
  put_regs ac regs;;
  modify_msg st (λ _, EnableSentryFastPath (set_Regs (regsPtraceRegs regs) m));;
  waitEvent st StateDone.

(* switchToApp, [if msg.Type != sysmsg.EventTypeSyscallTrap {...} else {...}]:
   the error of [msg.FPUStateOffset()], if any. *)
Definition refreshFPUStateOffset (st : stid) : M (option error) :=
  m ← get_msg st;
  if negb (bool_decide (Type_ m = EventTypeSyscallTrap)) then
    let '(off, err) := FPUStateOffset m in
    modify_sysThread st (set_fpuStateToMsgOffset off);;
    mret err
  else
    modify_sysThread st (set_fpuStateToMsgOffset 0);;
    mret None.

(* switchToApp from [regs.PtraceRegs = msg.Regs] to its end. *)
Definition classify (c : cid) (ac : acid) (st : stid)
    : M (bool * bool * option error) :=
  th ← get_sysThread st;
  let m := msg th in
  regs ← get_regs ac;
  a ← gets (λ σ, acs σ ac);
  let '(regs, a) :=
    retrieveArchSpecificState (setPtraceRegs (Regs m) regs) m (sthread th) a in
  modify (set_ac ac {| acRegs := regs; acFP := acFP a |});;
  modify_ctx c (set_signalInfo (MsgSignalInfo m));;
  shouldPatchSyscall ←
    (if bool_decide (Type_ m = EventTypeSyscallCanBePatched) then
       modify_msg st (set_Type EventTypeSyscall);; mret true
     else mret false);
  m ← get_msg st;
  if bool_decide (Type_ m = EventTypeSyscall)
     || bool_decide (Type_ m = EventTypeSyscallTrap) then
    regs ← get_regs ac;
    x ← gets (λ σ, ctxs σ c);
    let '(patched, regs, si) := maybePatchSignalInfo regs (signalInfo x) in
    put_regs ac regs;;
    modify_ctx c (set_signalInfo si);;
    if patched then mret (false, false, None) else
    put_regs ac (updateSyscallRegs regs);;
    mret (true, shouldPatchSyscall, None)
  else if negb (bool_decide (Type_ m = EventTypeFault)) then
    do_panic (PanicUnknownMessageType (Type_ m))
  else mret (false, false, None).

(* switchToApp after [defer c.interrupt.Disable()]. *)
Definition switchToApp_enter (c : cid) (ac : acid) (st : stid)
    : M (bool * bool * option error) :=
  roundtrip ac st;;
  r ← refreshFPUStateOffset st;
  match r with
  | Some err => mret (false, false, Some err)
  | None =>
    th ← get_sysThread st;
    let m := msg th in
    if negb (Err m =? 0)
    then do_panic (PanicStubThread (tid (sthread th)) (Err m) (Line m))
    else classify c ac st
  end.

(* switchToApp up to and including [c.interrupt.Enable(sysThread)]. *)
Definition switchToApp_arm (s : sid) (c : cid) (ac : acid)
    : M ((stid * bool) + error) :=
  r ← getSysmsgThread s c ac;
  match r with
  | inr err => mret (inr err)
  | inl st =>
    th ← get_sysThread st;
    regs ← get_regs ac;
    put_regs ac (resetSysemuRegs (sthread th) regs);;
    a ← gets (λ σ, acs σ ac);
    let '(m, a) := restoreFPState (msg th) (fpuStateToMsgOffset th) a in
    modify_msg st (λ _, m);;
    modify (set_ac ac a);;
    x ← gets (λ σ, ctxs σ c);
    th ← get_sysThread st;
    let '(ok, f) := Enable (interrupt x) th in
    modify_ctx c (set_interrupt f);;
    mret (inl (st, ok))
  end.

Definition switchToApp (s : sid) (c : cid) (ac : acid)
    : M (bool * bool * option error) :=
  r ← switchToApp_arm s c ac;
  match r with
  | inr err => mret (false, false, Some err)
  | inl (st, ok) =>
    if negb ok then
      modify_ctx c (set_signalInfo (SignalInfo_Signo (int32 SignalInterrupt)));;
      mret (false, false, None)
    else
      defer (modify_ctx c (λ x, set_interrupt (Disable (interrupt x)) x))
            (switchToApp_enter c ac st)
  end.

(** ** Notions used to state the properties *)

(* One register-setup-and-injection cycle of [syscallIgnoreInterrupt]. *)
Definition cycle (t : thread) (initRegs : Registers) (sysno : Z)
    (args : list SyscallArgument) : M (Z * option error) :=
  thread_syscall t (createSyscallRegs initRegs sysno args).

Definition is_restart (err : option error) : bool :=
  bool_decide (err = Some ERESTARTSYS)
  || bool_decide (err = Some ERESTARTNOINTR)
  || bool_decide (err = Some ERESTARTNOHAND).

(* [retries n σ σ']: starting in [σ], [n] cycles in a row return a restart
   errno, and leave the state [σ']. *)
Inductive retries (t : thread) (initRegs : Registers) (sysno : Z)
    (args : list SyscallArgument) : nat → state → state → Prop :=
| retries_O σ : retries t initRegs sysno args O σ σ
| retries_S n σ σ1 σ2 rval err :
    cycle t initRegs sysno args σ = (Ret (rval, err), σ1) →
    is_restart err = true →
    retries t initRegs sysno args n σ1 σ2 →
    retries t initRegs sysno args (S n) σ σ2.

(* The fault cache of [x] points into the range [ar] of subprocess [s]. *)
Definition stale (s : sid) (ar : AddrRange) (x : context) : bool :=
  bool_decide (lastFaultSP x = Some s) && Contains ar (lastFaultAddr x).

(* What the loop of [Unmap] over the keys [cs] leaves behind: the stale
   contexts among [cs] have forgotten their last fault and have left
   [s.contexts]; nothing else has changed. *)
Definition Unmap_post (s : sid) (ar : AddrRange) (cs : list cid)
    (σ σ' : state) : Prop :=
  script σ' = script σ ∧ log σ' = log σ ∧ pid σ' = pid σ ∧
  acs σ' = acs σ ∧ sysThreads σ' = sysThreads σ ∧
  nextSysThread σ' = nextSysThread σ ∧ globalPool σ' = globalPool σ ∧
  (∀ s', s' ≠ s → subprocs σ' s' = subprocs σ s') ∧
  numContexts (subprocs σ' s) = numContexts (subprocs σ s) ∧
  released (subprocs σ' s) = released (subprocs σ s) ∧
  (∀ c, c ∈ contexts (subprocs σ' s) ↔
        c ∈ contexts (subprocs σ s) ∧ ¬ (c ∈ cs ∧ stale s ar (ctxs σ c) = true)) ∧
  (∀ c, ctxs σ' c =
        if bool_decide (c ∈ cs) && stale s ar (ctxs σ c)
        then set_lastFaultSP None (ctxs σ c) else ctxs σ c).

(* A subprocess is in the available set iff it is released and idle. *)
Definition pool_inv (σ : state) : Prop :=
  ∀ s, s ∈ available (globalPool σ) ↔
       released (subprocs σ s) = true ∧ numContexts (subprocs σ s) = 0.

(* The state [unregisterContext] leaves when it unlocks [s.mu]. *)
Definition unregistered (s : sid) (c : cid) (σ : state) : state :=
  let σ1 := set_subproc s
    (set_contexts (contexts (subprocs σ s) ∖ {[c]}) (subprocs σ s)) σ in
  set_subproc s
    (set_numContexts (int32 (numContexts (subprocs σ1 s) - 1)) (subprocs σ1 s)) σ1.

(* Neither the pool nor any subprocess's count or released mark differs. *)
Definition same_lifecycle (σ σ' : state) : Prop :=
  globalPool σ' = globalPool σ ∧
  ∀ s, numContexts (subprocs σ' s) = numContexts (subprocs σ s) ∧
       released (subprocs σ' s) = released (subprocs σ s).

(* switchToApp between the return of [getSysmsgThread] and that of
   [c.interrupt.Enable(sysThread)]: the boolean is the one [Enable] returns,
   the state the one it returns in. *)
Definition arm (c : cid) (ac : acid) (st : stid) (σ : state) : bool * state :=
  let th := sysThreads σ st in
  let σ := set_ac ac {| acRegs := resetSysemuRegs (sthread th) (acRegs (acs σ ac));
                        acFP := acFP (acs σ ac) |} σ in
  let '(m, a) := restoreFPState (msg th) (fpuStateToMsgOffset th) (acs σ ac) in
  let σ := set_ac ac a (set_sysThread st (set_msg m (sysThreads σ st)) σ) in
  let '(ok, f) := Enable (interrupt (ctxs σ c)) (sysThreads σ st) in
  (ok, set_ctx c (set_interrupt f (ctxs σ c)) σ).

(* The registers [maybePatchSignalInfo] is called with, when the round-trip
   started in [σ] and the stub left the Message [m]. *)
Definition regs_after_roundtrip (ac : acid) (st : stid) (σ : state) (m : Msg)
    : Registers :=
  let th := sysThreads σ st in
  let a := acs σ ac in
  let regs := fst (restoreArchSpecificState (acRegs a) (sthread th) th a) in
  fst (retrieveArchSpecificState (setPtraceRegs (Regs m) regs) m (sthread th)
         {| acRegs := regs; acFP := acFP a |}).

(* The Message was left with a usable FPU-state offset, or needs none. *)
Definition fpu_refresh_ok (m : Msg) : bool :=
  bool_decide (Type_ m = EventTypeSyscallTrap)
  || bool_decide (snd (FPUStateOffset m) = None).

(* How switchToApp classifies the event type [ty] of the Message, [patched]
   being the answer of [maybePatchSignalInfo]. *)
Definition classification (ty : EventType) (patched : bool)
    : outcome (bool * bool * option error) :=
  match ty with
  | EventTypeSyscall | EventTypeSyscallTrap =>
      Ret (if patched then (false, false, None) else (true, false, None))
  | EventTypeSyscallCanBePatched =>
      Ret (if patched then (false, false, None) else (true, true, None))
  | EventTypeFault => Ret (false, false, None)
  | EventTypeInterrupt | EventTypeOther _ => Panic (PanicUnknownMessageType ty)
  end.

(* [m] leaves the observation [f] of the state as it found it. *)
Definition preserves {A B} (f : state → B) (m : M A) : Prop :=
  ∀ σ o σ', m σ = (o, σ') → f σ' = f σ.

(* [m] only consumes the script. *)
Definition shrinks {A} (m : M A) : Prop :=
  ∀ σ o σ', m σ = (o, σ') → (length (script σ') ≤ length (script σ))%nat.

(** ** thread.destroy, newThread and MapFile *)

(* thread.destroy: the results of [unix.Tgkill] and of [t.wait(killed)] are
   dropped. *)
Definition destroy (t : thread) : M unit :=
  detach t;;
  Tgkill (tgid t) (tid t) SIGKILL;;
  wait t killed;;
  mret tt.

(* subprocess.newThread: the subprocess's first thread answers the request
   with the thread it has cloned. *)
Definition newThread (s : sid) : M thread :=
  r ← oscall (CRequestThread s);
  match r with
  | RThread t => attach t;; mret t
  | _ => stuck
  end.

(* unix.MAP_SHARED, unix.MAP_FIXED and unix.MAP_POPULATE on linux/amd64 and
   linux/arm64 *)
Definition MAP_SHARED : Z := 1.
Definition MAP_FIXED : Z := 16.
Definition MAP_POPULATE : Z := 32768.

(* memmap.FileRange.Length *)
Definition FileRange_Length (fr : FileRange) : Z := uint64 (End_ fr - Start fr).

(* MapFile: [SYS_MMAP] is unix.SYS_MMAP, [fd] is [f.FD()] and [prot] is
   [at.Prot()]; both are Go ints converted to uintptr. *)
Definition MapFile (SYS_MMAP : Z) (s : sid) (addr : Z) (fd : Z) (fr : FileRange)
    (prot : Z) (precommit : bool) : M (option error) :=
  let flags := 0 in
  let flags := if precommit then Z.lor flags MAP_POPULATE else flags in
  '(_, err) ← subprocess_syscall s SYS_MMAP
    [{| Value := addr |};
     {| Value := FileRange_Length fr |};
     {| Value := uint64 prot |};
     {| Value := uint64 (Z.lor (Z.lor flags MAP_SHARED) MAP_FIXED) |};
     {| Value := uint64 fd |};
     {| Value := Start fr |}];
  mret err.

(** ** Further notions used to state properties *)

(* An answer to wait4 after which [wait] waits again: the call was
   interrupted, or (when waiting for a stop) it reports a stop without a
   signal. *)
Definition wait_skipped (t : thread) (outcome : Z) (r : response) : bool :=
  match r with
  | RWait4 r0 status err =>
      bool_decide (err = Some EINTR) || bool_decide (err = Some EAGAIN)
      || (bool_decide (err = None) && (r0 =? tid t) && (outcome =? stopped)
          && WaitStatus.Stopped status && (WaitStatus.StopSignal status =? 0))
  | _ => false
  end.

(* A wait status that reports a stop by a signal other than SIGTRAP. *)
Definition signal_stop (status : Z) : bool :=
  WaitStatus.Stopped status
  && negb (WaitStatus.StopSignal status =? 0)
  && negb (WaitStatus.StopSignal status =? SIGTRAP).

(* A wait status that reports a plain SIGTRAP stop. *)
Definition trap_stop (status : Z) : bool :=
  WaitStatus.Stopped status
  && (WaitStatus.StopSignal status =? SIGTRAP)
  && (WaitStatus.TrapCause status =? 0).

(* What [thread.syscall] logs, newest first, when the traced thread stops
   with the status [status] before the system call has finished. *)
Definition resumed (t : thread) (status : Z) : list call :=
  let sig := WaitStatus.StopSignal status in
  (if negb (sig =? SIGSTOP) && negb (sig =? SIGCHLD)
   then [CWarningf (WarnInterrupted (tgid t) (tid t) sig)] else [])
  ++ [CWait4 (tid t) (Z.lor WALL WUNTRACED); CPtraceCont (tid t)].

(* The answers of the environment when the traced thread, resumed, stops
   with each status of [ws] in turn. *)
Fixpoint stops (t : thread) (ws : list Z) : list response :=
  match ws with
  | [] => []
  | w :: ws => RErrno 0 :: RWait4 (tid t) w None :: stops t ws
  end.

(* What [thread.syscall] logs for these stops, newest first. *)
Fixpoint resumptions (t : thread) (ws : list Z) : list call :=
  match ws with
  | [] => []
  | w :: ws => resumptions t ws ++ resumed t w
  end.

(* The comment on [subprocess.contexts]: a context whose last fault was in
   [s] is in [s.contexts]. *)
Definition contexts_inv (s : sid) (σ : state) : Prop :=
  ∀ c, lastFaultSP (ctxs σ c) = Some s → c ∈ contexts (subprocs σ s).

(* [steps R m]: every run of [m], however it ends, takes a state to one
   related to it by [R]. *)
Definition steps {A} (R : relation state) (m : M A) : Prop :=
  ∀ σ o σ', m σ = (o, σ') → R σ σ'.

(* The observation [f] of the state is the same in both states. *)
Definition keeps {B} (f : state → B) : relation state := λ σ σ', f σ' = f σ.

(* The log has only grown. *)
Definition extends : relation state := λ σ σ', ∃ new, log σ' = new ++ log σ.

(* [f] does not look at the script or at the log. *)
Class OsBlind {B} (f : state → B) : Prop :=
  os_blind : ∀ sc lg σ, f (set_os sc lg σ) = f σ.

(* A relation that holds along every sequence of calls to the environment. *)
Class Frame (R : relation state) : Prop := {
  frame_refl : ∀ σ, R σ σ;
  frame_trans : ∀ σ1 σ2 σ3, R σ1 σ2 → R σ2 σ3 → R σ1 σ3;
  frame_os : ∀ σ c sc, R σ (set_os sc (c :: log σ) σ) }.

(* What holds of the result and the state whenever [m] returns. *)
Definition post {A} (Q : A → state → Prop) (m : M A) : Prop :=
  ∀ σ a σ', m σ = (Ret a, σ') → Q a σ'.

End Systrap.

(** ** The stub dispatcher [__export_syshandler] (x86-64 assembly)

    Registers and memory hold 64-bit words; [%gs:offsetof_sysmsg_*] are the
    fields of the thread's Message.  Control leaving the dispatcher is
    recorded in a trace. *)

Module Syshandler.

Inductive reg := rax | rbp | r11 | r10 | r9 | r8 | rdi | rsi | rdx | rcx | rsp.

#[global] Instance reg_eq_dec : EqDecision reg.
Proof. solve_decision. Defined.

Record sysmsg := {
  app_stack : Z;
  type : Z;
  interrupt : Z;
  ret_addr : Z }.

Inductive event :=
| Syscall (sysno : Z)   (* a syscall instruction, with the value of %eax *)
| Fault                 (* FAULT_OPCODE *)
| Jump (target : Z).    (* jmp *target *)

Record machine := {
  regs : reg → Z;
  mem : Z → Z;
  gs : sysmsg }.

Definition set_reg (r : reg) (v : Z) (m : machine) : machine :=
  {| regs := <[r := v]> (regs m); mem := mem m; gs := gs m |}.
Definition set_mem (a v : Z) (m : machine) : machine :=
  {| regs := regs m; mem := <[a := v]> (mem m); gs := gs m |}.
Definition set_type (v : Z) (m : machine) : machine :=
  {| regs := regs m; mem := mem m;
     gs := {| app_stack := app_stack (gs m); type := v;
              interrupt := interrupt (gs m); ret_addr := ret_addr (gs m) |} |}.

Definition push (r : reg) (m : machine) : machine :=
  let sp := uint64 (regs m rsp - 8) in
  set_mem sp (regs m r) (set_reg rsp sp m).

Definition pop (r : reg) (m : machine) : machine :=
  let sp := regs m rsp in
  set_reg rsp (uint64 (sp + 8)) (set_reg r (mem m sp) m).

(* push %rbp ... push %rcx, in program order *)
Definition pushed : list reg := [rbp; r11; r10; r9; r8; rdi; rsi; rdx; rcx].
(* pop %rcx ... pop %rbp, in program order *)
Definition popped : list reg := [rcx; rdx; rsi; rdi; r8; r9; r10; r11; rbp].

Definition run (prog : list (machine → machine)) (m : machine) : machine :=
  foldl (λ m i, i m) m prog.

Section Dispatcher.
(* sysmsg_offsets.h *)
Variables kSYSMSG_SYSCALL kSYSMSG_INTERRUPT : Z.
(* [callq __syshandler], from the call to the return *)
Variable __syshandler : machine → machine.
(* what the kernel and the signal handler do at the syscall instruction *)
Variable kernel : machine → machine.

(* The dispatcher up to [movq %gs:offsetof_sysmsg_app_stack,%rsp]. *)
Definition restored (m : machine) : machine :=
  run (pop <$> popped) (__syshandler (run (push <$> pushed) m)).

(* The events by which control leaves the dispatcher, in order, and the
   machine at the last of them. *)
Definition __export_syshandler (m : machine) : list event * machine :=
  let m := restored m in
  (* movq %gs:offsetof_sysmsg_app_stack,%rsp *)
  let m := set_reg rsp (app_stack (gs m)) m in
  (* cmpl $kSYSMSG_SYSCALL, %gs:offsetof_sysmsg_type; jne skipsyscall *)
  if type (gs m) =? kSYSMSG_SYSCALL then
    (* mov $0xffff, %eax; nop; syscall; jmp skipint *)
    let m := set_reg rax 65535 m in
    let sysno := regs m rax in
    let m := kernel m in
    ([Syscall sysno; Jump (ret_addr (gs m))], m)
  else
    (* skipsyscall: cmpl $0, %gs:offsetof_sysmsg_interrupt; je skipint *)
    if interrupt (gs m) =? 0 then
      ([Jump (ret_addr (gs m))], m)
    else
      (* movl $kSYSMSG_INTERRUPT, %gs:offsetof_sysmsg_type; FAULT_OPCODE *)
      ([Fault], set_type kSYSMSG_INTERRUPT m).
End Dispatcher.

(* A machine entering the dispatcher with its stack pointer at 1024, and a
   handler that clobbers three caller-saved registers and leaves a Syscall
   event (type 1) in the Message. *)
Definition machine0 : machine :=
  {| regs := λ r, match r with
                  | rsp => 1024 | rax => 1 | rbp => 2 | r11 => 3 | r10 => 4
                  | r9 => 5 | r8 => 6 | rdi => 7 | rsi => 8 | rdx => 9 | rcx => 10
                  end;
     mem := λ _, 0;
     gs := {| app_stack := 4096; type := 0; interrupt := 0; ret_addr := 8192 |} |}.

Definition handler0 (m : machine) : machine :=
  set_type 1 (set_reg rcx 0 (set_reg r11 0 (set_reg rax 0 m))).

End Syshandler.

(** ** A concrete architecture for examples

    Three registers in the manner of amd64: the system-call register, the
    instruction pointer and the stack pointer. *)

Module Example.

Record regs := { Rax : Z; Rip : Z; Rsp : Z }.

Definition int64 (z : Z) : Z := (z + 2 ^ 63) mod 2 ^ 64 - 2 ^ 63.

Definition types : ArchTypes :=
  {| Registers := regs; PtraceRegs := regs; FPState := unit;
     MsgRest := Z (* the offset of the saved FPU state *);
     Forwarder := bool (* an interrupt is pending *) |}.

#[local] Existing Instance types.

Definition VSyscallStartAddr : Z := 18446744073699065856.
Definition VSyscallEndAddr : Z := 18446744073699069952.

(* si_addr, the first word of the payload *)
Definition Addr (si : SignalInfo) : Z := hd 0 (Fields si).

Definition ops : @ArchOps types :=
  {| dumpRegs := λ _ : @Registers types, "regs"%string;
     createSyscallRegs := λ (init : @Registers types) sysno _,
       {| Rax := sysno; Rip := Rip init; Rsp := Rsp init |};
     syscallReturnValue := λ r : @Registers types,
       let rval := int64 (Rax r) in
       if rval <? 0 then (0, Some (Errno (- rval))) else (rval, None);
     regsPtraceRegs := λ r : @Registers types, r;
     setPtraceRegs := λ (p : @PtraceRegs types) _, p;
     resetSysemuRegs := λ _ r, r;
     restoreFPState := λ m _ a, (m, a);
     restoreArchSpecificState := λ r _ th _, (r, msg th);
     retrieveArchSpecificState := λ r _ _ a, (r, a);
     maybePatchSignalInfo := λ (r : @Registers types) si,
       if (Addr si <? VSyscallStartAddr) || (VSyscallEndAddr <=? Addr si)
       then (false, r, si)
       else (true,
             {| Rax := Rax r; Rip := Addr si; Rsp := uint64 (Rsp r - 8) |},
             {| Signo := SIGSEGV; siErrno := siErrno si; Code := Code si;
                Fields := Fields si |});
     updateSyscallRegs := λ r, r;
     archSpecificSysThreadInit := λ _ r, r;
     EnableSentryFastPath := λ m, m;
     FPUStateOffset := λ m : @Msg types,
       if (0 <=? rest m) && (rest m <? 4096) then (rest m, None)
       else (0, Some (Errorf "FPU offset has been corrupted"));
     Msg_Init := λ m, m;
     Enable := λ (pending : @Forwarder types) _, (negb pending, false);
     Disable := λ f, f;
     sysmsgPerThreadMemAddr := λ th, 4096 * sysmsgStackID (sthread th);
     StackAddrToSyshandlerStack := λ a, a;
     SignalInterrupt := SIGCHLD;
     PerThreadSharedStackSize := 4096;
     PerThreadSharedStackOffset := 0;
     PerThreadPrivateStackOffset := 4096;
     PerThreadPrivateStackSize := 4096;
     MsgOffsetFromSharedStack := 0;
     stubSysmsgStart := 0;
     Sighandler_blob_offset____export_syshandler := 0;
     stubSysmsgRules := 0;
     stubStart := 4096;
     stubEnd := 8192;
     maximumUserAddress := 140737488351232;
     SYS_PRCTL := 157;
     SYS_SECCOMP := 317;
     SYS_MUNMAP := 11;
     PR_SET_NO_NEW_PRIVS := 38;
     SECCOMP_SET_MODE_FILTER := 1 |}.

#[local] Existing Instance ops.

Definition regs0 : @Registers types := {| Rax := 0; Rip := 0; Rsp := 0 |}.

Definition thread0 : @thread types :=
  {| tgid := 100; tid := 101; sysmsgStackID := 1; initRegs := regs0 |}.

Definition msg0 : @Msg types :=
  {| State := StateNone; Type_ := EventTypeSyscall; Err := 0; Line := 0;
     Regs := regs0; MsgSignalInfo := SignalInfo_Signo 0;
     Self := 0; Syshandler := 0; SyshandlerStack := 0; rest := 0 |}.

Definition sysThread0 : @sysmsgThread types :=
  {| sthread := thread0; subproc := 0%nat;
     stackRange := {| Start := 0; End_ := 4096 |};
     msg := msg0; fpuStateToMsgOffset := 0 |}.

Definition context0 : @context types :=
  {| signalInfo := SignalInfo_Signo 0; interrupt := false;
     sysmsgThread_ := None; lastFaultSP := None; lastFaultAddr := 0 |}.

Definition subprocess0 : subprocess :=
  {| numContexts := 0; released := false; contexts := ∅ |}.

(* A state with the given script and nothing else. *)
Definition state0 (sc : list (@response types)) : @state types :=
  {| script := sc; log := []; pid := 1;
     subprocs := λ _, subprocess0;
     ctxs := λ _, context0;
     acs := λ _, {| acRegs := regs0; acFP := tt |};
     sysThreads := λ _, sysThread0;
     nextSysThread := 0%nat;
     globalPool := {| active := ∅; available := ∅ |} |}.

(* A state in which every context is bound to sysmsg thread 0, of
   subprocess 0. *)
Definition context1 : @context types :=
  {| signalInfo := SignalInfo_Signo 0; interrupt := false;
     sysmsgThread_ := Some 0%nat; lastFaultSP := None; lastFaultAddr := 0 |}.

Definition state1 (sc : list (@response types)) : @state types :=
  {| script := sc; log := []; pid := 1;
     subprocs := λ _, subprocess0;
     ctxs := λ _, context1;
     acs := λ _, {| acRegs := regs0; acFP := tt |};
     sysThreads := λ _, sysThread0;
     nextSysThread := 1%nat;
     globalPool := {| active := ∅; available := ∅ |} |}.

(* The same, with an interrupt pending on every context. *)
Definition state_pending : @state types :=
  {| script := []; log := []; pid := 1;
     subprocs := λ _, subprocess0;
     ctxs := λ _,
       {| signalInfo := SignalInfo_Signo 0; interrupt := true;
          sysmsgThread_ := Some 0%nat; lastFaultSP := None; lastFaultAddr := 0 |};
     acs := λ _, {| acRegs := regs0; acFP := tt |};
     sysThreads := λ _, sysThread0;
     nextSysThread := 1%nat;
     globalPool := {| active := ∅; available := ∅ |} |}.

(* A Message with the given event type, in-band error, FPU-state offset and
   fault address. *)
Definition reply (ty : EventType) (err off addr : Z) : @Msg types :=
  {| State := StateDone; Type_ := ty; Err := err; Line := 0;
     Regs := regs0;
     MsgSignalInfo := {| Signo := 31; siErrno := 0; Code := 1; Fields := [addr] |};
     Self := 0; Syshandler := 0; SyshandlerStack := 0; rest := off |}.

(* Subprocess 0 is released and has one context, 7, left. *)
Definition state_released : @state types :=
  {| script := []; log := []; pid := 1;
     subprocs := λ s,
       if (s =? 0)%nat
       then {| numContexts := 1; released := true; contexts := {[7%nat]} |}
       else subprocess0;
     ctxs := λ _, context0;
     acs := λ _, {| acRegs := regs0; acFP := tt |};
     sysThreads := λ _, sysThread0;
     nextSysThread := 0%nat;
     globalPool := {| active := {[0%nat]}; available := ∅ |} |}.

(* Contexts 1 and 2 last faulted in subprocess 0, at 0x1800 and 0x5000. *)
Definition state_faulted (sc : list (@response types)) : @state types :=
  {| script := sc; log := []; pid := 1;
     subprocs := λ _,
       {| numContexts := 2; released := false; contexts := {[1%nat; 2%nat]} |};
     ctxs := λ c,
       {| signalInfo := SignalInfo_Signo 0; interrupt := false;
          sysmsgThread_ := None; lastFaultSP := Some 0%nat;
          lastFaultAddr := if (c =? 1)%nat then 6144 else 20480 |};
     acs := λ _, {| acRegs := regs0; acFP := tt |};
     sysThreads := λ _, sysThread0;
     nextSysThread := 0%nat;
     globalPool := {| active := {[0%nat]}; available := ∅ |} |}.

(* The wait status of a PTRACE_EVENT_EXIT stop:
   0x7f | SIGTRAP << 8 | PTRACE_EVENT_EXIT << 16. *)
Definition exit_stop : Z := 394623.

(* The wait status of a stop by the signal [sig]: 0x7f | sig << 8. *)
Definition stop_status (sig : Z) : Z := 127 + 256 * sig.

(* What the environment answers while [getSysmsgThread] creates a sysmsg
   thread, the stub thread reporting with the Message [m]. *)
Definition creation_script (m : @Msg types) : list (@response types) :=
  [ RThread thread0;
    (* attach: PTRACE_ATTACH, wait4, PTRACE_SETOPTIONS *)
    RErrno 0; RWait4 101 (stop_status SIGSTOP) None; RErrno 0;
    (* PTRACE_CONT and the stop by the stub's SIGSTOP *)
    RErrno 0; RWait4 101 (stop_status SIGSTOP) None;
    (* the shared stack: allocation, mmap in the sentry, the two mappings in
       the stub, the private stack *)
    RAlloc {| Start := 0; End_ := 4096 |} msg0 None; RMmap 65536 0;
    RErr None; RErr None; RErr None;
    (* prctl(PR_SET_NO_NEW_PRIVS) *)
    RErr None; RErrno 0; RWait4 101 (stop_status SIGTRAP) None; RRegs regs0 None;
    (* seccomp(SECCOMP_SET_MODE_FILTER) *)
    RErr None; RErrno 0; RWait4 101 (stop_status SIGTRAP) None; RRegs regs0 None;
    (* the registers, SIGSEGV, SIGCONT, PTRACE_DETACH *)
    RErr None; RErrno 0; RErrno 0; RErrno 0;
    (* the new thread reports *)
    RMsg m ].

(* Contexts 1 and 2, and no other, last faulted in subprocess 0, at 0x1800
   and 0x5000; both are in its [contexts] set. *)
Definition state_cached (sc : list (@response types)) : @state types :=
  {| script := sc; log := []; pid := 1;
     subprocs := λ _,
       {| numContexts := 2; released := false; contexts := {[1%nat; 2%nat]} |};
     ctxs := λ c,
       if (c =? 1)%nat || (c =? 2)%nat then
         {| signalInfo := SignalInfo_Signo 0; interrupt := false;
            sysmsgThread_ := None; lastFaultSP := Some 0%nat;
            lastFaultAddr := if (c =? 1)%nat then 6144 else 20480 |}
       else context0;
     acs := λ _, {| acRegs := regs0; acFP := tt |};
     sysThreads := λ _, sysThread0;
     nextSysThread := 0%nat;
     globalPool := {| active := {[0%nat]}; available := ∅ |} |}.

End Example.

(** * Properties *)

Section Properties.
Context `{AO : ArchOps}.

Ltac mred :=
  repeat (progress (unfold mbind, M_bind, mret, M_ret, gets, modify, notify,
                    do_panic, stuck, terminated, oscall; simpl)).

Lemma bind_unfold {A B} (m : M A) (f : A → M B) σ :
  (m ≫= f) σ =
    match m σ with
    | (Ret a, σ') => f a σ'
    | (Panic p, σ') => (Panic p, σ')
    | (Terminated sig, σ') => (Terminated sig, σ')
    | (Stuck, σ') => (Stuck, σ')
    end.
Proof. reflexivity. Qed.

Lemma bind_never_returns {A B} (m : M A) (f : A → M B) σ :
  (∀ a, fst (m σ) ≠ Ret a) → ∀ b, fst ((m ≫= f) σ) ≠ Ret b.
Proof.
  intros H b. mred. destruct (m σ) as [[a| | |] σ'] eqn:E; simpl; try discriminate.
  exfalso. apply (H a). reflexivity.
Qed.

Lemma bind_Ret_inv {A B} (m : M A) (f : A → M B) σ b σ' :
  (m ≫= f) σ = (Ret b, σ') →
  ∃ a σ1, m σ = (Ret a, σ1) ∧ f a σ1 = (Ret b, σ').
Proof.
  mred. destruct (m σ) as [[a| | |] σ1]; try discriminate. eauto.
Qed.

Lemma oscall_consumes c σ r σ' :
  oscall c σ = (Ret r, σ') → (length (script σ') < length (script σ))%nat.
Proof.
  unfold oscall. destruct (script σ) as [|r' sc]; intros [= <- <-]; simpl; lia.
Qed.

(** ** thread.wait and the unexpected exit of a stub *)

Lemma wait_loop_S fuel t outcome :
  wait_loop (S fuel) t outcome =
    ('(r, status, err) ← Wait4 (tid t) (Z.lor WALL WUNTRACED);
    if bool_decide (err = Some EINTR) || bool_decide (err = Some EAGAIN) then
      wait_loop fuel t outcome
    else match err with
    | Some e => do_panic (PanicWait e)
    | None =>
      if negb (r =? tid t) then do_panic (PanicWaitTid r (tid t)) else
      if outcome =? stopped then
        (if negb (WaitStatus.Stopped status)
         then dumpAndPanic t (DumpNotStopped status) else mret tt);;
        let stopSig := WaitStatus.StopSignal status in
        if stopSig =? 0 then wait_loop fuel t outcome else
        if stopSig =? SIGTRAP then
          (if WaitStatus.TrapCause status =? PTRACE_EVENT_EXIT
           then unexpectedStubExit t else mret tt);;
          mret (Z.lor stopSig (Z.shiftl (WaitStatus.TrapCause status) 8))
        else mret stopSig
      else if outcome =? killed then
        (if negb (WaitStatus.Exited status) && negb (WaitStatus.Signaled status)
         then dumpAndPanic t (DumpNotExited status) else mret tt);;
        mret (WaitStatus.ExitStatus status)
      else
        dumpAndPanic t (DumpUnknownOutcome outcome);;
        wait_loop fuel t outcome
    end).
Proof. reflexivity. Qed.

#[local] Arguments wait_loop : simpl never.

Lemma dumpAndPanic_regs t message σ regs rerr rest :
  script σ = RRegs regs rerr :: rest →
  dumpAndPanic t message σ =
    match rerr with
    | None =>
        (Panic (PanicDump message (Some (dumpRegs regs)) stubStart),
         set_os rest (CGetRegs (tid t) :: log σ) σ)
    | Some e =>
        (Panic (PanicDump message None stubStart),
         set_os rest (CWarningf (WarnGetRegs e) :: CGetRegs (tid t) :: log σ) σ)
    end.
Proof.
  intros Hs. unfold dumpAndPanic, getRegs. mred. rewrite Hs. mred.
  destruct rerr; reflexivity.
Qed.

Lemma dumpAndPanic_never_returns t message σ u :
  fst (dumpAndPanic t message σ) ≠ Ret u.
Proof.
  unfold dumpAndPanic, getRegs. mred.
  destruct (script σ) as [|[] ?]; mred; try discriminate.
  destruct err; mred; discriminate.
Qed.

Lemma unexpectedStubExit_never_returns t σ u :
  fst (unexpectedStubExit t σ) ≠ Ret u.
Proof.
  unfold unexpectedStubExit, getEventMessage. mred.
  destruct (script σ) as [|[] sc]; mred; try discriminate.
  destruct (_ && _); mred.
  - unfold Tgkill. mred. destruct sc as [|[] sc]; mred; try discriminate.
    match goal with |- context [dumpAndPanic ?t ?m ?s] =>
      pose proof (dumpAndPanic_never_returns t m s) as Hd;
      destruct (dumpAndPanic t m s) as [[] ?] end; simpl in *; try discriminate.
    intros _. apply (Hd a). reflexivity.
  - match goal with |- context [dumpAndPanic ?t ?m ?s] =>
      pose proof (dumpAndPanic_never_returns t m s) as Hd;
      destruct (dumpAndPanic t m s) as [[] ?] end; simpl in *; try discriminate.
    intros _. apply (Hd a). reflexivity.
Qed.

Lemma unexpectedStubExit_event t σ m err rest :
  script σ = REventMsg m err :: rest →
  unexpectedStubExit t σ =
    (let σ1 := set_os rest (CGetEventMessage (tid t) :: log σ) σ in
     if WaitStatus.Signaled (uint32 m) && (WaitStatus.Signal (uint32 m) =? SIGKILL)
     then
       match rest with
       | RKilled :: rest' =>
         (Terminated SIGKILL,
          set_os rest' (CTgkill (pid σ) (pid σ) SIGKILL ::
                        CWarningf (WarnKilledBySIGKILL (tgid t)) :: log σ1) σ)
       | RErr e :: rest' =>
         dumpAndPanic t (DumpProcessExited (tgid t) (tid t) m err)
           (set_os rest' (CTgkill (pid σ) (pid σ) SIGKILL ::
                          CWarningf (WarnKilledBySIGKILL (tgid t)) :: log σ1) σ)
       | [] =>
         (Stuck,
          set_os [] (CTgkill (pid σ) (pid σ) SIGKILL ::
                     CWarningf (WarnKilledBySIGKILL (tgid t)) :: log σ1) σ)
       | _ :: rest' =>
         (Stuck,
          set_os rest' (CTgkill (pid σ) (pid σ) SIGKILL ::
                        CWarningf (WarnKilledBySIGKILL (tgid t)) :: log σ1) σ)
       end
     else dumpAndPanic t (DumpProcessExited (tgid t) (tid t) m err) σ1).
Proof.
  intros Hs. unfold unexpectedStubExit, getEventMessage. mred. rewrite Hs. mred.
  destruct (_ && _); mred.
  - unfold Tgkill. mred. destruct rest as [|[] rest']; mred; reflexivity.
  - match goal with |- context [dumpAndPanic ?t ?m ?s] =>
      destruct (dumpAndPanic t m s) as [[] ?] end; reflexivity.
Qed.

Lemma wait_trap_exit t σ status rest :
  script σ = RWait4 (tid t) status None :: rest →
  WaitStatus.Stopped status = true →
  WaitStatus.StopSignal status = SIGTRAP →
  WaitStatus.TrapCause status = PTRACE_EVENT_EXIT →
  wait t stopped σ =
    (unexpectedStubExit t;; mret (Z.lor SIGTRAP (Z.shiftl PTRACE_EVENT_EXIT 8)))
      (set_os rest (CWait4 (tid t) (Z.lor WALL WUNTRACED) :: log σ) σ).
Proof.
  intros Hs H1 H2 H3. unfold wait. rewrite wait_loop_S.
  unfold Wait4. mred. rewrite Hs. mred.
  rewrite Z.eqb_refl, H1, H2, H3. mred. reflexivity.
Qed.

(* Whatever the registers' read answers, [dumpAndPanic] only adds to the
   log. *)
Lemma dumpAndPanic_log t message σ :
  ∃ new, log (snd (dumpAndPanic t message σ)) = new ++ log σ.
Proof.
  unfold dumpAndPanic, getRegs. mred.
  destruct (script σ) as [|[] sc]; mred; try (by eexists [_]).
  destruct err; mred; [by eexists [_; _]|by eexists [_]].
Qed.

(** C8.  When [thread.wait] sees a PTRACE_EVENT_EXIT stop it never returns
    to its caller, and the exit is one of two kinds.
    - The event message says the tracee was killed by SIGKILL: the exit is
      logged and SIGKILL is sent to the tracer's own process, in every run;
      and there is no panic, in every run in which that call does not
      return to the caller, as a SIGKILL sent to one's own process does
      not: when the signal ends the process, [wait] ends with it, right
      after the log entry and the signal.
    - Every other exit: no signal is sent, and [wait] panics with the
      register dump. *)
Theorem wait_unexpected_exit t σ status m err rest :
  script σ = RWait4 (tid t) status None :: REventMsg m err :: rest →
  WaitStatus.Stopped status = true →
  WaitStatus.StopSignal status = SIGTRAP →
  WaitStatus.TrapCause status = PTRACE_EVENT_EXIT →
  let lg := CGetEventMessage (tid t) ::
            CWait4 (tid t) (Z.lor WALL WUNTRACED) :: log σ in
  let forwarded := CTgkill (pid σ) (pid σ) SIGKILL ::
                   CWarningf (WarnKilledBySIGKILL (tgid t)) :: lg in
  let killedBySIGKILL :=
    WaitStatus.Signaled (uint32 m) && (WaitStatus.Signal (uint32 m) =? SIGKILL) in
  let message := DumpProcessExited (tgid t) (tid t) m err in
  (∀ sig, fst (wait t stopped σ) ≠ Ret sig) ∧
  (killedBySIGKILL = true →
     (∃ new, log (snd (wait t stopped σ)) = new ++ forwarded) ∧
     ((∀ e rest', rest ≠ RErr e :: rest') →
      ∀ p, fst (wait t stopped σ) ≠ Panic p) ∧
     (∀ rest', rest = RKilled :: rest' →
        wait t stopped σ = (Terminated SIGKILL, set_os rest' forwarded σ))) ∧
  (killedBySIGKILL = false →
     ∀ regs rest', rest = RRegs regs None :: rest' →
       wait t stopped σ =
         (Panic (PanicDump message (Some (dumpRegs regs)) stubStart),
          set_os rest' (CGetRegs (tid t) :: lg) σ)).
Proof.
  intros Hs H1 H2 H3 lg forwarded killedBySIGKILL message.
  rewrite (wait_trap_exit t σ status _ Hs H1 H2 H3).
  set (σ1 := set_os _ _ σ).
  assert (Hs1 : script σ1 = REventMsg m err :: rest) by reflexivity.
  split_and!.
  - apply bind_never_returns. intros u.
    apply unexpectedStubExit_never_returns.
  - intros Hk. rewrite bind_unfold.
    rewrite (unexpectedStubExit_event t σ1 m err _ Hs1).
    fold killedBySIGKILL. cbv zeta. rewrite Hk. split_and!.
    + destruct rest as [|r rest']; [by exists []|].
      destruct r; try (by exists []).
      match goal with |- context [dumpAndPanic ?t ?msg ?s] =>
        destruct (dumpAndPanic_log t msg s) as [new Hnew];
        destruct (dumpAndPanic t msg s) as [[[]| | |] σ2]
      end; by exists new.
    + intros Hno p. destruct rest as [|r rest']; [discriminate|].
      destruct r; try discriminate. by destruct (Hno err0 rest').
    + intros rest' ->. reflexivity.
  - intros Hk regs rest' ->. rewrite bind_unfold.
    rewrite (unexpectedStubExit_event t σ1 m err _ Hs1).
    fold killedBySIGKILL. cbv zeta. rewrite Hk.
    erewrite dumpAndPanic_regs by reflexivity. reflexivity.
Qed.

(** ** Calls only consume the script *)

Create HintDb shrinks.

Lemma shrinks_bind {A B} (m : M A) (f : A → M B) :
  shrinks m → (∀ a, shrinks (f a)) → shrinks (m ≫= f).
Proof.
  intros Hm Hf σ o σ'. mred.
  destruct (m σ) as [[a| | |] σ1] eqn:E; intros H;
    try (injection H as <- <-; eapply Hm; eassumption).
  apply Hm in E. apply Hf in H. lia.
Qed.

Lemma shrinks_ret {A} (a : A) : shrinks (mret a).
Proof. intros σ o σ' [= <- <-]. lia. Qed.

Lemma shrinks_panic {A} p : shrinks (@do_panic _ A p).
Proof. intros σ o σ' [= <- <-]. lia. Qed.

Lemma shrinks_stuck {A} : shrinks (@stuck _ A).
Proof. intros σ o σ' [= <- <-]. lia. Qed.

Lemma shrinks_terminated {A} sig : shrinks (@terminated _ A sig).
Proof. intros σ o σ' [= <- <-]. lia. Qed.

Lemma shrinks_gets {A} (f : state → A) : shrinks (gets f).
Proof. intros σ o σ' [= <- <-]. lia. Qed.

Lemma shrinks_notify c : shrinks (notify c).
Proof. intros σ o σ' [= <- <-]. simpl. lia. Qed.

Lemma shrinks_oscall c : shrinks (oscall c).
Proof.
  intros σ o σ'. unfold oscall.
  destruct (script σ) as [|r sc] eqn:E; intros [= <- <-]; simpl; lia.
Qed.

#[local] Hint Resolve shrinks_ret shrinks_panic shrinks_stuck shrinks_terminated
  shrinks_gets shrinks_notify shrinks_oscall : shrinks.

Ltac shrinks :=
  repeat first
    [ progress auto with shrinks
    | apply shrinks_bind; [|intros ?]
    | match goal with
      | |- shrinks (match ?x with _ => _ end) => destruct x
      | |- shrinks (let '(_, _) := ?x in _) => destruct x
      | |- shrinks (let _ := _ in _) => cbv zeta
      end ].

Lemma shrinks_getRegs t : shrinks (getRegs t).
Proof. unfold getRegs. shrinks. Qed.
Lemma shrinks_setRegs t regs : shrinks (setRegs t regs).
Proof. unfold setRegs. shrinks. Qed.
Lemma shrinks_ptrace c : shrinks (ptrace c).
Proof. unfold ptrace. shrinks. Qed.
Lemma shrinks_Wait4 tid options : shrinks (Wait4 tid options).
Proof. unfold Wait4. shrinks. Qed.
Lemma shrinks_Tgkill tgid tid sig : shrinks (Tgkill tgid tid sig).
Proof. unfold Tgkill. shrinks. Qed.
#[local] Hint Resolve shrinks_getRegs shrinks_setRegs shrinks_ptrace
  shrinks_Wait4 shrinks_Tgkill : shrinks.

Lemma shrinks_dumpAndPanic t message : shrinks (dumpAndPanic t message).
Proof. unfold dumpAndPanic. shrinks. Qed.
#[local] Hint Resolve shrinks_dumpAndPanic : shrinks.

Lemma shrinks_unexpectedStubExit t : shrinks (unexpectedStubExit t).
Proof. unfold unexpectedStubExit, getEventMessage. shrinks. Qed.
#[local] Hint Resolve shrinks_unexpectedStubExit : shrinks.

Lemma shrinks_wait_loop fuel t outcome : shrinks (wait_loop fuel t outcome).
Proof.
  induction fuel as [|fuel IH]; [apply shrinks_stuck|].
  rewrite wait_loop_S. shrinks.
Qed.

Lemma shrinks_wait t outcome : shrinks (wait t outcome).
Proof. intros σ o σ'. unfold wait. apply shrinks_wait_loop. Qed.
#[local] Hint Resolve shrinks_wait : shrinks.

(* The bound on the iterations of [wait] is never the reason it stops: any
   bound above the length of the script gives the same run. *)
Lemma wait_loop_fuel n :
  ∀ m t outcome σ,
    (length (script σ) < n)%nat → (length (script σ) < m)%nat →
    wait_loop n t outcome σ = wait_loop m t outcome σ.
Proof.
  induction n as [|n IH]; intros [|m] t outcome σ Hn Hm; try lia.
  rewrite !wait_loop_S. unfold Wait4. mred.
  destruct (script σ) as [|r sc] eqn:E; mred; [reflexivity|].
  simpl in Hn, Hm.
  destruct r; mred; try reflexivity.
  destruct (bool_decide _ || bool_decide _); [apply IH; simpl; lia|].
  destruct err; [reflexivity|].
  destruct (negb (r =? tid t)); [reflexivity|].
  destruct (outcome =? stopped).
  - destruct (negb (WaitStatus.Stopped status)); mred.
    + destruct (dumpAndPanic _ _ _) as [[] σ2] eqn:Ed; try reflexivity.
      apply shrinks_dumpAndPanic in Ed. simpl in Ed.
      destruct (_ =? 0); [apply IH; lia|reflexivity].
    + destruct (_ =? 0); [apply IH; simpl; lia|reflexivity].
  - destruct (outcome =? killed); [reflexivity|]. mred.
    destruct (dumpAndPanic _ _ _) as [[] σ2] eqn:Ed; try reflexivity.
    apply shrinks_dumpAndPanic in Ed. simpl in Ed. apply IH; lia.
Qed.

(* An interrupted or spurious stop makes [wait] wait again. *)
Lemma wait_again t outcome σ r status err sc :
  script σ = RWait4 r status err :: sc →
  err = Some EINTR ∨ err = Some EAGAIN →
  wait t outcome σ =
    wait t outcome (set_os sc (CWait4 (tid t) (Z.lor WALL WUNTRACED) :: log σ) σ).
Proof.
  intros Hs Herr. unfold wait at 1. rewrite wait_loop_S. unfold Wait4. mred.
  rewrite Hs. mred.
  assert (bool_decide (err = Some EINTR) || bool_decide (err = Some EAGAIN) = true)
    as ->.
  { apply orb_true_iff. rewrite !bool_decide_eq_true. done. }
  reflexivity.
Qed.

Lemma syscall_loop_S fuel t :
  syscall_loop (S fuel) t =
    (errno ← ptrace (CPtraceCont (tid t));
     if negb (errno =? 0) then do_panic (PanicSyscallEnter errno) else
     sig ← wait t stopped;
     if sig =? SIGTRAP then mret tt
     else
       (if negb (sig =? SIGSTOP) && negb (sig =? SIGCHLD)
        then notify (CWarningf (WarnInterrupted (tgid t) (tid t) sig))
        else mret tt);;
       syscall_loop fuel t).
Proof. reflexivity. Qed.

#[local] Arguments syscall_loop : simpl never.

Lemma shrinks_syscall_loop fuel t : shrinks (syscall_loop fuel t).
Proof.
  induction fuel as [|fuel IH]; [apply shrinks_stuck|].
  rewrite syscall_loop_S. shrinks.
Qed.

Lemma syscall_loop_fuel n :
  ∀ m t σ,
    (length (script σ) < n)%nat → (length (script σ) < m)%nat →
    syscall_loop n t σ = syscall_loop m t σ.
Proof.
  induction n as [|n IH]; intros [|m] t σ Hn Hm; try lia.
  rewrite !syscall_loop_S. mred.
  destruct (ptrace (CPtraceCont (tid t)) σ) as [[errno| | |] σ1] eqn:Ep;
    try reflexivity.
  assert (length (script σ1) < length (script σ))%nat as Hlt.
  { unfold ptrace in Ep. apply bind_Ret_inv in Ep as (r & σ0 & Ho & Hr).
    apply oscall_consumes in Ho.
    assert (shrinks (match r with RErrno errno => mret errno | _ => stuck end))
      as Hm' by shrinks.
    apply Hm' in Hr. lia. }
  destruct (negb (errno =? 0)); [reflexivity|].
  destruct (wait t stopped σ1) as [[sig| | |] σ2] eqn:Ew; try reflexivity.
  apply shrinks_wait in Ew.
  destruct (sig =? SIGTRAP); [reflexivity|].
  destruct (negb (sig =? SIGSTOP) && negb (sig =? SIGCHLD)); mred;
    apply IH; simpl; lia.
Qed.

Lemma shrinks_thread_syscall_body t (err : option error) :
  shrinks
    (match err with
     | Some e => do_panic (PanicSetRegs e)
     | None =>
       (λ σ, syscall_loop (S (length (script σ))) t σ);;
       '(regs', err) ← getRegs t;
       match err with
       | Some e => do_panic (PanicGetRegs e)
       | None => mret (syscallReturnValue regs')
       end
     end).
Proof. shrinks. intros σ o σ'. apply shrinks_syscall_loop. Qed.

Lemma shrinks_thread_syscall t regs : shrinks (thread_syscall t regs).
Proof.
  unfold thread_syscall. apply shrinks_bind; [shrinks|].
  apply shrinks_thread_syscall_body.
Qed.
#[local] Hint Resolve shrinks_thread_syscall : shrinks.

(* A cycle that returns has consumed at least the answer to [setRegs]. *)
Lemma thread_syscall_consumes t regs σ x σ' :
  thread_syscall t regs σ = (Ret x, σ') →
  (length (script σ') < length (script σ))%nat.
Proof.
  unfold thread_syscall. intros H.
  apply bind_Ret_inv in H as (err & σ1 & H1 & H2).
  unfold setRegs in H1. apply bind_Ret_inv in H1 as (r & σ0 & Ho & Hr).
  apply oscall_consumes in Ho.
  assert (length (script σ1) ≤ length (script σ0))%nat as Hle.
  { assert (shrinks (match r with RErr err => mret err | _ => stuck end)) as Hm
      by shrinks.
    exact (Hm _ _ _ Hr). }
  apply shrinks_thread_syscall_body in H2. lia.
Qed.

(** ** syscallIgnoreInterrupt *)

Lemma is_restart_spec err :
  is_restart err = true ↔
  err = Some (Errno 512) ∨ err = Some (Errno 513) ∨ err = Some (Errno 514).
Proof.
  unfold is_restart, ERESTARTSYS, ERESTARTNOINTR, ERESTARTNOHAND.
  rewrite !orb_true_iff, !bool_decide_eq_true. tauto.
Qed.

Lemma syscallIgnoreInterrupt_loop_S fuel t initRegs sysno args σ :
  syscallIgnoreInterrupt_loop (S fuel) t initRegs sysno args σ =
    ('(rval, err) ← cycle t initRegs sysno args;
     if is_restart err
     then syscallIgnoreInterrupt_loop fuel t initRegs sysno args
     else mret (rval, err)) σ.
Proof.
  simpl. unfold cycle, is_restart. mred.
  destruct (thread_syscall _ _ σ) as [[[rval err]| | |] σ1]; try reflexivity.
  repeat case_bool_decide; reflexivity.
Qed.

#[local] Arguments syscallIgnoreInterrupt_loop : simpl never.

Lemma syscallIgnoreInterrupt_loop_fuel n m t initRegs sysno args σ :
  (length (script σ) < n)%nat → (length (script σ) < m)%nat →
  syscallIgnoreInterrupt_loop n t initRegs sysno args σ =
  syscallIgnoreInterrupt_loop m t initRegs sysno args σ.
Proof.
  revert m σ. induction n as [|n IH]; intros [|m] σ Hn Hm; try lia.
  rewrite !syscallIgnoreInterrupt_loop_S. mred.
  destruct (cycle t initRegs sysno args σ) as [[[rval err]| | |] σ1] eqn:E;
    try reflexivity.
  destruct (is_restart err); [|reflexivity].
  apply thread_syscall_consumes in E. apply IH; lia.
Qed.

Lemma syscallIgnoreInterrupt_unfold t initRegs sysno args σ :
  syscallIgnoreInterrupt t initRegs sysno args σ =
    match cycle t initRegs sysno args σ with
    | (Ret (rval, err), σ1) =>
        if is_restart err
        then syscallIgnoreInterrupt t initRegs sysno args σ1
        else (Ret (rval, err), σ1)
    | (Panic p, σ1) => (Panic p, σ1)
    | (Terminated sig, σ1) => (Terminated sig, σ1)
    | (Stuck, σ1) => (Stuck, σ1)
    end.
Proof.
  unfold syscallIgnoreInterrupt at 1. rewrite syscallIgnoreInterrupt_loop_S. mred.
  destruct (cycle t initRegs sysno args σ) as [[[rval err]| | |] σ1] eqn:E;
    try reflexivity.
  destruct (is_restart err); [|reflexivity].
  apply thread_syscall_consumes in E. unfold syscallIgnoreInterrupt.
  apply syscallIgnoreInterrupt_loop_fuel; lia.
Qed.

Lemma syscallIgnoreInterrupt_after_retries t initRegs sysno args n σ σ1 :
  retries t initRegs sysno args n σ σ1 →
  ∀ rval err σ',
    cycle t initRegs sysno args σ1 = (Ret (rval, err), σ') →
    is_restart err = false →
    syscallIgnoreInterrupt t initRegs sysno args σ = (Ret (rval, err), σ').
Proof.
  induction 1 as [σ|n σ σ1 σ2 rv e Hc Hr _ IH]; intros rval err σ' Hlast Hno.
  - rewrite syscallIgnoreInterrupt_unfold, Hlast, Hno. reflexivity.
  - rewrite syscallIgnoreInterrupt_unfold, Hc, Hr. eauto.
Qed.

Lemma syscallIgnoreInterrupt_returns_inv t initRegs sysno args k :
  ∀ σ, (length (script σ) < k)%nat →
  ∀ rval err σ',
    syscallIgnoreInterrupt t initRegs sysno args σ = (Ret (rval, err), σ') →
    ∃ n σ1, retries t initRegs sysno args n σ σ1 ∧
            cycle t initRegs sysno args σ1 = (Ret (rval, err), σ') ∧
            is_restart err = false.
Proof.
  induction k as [|k IH]; intros σ Hk rval err σ'; [lia|].
  rewrite syscallIgnoreInterrupt_unfold.
  destruct (cycle t initRegs sysno args σ) as [[[rv e]| | |] σ1] eqn:E;
    try discriminate.
  destruct (is_restart e) eqn:Hr.
  - intros H. pose proof (thread_syscall_consumes _ _ _ _ _ E) as Hlt.
    apply IH in H as (n & σ2 & Hn & Hlast & Hno); [|lia].
    exists (S n), σ2. split; [|done]. econstructor; eassumption.
  - intros [= -> -> ->]. exists O, σ. split; [constructor|done].
Qed.

(** C3.  [syscallIgnoreInterrupt] returns [(rval, err)] exactly when, after
    some number of cycles that each returned one of ERESTARTSYS (512),
    ERESTARTNOINTR (513) and ERESTARTNOHAND (514), a cycle returns
    [(rval, err)] and [err] is none of the three: every cycle sets the
    registers up afresh and injects the call, a restart errno starts the
    next cycle, any other outcome is returned as it is, and no restart errno
    is ever returned. *)
Theorem syscallIgnoreInterrupt_retries_restarts t initRegs sysno args σ :
  (∀ rval err σ',
     syscallIgnoreInterrupt t initRegs sysno args σ = (Ret (rval, err), σ') ↔
     ∃ n σ1, retries t initRegs sysno args n σ σ1 ∧
             cycle t initRegs sysno args σ1 = (Ret (rval, err), σ') ∧
             is_restart err = false) ∧
  (∀ rval err σ',
     syscallIgnoreInterrupt t initRegs sysno args σ = (Ret (rval, err), σ') →
     err ≠ Some ERESTARTSYS ∧ err ≠ Some ERESTARTNOINTR ∧
     err ≠ Some ERESTARTNOHAND) ∧
  (∀ err, is_restart err = true ↔
     err = Some (Errno 512) ∨ err = Some (Errno 513) ∨ err = Some (Errno 514)).
Proof.
  assert (Hinv := syscallIgnoreInterrupt_returns_inv t initRegs sysno args
                    (S (length (script σ))) σ (Nat.lt_succ_diag_r _)).
  split; [|split].
  - intros rval err σ'. split; [apply Hinv|].
    intros (n & σ1 & Hn & Hlast & Hno).
    eapply syscallIgnoreInterrupt_after_retries; eassumption.
  - intros rval err σ' H. apply Hinv in H as (_ & _ & _ & _ & Hno).
    unfold is_restart in Hno. rewrite !orb_false_iff in Hno.
    rewrite !bool_decide_eq_false in Hno. tauto.
  - apply is_restart_spec.
Qed.

(** ** subprocess.Unmap *)

Lemma uint64_no_overflow addr length :
  0 ≤ addr < 2 ^ 64 → 0 ≤ length < 2 ^ 64 →
  addr ≤ uint64 (addr + length) ↔ addr + length < 2 ^ 64.
Proof.
  intros Ha Hl. unfold uint64.
  destruct (Z_lt_ge_dec (addr + length) (2 ^ 64)) as [Hlt|Hge].
  - rewrite Z.mod_small by lia. lia.
  - replace (addr + length) with ((addr + length - 2 ^ 64) + 1 * 2 ^ 64) by lia.
    rewrite Z_mod_plus_full, Z.mod_small by lia. lia.
Qed.

Lemma ToRange_ok addr length :
  0 ≤ addr < 2 ^ 64 → 0 ≤ length < 2 ^ 64 →
  addr ≤ uint64 (addr + length) →
  ToRange addr length = ({| arStart := addr; arEnd := addr + length |}, true).
Proof.
  intros Ha Hl Hok. unfold ToRange.
  assert (uint64 (addr + length) = addr + length) as ->.
  { apply uint64_no_overflow in Hok; [|done..]. unfold uint64.
    apply Z.mod_small. lia. }
  f_equal. apply Z.leb_le. lia.
Qed.

Lemma Contains_spec ar x :
  Contains ar x = true ↔ arStart ar ≤ x < arEnd ar.
Proof. unfold Contains. rewrite andb_true_iff, Z.leb_le, Z.ltb_lt. tauto. Qed.

Lemma Unmap_visit_eq s ar c σ :
  Unmap_visit s ar c σ =
    (Ret tt,
     if stale s ar (ctxs σ c)
     then set_subproc s (set_contexts (contexts (subprocs σ s) ∖ {[c]}) (subprocs σ s))
            (set_ctx c (set_lastFaultSP None (ctxs σ c)) σ)
     else σ).
Proof.
  unfold Unmap_visit, stale, modify_ctx, modify_subproc. mred.
  destruct (_ && _); reflexivity.
Qed.

Lemma stale_cleared s ar x : stale s ar (set_lastFaultSP None x) = false.
Proof. reflexivity. Qed.

Lemma Unmap_post_nil s ar σ : Unmap_post s ar [] σ σ.
Proof.
  unfold Unmap_post. split_and!; try done.
  intros c. split; [|tauto]. intros H. split; [done|].
  intros [Hc _]. by apply not_elem_of_nil in Hc.
Qed.

Lemma Unmap_post_cons s ar c cs σ σ' :
  Unmap_post s ar cs
    (if stale s ar (ctxs σ c)
     then set_subproc s (set_contexts (contexts (subprocs σ s) ∖ {[c]}) (subprocs σ s))
            (set_ctx c (set_lastFaultSP None (ctxs σ c)) σ)
     else σ) σ' →
  Unmap_post s ar (c :: cs) σ σ'.
Proof.
  unfold Unmap_post.
  destruct (stale s ar (ctxs σ c)) eqn:Hst.
  - intros (H1 & H2 & H3 & H4 & H5 & H6 & H7 & H8 & H9 & H10 & H11 & H12).
    simpl in *. rewrite fn_lookup_insert in H9, H10, H11.
    split_and!; try assumption.
    + intros s' Hne. rewrite H8 by done. by rewrite fn_lookup_insert_ne.
    + intros c0. rewrite H11. simpl.
      rewrite elem_of_difference, elem_of_singleton, elem_of_cons.
      destruct (decide (c0 = c)) as [->|Hne].
      * split; [tauto|]. intros [_ Hn]. exfalso. apply Hn. auto.
      * rewrite fn_lookup_insert_ne by done. tauto.
    + intros c0. rewrite H12.
      destruct (decide (c0 = c)) as [->|Hne].
      * rewrite fn_lookup_insert, stale_cleared, andb_false_r, Hst, andb_true_r.
        rewrite bool_decide_eq_true_2 by left. reflexivity.
      * rewrite fn_lookup_insert_ne by done.
        assert (bool_decide (c0 ∈ c :: cs) = bool_decide (c0 ∈ cs)) as ->.
        { apply bool_decide_ext. rewrite elem_of_cons. tauto. }
        reflexivity.
  - intros (H1 & H2 & H3 & H4 & H5 & H6 & H7 & H8 & H9 & H10 & H11 & H12).
    split_and!; try assumption.
    + intros c0. rewrite H11, elem_of_cons.
      destruct (decide (c0 = c)) as [->|Hne]; [|tauto].
      rewrite Hst. split; [|tauto]. intros [? _]. split; [done|].
      intros [_ ?]. done.
    + intros c0. rewrite H12.
      destruct (decide (c0 = c)) as [->|Hne].
      * by rewrite Hst, !andb_false_r.
      * assert (bool_decide (c0 ∈ c :: cs) = bool_decide (c0 ∈ cs)) as ->.
        { apply bool_decide_ext. rewrite elem_of_cons. tauto. }
        reflexivity.
Qed.

Lemma Unmap_range_post s ar cs :
  ∀ σ, ∃ σ', Unmap_range s ar cs σ = (Ret tt, σ') ∧ Unmap_post s ar cs σ σ'.
Proof.
  induction cs as [|c cs IH]; intros σ.
  - exists σ. split; [reflexivity|apply Unmap_post_nil].
  - simpl. mred. rewrite Unmap_visit_eq.
    match goal with |- context [Unmap_range s ar cs ?σ1] =>
      destruct (IH σ1) as (σ' & Hr & Hp) end.
    exists σ'. rewrite Hr. split; [reflexivity|]. by apply Unmap_post_cons.
Qed.

(* Go visits the keys of a map in an unspecified order; the loop of [Unmap]
   leaves the same fault caches and the same bound set for every order. *)
Lemma Unmap_range_order s ar cs1 cs2 σ :
  (∀ c, c ∈ cs1 ↔ c ∈ cs2) →
  let σ1 := snd (Unmap_range s ar cs1 σ) in
  let σ2 := snd (Unmap_range s ar cs2 σ) in
  (∀ c, ctxs σ1 c = ctxs σ2 c) ∧
  (∀ c, c ∈ contexts (subprocs σ1 s) ↔ c ∈ contexts (subprocs σ2 s)).
Proof.
  intros Hcs σ1 σ2. subst σ1 σ2.
  destruct (Unmap_range_post s ar cs1 σ) as (σ1 & -> & P1).
  destruct (Unmap_range_post s ar cs2 σ) as (σ2 & -> & P2).
  destruct P1 as (_ & _ & _ & _ & _ & _ & _ & _ & _ & _ & Hm1 & Hc1).
  destruct P2 as (_ & _ & _ & _ & _ & _ & _ & _ & _ & _ & Hm2 & Hc2).
  cbn [snd]. split; intros c.
  - rewrite Hc1, Hc2.
    by rewrite (bool_decide_ext (c ∈ cs1) (c ∈ cs2) (Hcs c)).
  - rewrite Hm1, Hm2, Hcs. reflexivity.
Qed.

Lemma Unmap_overflow s addr length σ :
  snd (ToRange addr length) = false →
  Unmap s addr length σ = (Panic (PanicOverflow addr length), σ).
Proof.
  unfold Unmap. destruct (ToRange addr length) as [ar ok]. simpl.
  intros ->. reflexivity.
Qed.

(* Past the overflow check, [Unmap] runs the loop and then injects munmap;
   its outcome is decided by the answer to that call. *)
Lemma Unmap_run s addr length σ :
  snd (ToRange addr length) = true →
  ∃ σ1,
    Unmap_post s (fst (ToRange addr length))
      (elements (contexts (subprocs σ s))) σ σ1 ∧
    Unmap s addr length σ =
      (let lg := CSubprocessSyscall s SYS_MUNMAP
                   [{| Value := addr |}; {| Value := length |}] :: log σ in
       match script σ with
       | RSyscall _ None :: sc => (Ret tt, set_os sc lg σ1)
       | RSyscall _ (Some e) :: sc => (Panic (PanicMunmap addr length e), set_os sc lg σ1)
       | _ :: sc => (Stuck, set_os sc lg σ1)
       | [] => (Stuck, set_os [] lg σ1)
       end).
Proof.
  unfold Unmap. destruct (ToRange addr length) as [ar ok]. simpl. intros ->.
  destruct (Unmap_range_post s ar (elements (contexts (subprocs σ s))) σ)
    as (σ1 & Hr & Hp).
  exists σ1. split; [done|]. mred. rewrite Hr.
  destruct Hp as (Hsc & Hlg & _).
  unfold subprocess_syscall. mred. rewrite Hsc, Hlg.
  destruct (script σ) as [|[] sc]; mred; try reflexivity.
  destruct err; reflexivity.
Qed.

(** C2.  When [addr + length] does not overflow, [Unmap] clears the cached
    fault of every context registered in [s.contexts] whose [lastFaultSP] is
    this subprocess and whose [lastFaultAddr] lies in [[addr, addr+length)]:
    its [lastFaultSP] becomes nil and it leaves [s.contexts].  A context
    whose cached address lies outside the range keeps its state and its
    membership, and so does a context whose cache points elsewhere. *)
Theorem Unmap_clears_fault_cache s addr length σ :
  0 ≤ addr < 2 ^ 64 → 0 ≤ length < 2 ^ 64 →
  addr ≤ uint64 (addr + length) →
  let σ' := snd (Unmap s addr length σ) in
  ∀ c,
    (c ∈ contexts (subprocs σ s) →
     lastFaultSP (ctxs σ c) = Some s →
     addr ≤ lastFaultAddr (ctxs σ c) < addr + length →
     lastFaultSP (ctxs σ' c) = None ∧ c ∉ contexts (subprocs σ' s)) ∧
    (¬ (addr ≤ lastFaultAddr (ctxs σ c) < addr + length) →
     ctxs σ' c = ctxs σ c ∧
     (c ∈ contexts (subprocs σ' s) ↔ c ∈ contexts (subprocs σ s))) ∧
    (lastFaultSP (ctxs σ c) ≠ Some s →
     ctxs σ' c = ctxs σ c ∧
     (c ∈ contexts (subprocs σ' s) ↔ c ∈ contexts (subprocs σ s))).
Proof.
  intros Ha Hl Hok σ' c.
  pose proof (ToRange_ok addr length Ha Hl Hok) as HT.
  destruct (Unmap_run s addr length σ) as (σ1 & Hp & HU); [by rewrite HT|].
  rewrite HT in Hp. simpl in Hp.
  assert (ctxs σ' = ctxs σ1 ∧ subprocs σ' = subprocs σ1) as [-> ->].
  { subst σ'. rewrite HU. simpl.
    destruct (script σ) as [|[] sc]; try done. by destruct err. }
  destruct Hp as (_ & _ & _ & _ & _ & _ & _ & _ & _ & _ & Hmem & Hctx).
  assert (∀ x, stale s {| arStart := addr; arEnd := addr + length |} x = true ↔
               lastFaultSP x = Some s ∧ addr ≤ lastFaultAddr x < addr + length)
    as Hstale.
  { intros x. unfold stale.
    rewrite andb_true_iff, bool_decide_eq_true, Contains_spec. reflexivity. }
  split_and!.
  - intros Hin Hsp Hrange.
    assert (stale s {| arStart := addr; arEnd := addr + length |} (ctxs σ c) = true)
      as Hst by (by apply Hstale).
    split.
    + rewrite Hctx, Hst, bool_decide_eq_true_2; [done|].
      by apply elem_of_elements.
    + rewrite Hmem. intros [_ Hn]. apply Hn. split; [|done].
      by apply elem_of_elements.
  - intros Hout.
    assert (stale s {| arStart := addr; arEnd := addr + length |} (ctxs σ c) = false)
      as Hst.
    { apply not_true_is_false. rewrite Hstale. tauto. }
    split.
    + by rewrite Hctx, Hst, andb_false_r.
    + rewrite Hmem, Hst. split; [tauto|]. intros ?. split; [done|].
      intros [_ ?]. done.
  - intros Hsp.
    assert (stale s {| arStart := addr; arEnd := addr + length |} (ctxs σ c) = false)
      as Hst.
    { apply not_true_is_false. rewrite Hstale. tauto. }
    split.
    + by rewrite Hctx, Hst, andb_false_r.
    + rewrite Hmem, Hst. split; [tauto|]. intros ?. split; [done|].
      intros [_ ?]. done.
Qed.

(** C10.  [Unmap] has no error result; it fails by panicking.  When
    [addr + length] overflows it panics at once and the state is exactly the
    one it was called in: nothing was read, written or called.  When the
    injected munmap fails it panics after the loop has cleared the fault
    caches.  Hence, when [Unmap] returns, the sum did not overflow, the
    caches have been cleared and munmap has been injected and answered
    without an error. *)
Theorem Unmap_panics_or_completes s addr length σ :
  let ar := fst (ToRange addr length) in
  let cs := elements (contexts (subprocs σ s)) in
  let lg := CSubprocessSyscall s SYS_MUNMAP
              [{| Value := addr |}; {| Value := length |}] :: log σ in
  (uint64 (addr + length) < addr →
     Unmap s addr length σ = (Panic (PanicOverflow addr length), σ)) ∧
  (∀ rval e sc,
     addr ≤ uint64 (addr + length) →
     script σ = RSyscall rval (Some e) :: sc →
     ∃ σ1, Unmap_post s ar cs σ σ1 ∧
           Unmap s addr length σ = (Panic (PanicMunmap addr length e), set_os sc lg σ1)) ∧
  (∀ σ', Unmap s addr length σ = (Ret tt, σ') →
     addr ≤ uint64 (addr + length) ∧
     ∃ rval sc σ1, script σ = RSyscall rval None :: sc ∧
                   Unmap_post s ar cs σ σ1 ∧ σ' = set_os sc lg σ1).
Proof.
  intros ar cs lg. split_and!.
  - intros Hov. apply Unmap_overflow. simpl. apply Z.leb_gt. lia.
  - intros rval e sc Hok Hs.
    destruct (Unmap_run s addr length σ) as (σ1 & Hp & HU).
    { simpl. apply Z.leb_le. lia. }
    exists σ1. split; [done|]. rewrite HU, Hs. reflexivity.
  - intros σ' HR.
    destruct (Z_le_gt_dec addr (uint64 (addr + length))) as [Hok|Hov].
    + split; [done|].
      destruct (Unmap_run s addr length σ) as (σ1 & Hp & HU).
      { simpl. apply Z.leb_le. lia. }
      rewrite HU in HR.
      destruct (script σ) as [|[] sc]; try discriminate.
      destruct err; try discriminate. injection HR as <-. eauto 10.
    + rewrite Unmap_overflow in HR; [discriminate|].
      simpl. apply Z.leb_gt. lia.
Qed.

(** ** The pool: unregisterContext and Release *)

Lemma int32_small z : - 2 ^ 31 ≤ z < 2 ^ 31 → int32 z = z.
Proof. intros H. unfold int32. rewrite Z.mod_small by lia. lia. Qed.

Lemma unregistered_subproc s c σ :
  1 ≤ numContexts (subprocs σ s) < 2 ^ 31 →
  subprocs (unregistered s c σ) s =
    {| numContexts := numContexts (subprocs σ s) - 1;
       released := released (subprocs σ s);
       contexts := contexts (subprocs σ s) ∖ {[c]} |}.
Proof.
  intros Hn. unfold unregistered. simpl. rewrite !fn_lookup_insert.
  unfold set_numContexts. simpl. rewrite int32_small by lia. reflexivity.
Qed.

Lemma unregistered_other s c σ s' :
  s' ≠ s → subprocs (unregistered s c σ) s' = subprocs σ s'.
Proof.
  intros Hne. unfold unregistered. simpl. by rewrite !fn_lookup_insert_ne.
Qed.

Lemma unregisterContext_eq s c σ :
  unregisterContext (Some s) c σ =
    (let σ1 := unregistered s c σ in
     if released (subprocs σ1 s) && (numContexts (subprocs σ1 s) =? 0)
     then subprocessPool_release s σ1
     else (Ret tt, σ1)).
Proof.
  unfold unregisterContext, modify_subproc. mred.
  fold (unregistered s c σ).
  destruct (_ && _); reflexivity.
Qed.

Lemma subprocessPool_release_eq s σ :
  subprocessPool_release s σ =
    (let σ1 := set_subproc s (set_released true (subprocs σ s)) σ in
     (Ret tt,
      if numContexts (subprocs σ s) =? 0
      then set_globalPool
             {| active := active (globalPool σ) ∖ {[s]};
                available := available (globalPool σ) ∪ {[s]} |} σ1
      else σ1)).
Proof.
  unfold subprocessPool_release, modify_subproc. mred.
  rewrite fn_lookup_insert. simpl.
  destruct (_ =? 0); reflexivity.
Qed.

Lemma subprocessPool_release_restores s σ :
  (∀ s', s' ≠ s →
     s' ∈ available (globalPool σ) ↔
     released (subprocs σ s') = true ∧ numContexts (subprocs σ s') = 0) →
  (s ∈ available (globalPool σ) → numContexts (subprocs σ s) = 0) →
  pool_inv (snd (subprocessPool_release s σ)).
Proof.
  unfold pool_inv. intros Hothers Hs s'. rewrite subprocessPool_release_eq. simpl.
  destruct (numContexts (subprocs σ s) =? 0) eqn:Hn; simpl.
  - apply Z.eqb_eq in Hn. rewrite elem_of_union, elem_of_singleton.
    destruct (decide (s' = s)) as [->|Hne].
    + rewrite fn_lookup_insert. simpl. tauto.
    + rewrite fn_lookup_insert_ne by done. rewrite Hothers by done. tauto.
  - apply Z.eqb_neq in Hn.
    destruct (decide (s' = s)) as [->|Hne].
    + rewrite fn_lookup_insert. simpl. tauto.
    + rewrite fn_lookup_insert_ne by done. by apply Hothers.
Qed.

Lemma subprocessPool_release_inv s σ :
  pool_inv σ → pool_inv (snd (subprocessPool_release s σ)).
Proof.
  intros Hinv. apply subprocessPool_release_restores.
  - intros s' _. apply Hinv.
  - intros H. by apply Hinv in H as [_ ?].
Qed.

Lemma subprocessPool_release_fields s σ :
  released (subprocs (snd (subprocessPool_release s σ)) s) = true ∧
  numContexts (subprocs (snd (subprocessPool_release s σ)) s) =
    numContexts (subprocs σ s).
Proof.
  rewrite subprocessPool_release_eq. simpl.
  destruct (_ =? 0); simpl; rewrite fn_lookup_insert; done.
Qed.

Lemma same_lifecycle_refl σ : same_lifecycle σ σ.
Proof. by split. Qed.

Lemma same_lifecycle_trans σ1 σ2 σ3 :
  same_lifecycle σ1 σ2 → same_lifecycle σ2 σ3 → same_lifecycle σ1 σ3.
Proof.
  intros [Hp1 H1] [Hp2 H2]. split; [congruence|].
  intros s. destruct (H1 s), (H2 s). split; congruence.
Qed.

Lemma same_lifecycle_inv σ σ' : same_lifecycle σ σ' → pool_inv σ → pool_inv σ'.
Proof.
  unfold pool_inv. intros [Hp H] Hinv s. destruct (H s) as [-> ->].
  rewrite Hp. apply Hinv.
Qed.

Lemma Unmap_post_lifecycle s ar cs σ σ1 sc lg :
  Unmap_post s ar cs σ σ1 → same_lifecycle σ (set_os sc lg σ1).
Proof.
  intros (_ & _ & _ & _ & _ & _ & Hp & Hs' & Hn & Hr & _). split; [done|].
  intros s'. simpl. destruct (decide (s' = s)) as [->|Hne]; [done|].
  by rewrite Hs'.
Qed.

Lemma Unmap_lifecycle s addr length σ :
  same_lifecycle σ (snd (Unmap s addr length σ)).
Proof.
  destruct (snd (ToRange addr length)) eqn:Hok.
  - destruct (Unmap_run s addr length σ Hok) as (σ1 & Hp & ->).
    destruct (script σ) as [|[] sc]; simpl;
      try (eapply Unmap_post_lifecycle; eassumption).
    destruct err; eapply Unmap_post_lifecycle; eassumption.
  - rewrite Unmap_overflow by done. apply same_lifecycle_refl.
Qed.

Lemma unmap_lifecycle s σ : same_lifecycle σ (snd (unmap s σ)).
Proof.
  unfold unmap. mred.
  pose proof (Unmap_lifecycle s 0 (uint64 stubStart) σ) as H1.
  destruct (Unmap s 0 (uint64 stubStart) σ) as [[[]| | |] σ1]; simpl in *; try done.
  destruct (negb _); [|done].
  eapply same_lifecycle_trans; [exact H1|]. apply Unmap_lifecycle.
Qed.

(** C1.  In a state where the available set holds exactly the subprocesses
    that are released and idle:
    - [unregisterContext(c)] on a subprocess that has an active context
      removes [c] from [s.contexts], decrements [numContexts], and then
      calls [globalPool.release(s)] exactly when [released] is set and the
      count has reached zero; afterwards [s] is available iff it was
      released and [c] was its last context;
    - when the goroutine of [Release] has run, [s] is marked released, with
      its count unchanged;
    and in both cases the available set again holds exactly the released
    idle subprocesses, so a subprocess released while it has contexts stays
    out of it until the last of them unregisters. *)
Theorem available_iff_released_and_idle σ :
  pool_inv σ →
  (∀ s c,
     1 ≤ numContexts (subprocs σ s) < 2 ^ 31 →
     let σ1 := unregistered s c σ in
     let σ' := snd (unregisterContext (Some s) c σ) in
     contexts (subprocs σ1 s) = contexts (subprocs σ s) ∖ {[c]} ∧
     numContexts (subprocs σ1 s) = numContexts (subprocs σ s) - 1 ∧
     unregisterContext (Some s) c σ =
       (if released (subprocs σ s) && (numContexts (subprocs σ s) - 1 =? 0)
        then subprocessPool_release s σ1 else (Ret tt, σ1)) ∧
     pool_inv σ' ∧
     (s ∈ available (globalPool σ') ↔
      released (subprocs σ s) = true ∧ numContexts (subprocs σ s) = 1)) ∧
  (∀ s σ',
     Release s σ = (Ret tt, σ') →
     released (subprocs σ' s) = true ∧
     numContexts (subprocs σ' s) = numContexts (subprocs σ s) ∧
     pool_inv σ' ∧
     (s ∈ available (globalPool σ') ↔ numContexts (subprocs σ s) = 0)).
Proof.
  intros Hinv. split.
  - intros s c Hn σ1 σ'.
    pose proof (unregistered_subproc s c σ Hn) as Hs. fold σ1 in Hs.
    assert (∀ s', s' ≠ s → subprocs σ1 s' = subprocs σ s') as Hother
      by (intros s' Hne; by apply unregistered_other).
    assert (globalPool σ1 = globalPool σ) as Hpool by reflexivity.
    assert (unregisterContext (Some s) c σ =
      (if released (subprocs σ s) && (numContexts (subprocs σ s) - 1 =? 0)
       then subprocessPool_release s σ1 else (Ret tt, σ1))) as Heq.
    { rewrite unregisterContext_eq. fold σ1. cbv zeta. rewrite Hs. reflexivity. }
    subst σ'. rewrite Heq. clearbody σ1. clear Heq.
    pose proof Hinv as Hinv0. unfold pool_inv in Hinv.
    assert (s ∉ available (globalPool σ)) as Hout.
    { rewrite Hinv. intros [_ ?]. lia. }
    assert (released (subprocs σ1 s) = released (subprocs σ s) ∧
            numContexts (subprocs σ1 s) = numContexts (subprocs σ s) - 1)
      as [Hr1 Hn1] by (by rewrite Hs).
    split_and!; try done.
    + by rewrite Hs.
    + destruct (released (subprocs σ s) && _) eqn:Hcond.
      * apply subprocessPool_release_restores.
        -- intros s' Hne. rewrite Hother, Hpool by done. apply Hinv.
        -- rewrite Hpool. done.
      * cbn [snd]. intros s'. destruct (decide (s' = s)) as [->|Hne].
        -- rewrite Hpool, Hr1, Hn1. apply andb_false_iff in Hcond.
           rewrite Z.eqb_neq in Hcond. split; [done|].
           intros [Hr Hz]. rewrite Hr in Hcond. by destruct Hcond.
        -- rewrite Hother, Hpool by done. apply Hinv.
    + destruct (released (subprocs σ s) && _) eqn:Hcond.
      * apply andb_true_iff in Hcond as [Hr Hz]. apply Z.eqb_eq in Hz.
        pose proof (subprocessPool_release_restores s σ1) as Hinv'.
        unfold pool_inv in Hinv'. rewrite Hinv'.
        -- destruct (subprocessPool_release_fields s σ1) as [-> ->].
           rewrite Hn1. split; intros _; split; (done || lia).
        -- intros s' Hne. rewrite Hother, Hpool by done. apply Hinv.
        -- rewrite Hpool. done.
      * cbn [snd]. rewrite Hpool. apply andb_false_iff in Hcond.
        rewrite Z.eqb_neq in Hcond. split; [done|].
        intros [Hr Hz]. rewrite Hr in Hcond. destruct Hcond; [done|lia].
  - intros s σ'. unfold Release. intros HR.
    apply bind_Ret_inv in HR as ([] & σ1 & Hu & Hrel).
    pose proof (unmap_lifecycle s σ) as Hl. rewrite Hu in Hl. simpl in Hl.
    pose proof (same_lifecycle_inv _ _ Hl Hinv) as Hinv1.
    pose proof (subprocessPool_release_inv s σ1 Hinv1) as Hinv'.
    destruct (subprocessPool_release_fields s σ1) as [Hr' Hn'].
    rewrite Hrel in Hinv', Hr', Hn'. simpl in *.
    destruct Hl as [_ Hl]. destruct (Hl s) as [Hn Hr].
    split_and!; try done; try congruence.
    unfold pool_inv in Hinv'. rewrite Hinv', Hr', Hn', Hn. tauto.
Qed.

(** ** switchToApp *)

Section Preserves.
Context {B : Type} (f : state → B).

Lemma preserves_bind {A A'} (m : M A) (k : A → M A') :
  preserves f m → (∀ a, preserves f (k a)) → preserves f (m ≫= k).
Proof.
  intros Hm Hk σ o σ'. mred.
  destruct (m σ) as [[a| | |] σ1] eqn:E; intros H;
    try (injection H as <- <-; eapply Hm; eassumption).
  apply Hm in E. apply Hk in H. congruence.
Qed.

Lemma preserves_ret {A} (a : A) : preserves f (mret a).
Proof. by intros σ o σ' [= <- <-]. Qed.

Lemma preserves_panic {A} p : preserves f (@do_panic _ A p).
Proof. by intros σ o σ' [= <- <-]. Qed.

Lemma preserves_gets {A} (g : state → A) : preserves f (gets g).
Proof. by intros σ o σ' [= <- <-]. Qed.

Lemma preserves_modify (g : state → state) :
  (∀ σ, f (g σ) = f σ) → preserves f (modify g).
Proof. intros Hg σ o σ' [= <- <-]. apply Hg. Qed.

Lemma preserves_defer {A} (d : M unit) (body : M A) :
  preserves f d → preserves f body → preserves f (defer d body).
Proof.
  intros Hd Hb σ o σ'. unfold defer.
  destruct (body σ) as [[a| | |] σ1] eqn:E; intros H;
    try (injection H as <- <-; eapply Hb; eassumption).
  - apply Hb in E. rewrite <- E. revert H.
    apply (preserves_bind d (λ _, mret a)); [done|].
    intros _. apply preserves_ret.
  - apply Hb in E. rewrite <- E. revert H.
    apply (preserves_bind d (λ _, do_panic p)); [done|].
    intros _. apply preserves_panic.
Qed.
End Preserves.

Lemma arm_os c ac st σ :
  script (snd (arm c ac st σ)) = script σ ∧ log (snd (arm c ac st σ)) = log σ.
Proof.
  unfold arm. destruct (restoreFPState _ _ _) as [m a].
  destruct (Enable _ _) as [ok f]. done.
Qed.

Lemma switchToApp_arm_eq s c ac σ :
  switchToApp_arm s c ac σ =
    match getSysmsgThread s c ac σ with
    | (Ret (inl st), σg) =>
        (Ret (inl (st, fst (arm c ac st σg))), snd (arm c ac st σg))
    | (Ret (inr e), σg) => (Ret (inr e), σg)
    | (Panic p, σg) => (Panic p, σg)
    | (Terminated sig, σg) => (Terminated sig, σg)
    | (Stuck, σg) => (Stuck, σg)
    end.
Proof.
  unfold switchToApp_arm. mred.
  destruct (getSysmsgThread s c ac σ) as [[[st|e]| | |] σg]; try reflexivity.
  unfold arm, get_sysThread, get_regs, put_regs, modify_msg, modify_sysThread,
    modify_ctx. mred.
  destruct (restoreFPState _ _ _) as [m a]. mred.
  destruct (Enable _ _) as [ok f]. reflexivity.
Qed.

Lemma switchToApp_eq s c ac σ :
  switchToApp s c ac σ =
    match getSysmsgThread s c ac σ with
    | (Ret (inl st), σg) =>
        let σ1 := snd (arm c ac st σg) in
        if fst (arm c ac st σg) then
          defer (modify_ctx c (λ x, set_interrupt (Disable (interrupt x)) x))
                (switchToApp_enter c ac st) σ1
        else
          (Ret (false, false, None),
           set_ctx c (set_signalInfo (SignalInfo_Signo (int32 SignalInterrupt))
                        (ctxs σ1 c)) σ1)
    | (Ret (inr e), σg) => (Ret (false, false, Some e), σg)
    | (Panic p, σg) => (Panic p, σg)
    | (Terminated sig, σg) => (Terminated sig, σg)
    | (Stuck, σg) => (Stuck, σg)
    end.
Proof.
  unfold switchToApp. rewrite bind_unfold, switchToApp_arm_eq.
  destruct (getSysmsgThread s c ac σ) as [[[st|e]| | |] σg]; try reflexivity.
  destruct (fst (arm c ac st σg)); reflexivity.
Qed.

(** C5.  When [getSysmsgThread] has returned the thread and
    [c.interrupt.Enable(sysThread)] returns false, an interrupt being
    pending, switchToApp returns [(false, false, nil)] in the state [Enable]
    returned in, changed only in that [c.signalInfo] is a signal-info whose
    signal number is SignalInterrupt and whose other fields are zero.  So
    the Message still holds what it held when [Enable] returned, the guest
    registers were not published in it, and nothing was called after the
    thread was resolved: the supervisor did not wait for the guest. *)
Theorem switchToApp_pending_interrupt s c ac σ st σg :
  getSysmsgThread s c ac σ = (Ret (inl st), σg) →
  fst (arm c ac st σg) = false →
  let σ1 := snd (arm c ac st σg) in
  let σ' := snd (switchToApp s c ac σ) in
  switchToApp s c ac σ =
    (Ret (false, false, None),
     set_ctx c (set_signalInfo (SignalInfo_Signo (int32 SignalInterrupt))
                  (ctxs σ1 c)) σ1) ∧
  signalInfo (ctxs σ' c) = SignalInfo_Signo (int32 SignalInterrupt) ∧
  Signo (signalInfo (ctxs σ' c)) = int32 SignalInterrupt ∧
  sysThreads σ' = sysThreads σ1 ∧
  interrupt (ctxs σ' c) = interrupt (ctxs σ1 c) ∧
  script σ' = script σg ∧
  log σ' = log σg.
Proof.
  intros Hg Hok σ1 σ'. subst σ'.
  rewrite switchToApp_eq, Hg. cbv zeta. rewrite Hok. fold σ1.
  destruct (arm_os c ac st σg) as [Hsc Hlg]. fold σ1 in Hsc, Hlg.
  cbn [snd]. simpl. rewrite fn_lookup_insert. done.
Qed.

Lemma roundtrip_done ac st σ m sc :
  script σ = RMsg m :: sc →
  ∃ σ2,
    roundtrip ac st σ = (Ret tt, σ2) ∧
    msg (sysThreads σ2 st) = m ∧
    sthread (sysThreads σ2 st) = sthread (sysThreads σ st) ∧
    acs σ2 ac =
      {| acRegs := fst (restoreArchSpecificState (acRegs (acs σ ac))
                          (sthread (sysThreads σ st)) (sysThreads σ st) (acs σ ac));
         acFP := acFP (acs σ ac) |} ∧
    ctxs σ2 = ctxs σ ∧
    script σ2 = sc.
Proof.
  intros Hs. unfold roundtrip, waitEvent, get_sysThread, get_regs, put_regs,
    modify_msg, modify_sysThread. mred.
  destruct (restoreArchSpecificState _ _ _ _) as [regs m1]. mred.
  rewrite Hs. mred. eexists. split; [reflexivity|].
  simpl. rewrite !fn_lookup_insert. done.
Qed.

Lemma refreshFPUStateOffset_eq st σ :
  refreshFPUStateOffset st σ =
    (let m := msg (sysThreads σ st) in
     if bool_decide (Type_ m = EventTypeSyscallTrap)
     then (Ret None,
           set_sysThread st (set_fpuStateToMsgOffset 0 (sysThreads σ st)) σ)
     else (Ret (snd (FPUStateOffset m)),
           set_sysThread st
             (set_fpuStateToMsgOffset (fst (FPUStateOffset m)) (sysThreads σ st)) σ)).
Proof.
  unfold refreshFPUStateOffset, get_msg, modify_sysThread. mred.
  case_bool_decide; mred; [reflexivity|].
  destruct (FPUStateOffset _); reflexivity.
Qed.

Lemma classify_keeps_offset c ac st :
  preserves (λ σ, fpuStateToMsgOffset (sysThreads σ st)) (classify c ac st).
Proof.
  unfold classify, get_sysThread, get_regs, put_regs, get_msg, modify_msg,
    modify_sysThread, modify_ctx.
  repeat first
    [ apply preserves_ret | apply preserves_panic | apply preserves_gets
    | apply preserves_modify; intros ?; simpl;
        rewrite ?fn_lookup_insert; reflexivity
    | apply preserves_bind; [|intros ?]
    | match goal with
      | |- preserves _ (if ?b then _ else _) => destruct b
      | |- preserves _ (let '(_, _) := ?x in _) => destruct x
      | |- preserves _ (let _ := _ in _) => cbv zeta
      end ].
Qed.

(* What the stub left in the Message decides the cached offset, whatever
   switchToApp does next. *)
Lemma switchToApp_enter_offset c ac st σ m sc o σ' :
  script σ = RMsg m :: sc →
  switchToApp_enter c ac st σ = (o, σ') →
  fpuStateToMsgOffset (sysThreads σ' st) =
    if bool_decide (Type_ m = EventTypeSyscallTrap) then 0
    else fst (FPUStateOffset m).
Proof.
  intros Hs. destruct (roundtrip_done ac st σ m sc Hs) as (σ2 & Hr & Hm & _).
  unfold switchToApp_enter. rewrite bind_unfold, Hr, bind_unfold.
  rewrite refreshFPUStateOffset_eq. cbv zeta. rewrite Hm.
  set (off := if bool_decide (Type_ m = EventTypeSyscallTrap) then 0
              else fst (FPUStateOffset m)).
  set (err := if bool_decide (Type_ m = EventTypeSyscallTrap) then None
              else snd (FPUStateOffset m)).
  set (σ3 := set_sysThread st (set_fpuStateToMsgOffset off (sysThreads σ2 st)) σ2).
  assert ((if bool_decide (Type_ m = EventTypeSyscallTrap)
           then (Ret None,
                 set_sysThread st (set_fpuStateToMsgOffset 0 (sysThreads σ2 st)) σ2)
           else (Ret (snd (FPUStateOffset m)),
                 set_sysThread st
                   (set_fpuStateToMsgOffset (fst (FPUStateOffset m))
                      (sysThreads σ2 st)) σ2))
          = (Ret err, σ3)) as ->.
  { subst off err σ3. by case_bool_decide. }
  assert (fpuStateToMsgOffset (sysThreads σ3 st) = off) as Hoff.
  { subst σ3. simpl. by rewrite fn_lookup_insert. }
  destruct err as [e|].
  - intros [= <- <-]. done.
  - unfold get_sysThread. mred.
    destruct (negb _).
    + intros [= <- <-]. done.
    + intros H. apply classify_keeps_offset in H. congruence.
Qed.

(** C6.  In a switchToApp round-trip that reaches the Done state, with the
    Message [m] as the stub left it, the cached FPU-state offset of the
    thread is afterwards the offset [m.FPUStateOffset()] returns when
    [m.Type] is not EventTypeSyscallTrap, and is zero, whatever the Message
    holds, when it is: the offset is refreshed from the Message exactly for
    the events that are not syscall traps.  This holds however the call
    ends. *)
Theorem switchToApp_refreshes_fpu_offset s c ac σ st σg m sc :
  getSysmsgThread s c ac σ = (Ret (inl st), σg) →
  fst (arm c ac st σg) = true →
  script σg = RMsg m :: sc →
  fpuStateToMsgOffset (sysThreads (snd (switchToApp s c ac σ)) st) =
    if bool_decide (Type_ m = EventTypeSyscallTrap) then 0
    else fst (FPUStateOffset m).
Proof.
  intros Hg Hok Hs. rewrite switchToApp_eq, Hg. cbv zeta. rewrite Hok.
  destruct (arm_os c ac st σg) as [Hsc _]. rewrite Hs in Hsc.
  set (σ1 := snd (arm c ac st σg)) in *.
  destruct (switchToApp_enter c ac st σ1) as [o σ2] eqn:He.
  pose proof (switchToApp_enter_offset c ac st σ1 m sc o σ2 Hsc He) as Hoff.
  rewrite <- Hoff.
  destruct (defer _ _ σ1) as [o' σ'] eqn:Hd. cbn [snd].
  unfold defer in Hd. rewrite He in Hd.
  destruct o; by injection Hd as <- <-.
Qed.

Lemma defer_modify {A} (g : state → state) (body : M A) σ :
  defer (modify g) body σ =
    match body σ with
    | (Ret a, σ') => (Ret a, g σ')
    | (Panic p, σ') => (Panic p, g σ')
    | r => r
    end.
Proof. unfold defer. destruct (body σ) as [[] ?]; reflexivity. Qed.

Lemma classify_outcome c ac st σ :
  let th := sysThreads σ st in
  let m := msg th in
  let regs := fst (retrieveArchSpecificState
                     (setPtraceRegs (Regs m) (acRegs (acs σ ac))) m
                     (sthread th) (acs σ ac)) in
  let patched := fst (fst (maybePatchSignalInfo regs (MsgSignalInfo m))) in
  fst (classify c ac st σ) = classification (Type_ m) patched ∧
  (Type_ m = EventTypeSyscallCanBePatched →
   Type_ (msg (sysThreads (snd (classify c ac st σ)) st)) = EventTypeSyscall).
Proof.
  intros th m regs patched. subst th m regs patched.
  unfold classify, get_sysThread, get_regs, put_regs, get_msg, modify_msg,
    modify_sysThread, modify_ctx. mred.
  destruct (retrieveArchSpecificState _ _ _ _) as [regs a]. mred.
  destruct (Type_ (msg (sysThreads σ st))) eqn:Hty;
    repeat (progress (mred; rewrite ?fn_lookup_insert, ?Hty));
    try (destruct (maybePatchSignalInfo _ _) as [[patched regs'] si];
         destruct patched;
         repeat (progress (mred; rewrite ?fn_lookup_insert, ?Hty)));
    by split.
Qed.

(* The round-trip up to the check of the in-band error code. *)
Lemma switchToApp_enter_checked c ac st σ m sc :
  script σ = RMsg m :: sc →
  fpu_refresh_ok m = true →
  ∃ σ3,
    switchToApp_enter c ac st σ =
      (if negb (Err m =? 0)
       then (Panic (PanicStubThread (tid (sthread (sysThreads σ st))) (Err m) (Line m)), σ3)
       else classify c ac st σ3) ∧
    msg (sysThreads σ3 st) = m ∧
    sthread (sysThreads σ3 st) = sthread (sysThreads σ st) ∧
    acs σ3 ac =
      {| acRegs := fst (restoreArchSpecificState (acRegs (acs σ ac))
                          (sthread (sysThreads σ st)) (sysThreads σ st) (acs σ ac));
         acFP := acFP (acs σ ac) |}.
Proof.
  intros Hs Hfpu.
  destruct (roundtrip_done ac st σ m sc Hs) as (σ2 & Hr & Hm & Ht & Ha & _).
  unfold switchToApp_enter. rewrite bind_unfold, Hr, bind_unfold.
  rewrite refreshFPUStateOffset_eq. cbv zeta. rewrite Hm.
  unfold fpu_refresh_ok in Hfpu.
  exists (set_sysThread st
            (set_fpuStateToMsgOffset
               (if bool_decide (Type_ m = EventTypeSyscallTrap) then 0
                else fst (FPUStateOffset m)) (sysThreads σ2 st)) σ2).
  case_bool_decide as Htrap.
  - unfold get_sysThread. mred. rewrite ?fn_lookup_insert. simpl.
    rewrite ?Hm, ?Ht. split; [by destruct (negb _)|].
    rewrite ?fn_lookup_insert. done.
  - simpl in Hfpu. apply bool_decide_eq_true in Hfpu. rewrite Hfpu.
    unfold get_sysThread. mred. rewrite ?fn_lookup_insert. simpl.
    rewrite ?Hm, ?Ht. split; [by destruct (negb _)|].
    rewrite ?fn_lookup_insert. done.
Qed.

(** C4, as amended.  After a round-trip that left a Message with no in-band
    error and a usable FPU-state offset, switchToApp classifies its event
    type:
    - Syscall or SyscallTrap: [(true, false, nil)], unless
      [maybePatchSignalInfo] reports that it patched the signal-info, in
      which case the event is returned as a signal, [(false, false, nil)];
    - SyscallCanBePatched: the type in the Message is rewritten to Syscall
      and the result is [(true, true, nil)], with the same exception;
    - Fault: [(false, false, nil)];
    - any other value: a panic. *)
Theorem switchToApp_classifies s c ac σ st σg m sc :
  getSysmsgThread s c ac σ = (Ret (inl st), σg) →
  fst (arm c ac st σg) = true →
  script σg = RMsg m :: sc →
  fpu_refresh_ok m = true →
  Err m = 0 →
  let σ1 := snd (arm c ac st σg) in
  let patched :=
    fst (fst (maybePatchSignalInfo (regs_after_roundtrip ac st σ1 m)
                (MsgSignalInfo m))) in
  fst (switchToApp s c ac σ) = classification (Type_ m) patched ∧
  (Type_ m = EventTypeSyscallCanBePatched →
   Type_ (msg (sysThreads (snd (switchToApp s c ac σ)) st)) = EventTypeSyscall).
Proof.
  intros Hg Hok Hs Hfpu Herr σ1 patched.
  rewrite switchToApp_eq, Hg. cbv zeta. rewrite Hok. fold σ1.
  destruct (arm_os c ac st σg) as [Hsc _]. fold σ1 in Hsc. rewrite Hs in Hsc.
  destruct (switchToApp_enter_checked c ac st σ1 m sc Hsc Hfpu)
    as (σ3 & He & Hm & Ht & Ha).
  unfold modify_ctx. rewrite defer_modify, He, Herr. cbn [Z.eqb negb].
  pose proof (classify_outcome c ac st σ3) as Hc. cbv zeta in Hc.
  rewrite Hm, Ht, Ha in Hc. cbn [acRegs] in Hc.
  fold (regs_after_roundtrip ac st σ1 m) in Hc. fold patched in Hc.
  destruct Hc as [Hout Hty].
  destruct (classify c ac st σ3) as [o σ4]. cbn [fst snd] in *.
  split.
  - rewrite <- Hout. by destruct o.
  - intros HT. specialize (Hty HT). by destruct o.
Qed.

(* With a usable FPU-state offset, an in-band error code makes switchToApp
   panic. *)
Lemma switchToApp_stub_error_panics s c ac σ st σg m sc :
  getSysmsgThread s c ac σ = (Ret (inl st), σg) →
  fst (arm c ac st σg) = true →
  script σg = RMsg m :: sc →
  fpu_refresh_ok m = true →
  Err m ≠ 0 →
  fst (switchToApp s c ac σ) =
    Panic (PanicStubThread (tid (sthread (sysThreads (snd (arm c ac st σg)) st)))
             (Err m) (Line m)).
Proof.
  intros Hg Hok Hs Hfpu Herr.
  rewrite switchToApp_eq, Hg. cbv zeta. rewrite Hok.
  destruct (arm_os c ac st σg) as [Hsc _]. rewrite Hs in Hsc.
  destruct (switchToApp_enter_checked c ac st _ m sc Hsc Hfpu) as (σ3 & He & _).
  unfold modify_ctx. rewrite defer_modify, He.
  apply Z.eqb_neq in Herr. rewrite Herr. reflexivity.
Qed.

(* During the initialization of a sysmsg thread, an in-band error code makes
   getSysmsgThread panic. *)
Lemma startSysmsgThread_stub_error_panics c st σ m sc :
  script σ = RMsg m :: sc →
  Err m ≠ 0 →
  fst (startSysmsgThread c st σ) = Panic (PanicStubInit (Err m) (Line m)).
Proof.
  intros Hs Herr. unfold startSysmsgThread, waitEvent, get_sysThread, get_msg,
    modify_msg, modify_sysThread. mred. rewrite Hs. mred.
  rewrite fn_lookup_insert. simpl.
  apply Z.eqb_neq in Herr. rewrite Herr. reflexivity.
Qed.

Lemma getSysmsgThread_stub_error_panics s c ac σ st σ1 m sc :
  sysmsgThread_ (ctxs σ c) = None →
  createSysmsgThread s ac σ = (Ret st, σ1) →
  script σ1 = RMsg m :: sc →
  Err m ≠ 0 →
  fst (getSysmsgThread s c ac σ) = Panic (PanicStubInit (Err m) (Line m)).
Proof.
  intros Hnone Hc Hs Herr. unfold getSysmsgThread. mred. rewrite Hnone. mred.
  unfold newSysmsgThread. rewrite bind_unfold, Hc.
  eapply startSysmsgThread_stub_error_panics; eassumption.
Qed.

(* An unusable FPU-state offset makes switchToApp return the error of
   [FPUStateOffset] before it looks at the in-band error code, whatever that
   code is. *)
Lemma switchToApp_fpu_error_returned s c ac σ st σg m sc e :
  getSysmsgThread s c ac σ = (Ret (inl st), σg) →
  fst (arm c ac st σg) = true →
  script σg = RMsg m :: sc →
  Type_ m ≠ EventTypeSyscallTrap →
  snd (FPUStateOffset m) = Some e →
  fst (switchToApp s c ac σ) = Ret (false, false, Some e).
Proof.
  intros Hg Hok Hs Hty Hfpu.
  rewrite switchToApp_eq, Hg. cbv zeta. rewrite Hok.
  destruct (arm_os c ac st σg) as [Hsc _]. rewrite Hs in Hsc.
  destruct (roundtrip_done ac st _ m sc Hsc) as (σ2 & Hr & Hm & _).
  unfold modify_ctx. rewrite defer_modify.
  unfold switchToApp_enter. rewrite bind_unfold, Hr, bind_unfold.
  rewrite refreshFPUStateOffset_eq. cbv zeta. rewrite Hm.
  rewrite bool_decide_eq_false_2 by done. rewrite Hfpu. reflexivity.
Qed.

(** ** thread.wait: retries and results *)

Lemma set_os_same (σ : state) : set_os (script σ) (log σ) σ = σ.
Proof. by destruct σ. Qed.

Lemma replicate_snoc_cons {A} n (x : A) l :
  replicate n x ++ x :: l = x :: replicate n x ++ l.
Proof. induction n as [|n IH]; simpl; [done|]. by rewrite IH. Qed.

Lemma wait_skip t outcome σ r sc :
  script σ = r :: sc →
  wait_skipped t outcome r = true →
  wait t outcome σ =
    wait t outcome (set_os sc (CWait4 (tid t) (Z.lor WALL WUNTRACED) :: log σ) σ).
Proof.
  intros Hs Hr. destruct r as [| |r0 status err| | | | | | | |]; try discriminate.
  cbn [wait_skipped] in Hr.
  unfold wait at 1. rewrite wait_loop_S. unfold Wait4. mred. rewrite Hs. mred.
  destruct (bool_decide (err = Some EINTR) || bool_decide (err = Some EAGAIN));
    [reflexivity|].
  cbn [orb] in Hr. rewrite !andb_true_iff in Hr.
  destruct Hr as [[[[He Hr0] Ho] Hst] Hsig].
  apply bool_decide_eq_true in He. subst err.
  rewrite Hr0, Ho, Hst. mred. rewrite Hsig. reflexivity.
Qed.

(** X1.  [wait] waits again, consuming one wait4 answer each time, as long
    as wait4 is interrupted (EINTR, EAGAIN) or, when waiting for a stop,
    reports a stop of the thread without a signal: the call behaves as it
    does on the first answer that is neither, and each skipped answer has
    cost exactly one wait4 call. *)
Theorem wait_skips_interruptions t outcome pre :
  ∀ σ sc,
    script σ = pre ++ sc →
    Forall (λ r, wait_skipped t outcome r = true) pre →
    wait t outcome σ =
      wait t outcome
        (set_os sc (replicate (length pre) (CWait4 (tid t) (Z.lor WALL WUNTRACED))
                    ++ log σ) σ).
Proof.
  induction pre as [|r pre IH]; intros σ sc Hs Hall.
  - simpl in *. subst sc. by rewrite set_os_same.
  - apply Forall_cons in Hall as [Hr Hall].
    rewrite (wait_skip t outcome σ r (pre ++ sc) Hs Hr).
    rewrite (IH (set_os (pre ++ sc) (CWait4 (tid t) (Z.lor WALL WUNTRACED) :: log σ) σ)
               sc eq_refl Hall).
    cbn [length replicate log set_os app].
    by rewrite replicate_snoc_cons.
Qed.

Lemma StopSignal_range status :
  WaitStatus.Stopped status = true → 0 ≤ WaitStatus.StopSignal status < 256.
Proof.
  intros H. unfold WaitStatus.StopSignal. rewrite H. cbn [negb].
  change 255 with (Z.ones 8). rewrite Z.land_ones by lia.
  apply Z.mod_pos_bound. lia.
Qed.

Lemma lor_shiftl8_low sig c :
  0 ≤ sig < 256 → Z.land (Z.lor sig (Z.shiftl c 8)) 255 = sig.
Proof.
  intros H. rewrite Z.land_lor_distr_l. change 255 with (Z.ones 8).
  rewrite !Z.land_ones by lia. rewrite Z.shiftl_mul_pow2 by lia.
  rewrite Z_mod_mult, Z.lor_0_r. apply Z.mod_small. lia.
Qed.

Lemma lor_shiftl8_high sig c :
  0 ≤ sig < 256 → Z.shiftr (Z.lor sig (Z.shiftl c 8)) 8 = c.
Proof.
  intros H. rewrite Z.shiftr_lor, Z.shiftr_shiftl_l by lia.
  rewrite Z.shiftr_div_pow2 by lia. rewrite Z.div_small by lia.
  by rewrite Z.lor_0_l, Z.sub_diag, Z.shiftl_0_r.
Qed.

(* [wait(stopped)] on a stop with a signal, other than the exit of the
   thread. *)
Lemma wait_stopped_eq t σ status sc :
  script σ = RWait4 (tid t) status None :: sc →
  WaitStatus.Stopped status = true →
  WaitStatus.StopSignal status ≠ 0 →
  WaitStatus.TrapCause status ≠ PTRACE_EVENT_EXIT →
  wait t stopped σ =
    (Ret (if WaitStatus.StopSignal status =? SIGTRAP
          then Z.lor SIGTRAP (Z.shiftl (WaitStatus.TrapCause status) 8)
          else WaitStatus.StopSignal status),
     set_os sc (CWait4 (tid t) (Z.lor WALL WUNTRACED) :: log σ) σ).
Proof.
  intros Hs Hst Hsig Hcause.
  unfold wait. rewrite wait_loop_S. unfold Wait4. mred. rewrite Hs. mred.
  rewrite Z.eqb_refl, Hst. mred.
  apply Z.eqb_neq in Hsig, Hcause. rewrite Hsig.
  destruct (WaitStatus.StopSignal status =? SIGTRAP) eqn:Htrap; [|reflexivity].
  rewrite Hcause. mred. apply Z.eqb_eq in Htrap. by rewrite Htrap.
Qed.

(** X2.  When wait4 reports that the thread was stopped by a signal, and the
    stop is not the thread's exit, [wait(stopped)] returns after that one
    call.  The value returned is the stop signal itself for every signal but
    SIGTRAP; for SIGTRAP it is SIGTRAP with the trap cause in the bits above
    the low byte.  So the low byte of the result is always the stop signal,
    the trap cause can be read back from the rest, and the result is plain
    SIGTRAP exactly when the stop was a SIGTRAP with no ptrace event. *)
Theorem wait_stopped_result t σ status sc :
  script σ = RWait4 (tid t) status None :: sc →
  WaitStatus.Stopped status = true →
  WaitStatus.StopSignal status ≠ 0 →
  WaitStatus.TrapCause status ≠ PTRACE_EVENT_EXIT →
  ∃ sig,
    wait t stopped σ =
      (Ret sig, set_os sc (CWait4 (tid t) (Z.lor WALL WUNTRACED) :: log σ) σ) ∧
    Z.land sig 255 = WaitStatus.StopSignal status ∧
    (WaitStatus.StopSignal status ≠ SIGTRAP → sig = WaitStatus.StopSignal status) ∧
    (WaitStatus.StopSignal status = SIGTRAP →
     Z.shiftr sig 8 = WaitStatus.TrapCause status) ∧
    (sig = SIGTRAP ↔
     WaitStatus.StopSignal status = SIGTRAP ∧ WaitStatus.TrapCause status = 0).
Proof.
  intros Hs Hst Hsig Hcause.
  rewrite (wait_stopped_eq t σ status sc Hs Hst Hsig Hcause).
  eexists. split; [reflexivity|].
  pose proof (StopSignal_range status Hst) as Hr.
  destruct (WaitStatus.StopSignal status =? SIGTRAP) eqn:Htrap.
  - apply Z.eqb_eq in Htrap.
    assert (0 ≤ SIGTRAP < 256) as H5 by (unfold SIGTRAP; lia).
    split_and!.
    + rewrite Htrap. by apply lor_shiftl8_low.
    + done.
    + intros _. by apply lor_shiftl8_high.
    + split.
      * intros H. split; [done|].
        rewrite <- (lor_shiftl8_high SIGTRAP (WaitStatus.TrapCause status) H5).
        rewrite H. reflexivity.
      * intros [_ ->]. reflexivity.
  - apply Z.eqb_neq in Htrap. split_and!.
    + change 255 with (Z.ones 8). rewrite Z.land_ones by lia.
      apply Z.mod_small. lia.
    + done.
    + done.
    + split; [done|]. intros [? _]. done.
Qed.

(** X3.  What [wait(killed)] returns is decided by the wait status of the
    one wait4 call: the exit code, between 0 and 255, when the thread
    exited; -1 when it was killed by a signal, since the exit status of a
    status that is not an exit is -1; and for any other status, such as a
    stop, [wait] panics with the register dump. *)
Theorem wait_killed_result t σ status sc :
  script σ = RWait4 (tid t) status None :: sc →
  let σ1 := set_os sc (CWait4 (tid t) (Z.lor WALL WUNTRACED) :: log σ) σ in
  (WaitStatus.Exited status = true →
   wait t killed σ = (Ret (Z.land (Z.shiftr status 8) 255), σ1) ∧
   0 ≤ Z.land (Z.shiftr status 8) 255 < 256) ∧
  (WaitStatus.Signaled status = true → wait t killed σ = (Ret (-1), σ1)) ∧
  (WaitStatus.Exited status = false → WaitStatus.Signaled status = false →
   (∀ code, fst (wait t killed σ) ≠ Ret code) ∧
   ∀ regs sc', sc = RRegs regs None :: sc' →
     wait t killed σ =
       (Panic (PanicDump (DumpNotExited status) (Some (dumpRegs regs)) stubStart),
        set_os sc' (CGetRegs (tid t) :: log σ1) σ)).
Proof.
  intros Hs σ1.
  assert (wait t killed σ =
    ((if negb (WaitStatus.Exited status) && negb (WaitStatus.Signaled status)
      then dumpAndPanic t (DumpNotExited status) else mret tt);;
     mret (WaitStatus.ExitStatus status)) σ1) as ->.
  { unfold wait. rewrite wait_loop_S. unfold Wait4. mred. rewrite Hs. mred.
    rewrite Z.eqb_refl. reflexivity. }
  split_and!.
  - intros He. unfold WaitStatus.ExitStatus. rewrite He. split; [reflexivity|].
    change 255 with (Z.ones 8). rewrite Z.land_ones by lia.
    apply Z.mod_pos_bound. lia.
  - intros Hk. rewrite Hk, andb_false_r.
    unfold WaitStatus.ExitStatus.
    assert (WaitStatus.Exited status = false) as ->; [|reflexivity].
    unfold WaitStatus.Signaled, WaitStatus.Exited in *.
    apply andb_true_iff in Hk as [_ Hk]. by apply negb_true_iff in Hk.
  - intros He Hk. rewrite He, Hk. cbn [negb andb]. split.
    + intros code. apply bind_never_returns. intros u.
      apply dumpAndPanic_never_returns.
    + intros regs sc' ->. rewrite bind_unfold.
      erewrite dumpAndPanic_regs by reflexivity. reflexivity.
Qed.

Ltac never_returns :=
  match goal with
  | |- context [dumpAndPanic ?t ?m ?s] =>
      let Hd := fresh "Hd" in
      pose proof (dumpAndPanic_never_returns t m s) as Hd;
      destruct (dumpAndPanic t m s) as [[[]| | |] ?]; simpl in *;
      try discriminate; try (exfalso; by eapply Hd)
  | |- context [unexpectedStubExit ?t ?s] =>
      let Hd := fresh "Hd" in
      pose proof (unexpectedStubExit_never_returns t s) as Hd;
      destruct (unexpectedStubExit t s) as [[[]| | |] ?]; simpl in *;
      try discriminate; try (exfalso; by eapply Hd)
  end.

(* A [wait] that returns has made wait4 calls and nothing else. *)
Lemma wait_loop_returns fuel t outcome :
  ∀ σ sig σ',
    wait_loop fuel t outcome σ = (Ret sig, σ') →
    ∃ n, log σ' =
           replicate (S n) (CWait4 (tid t) (Z.lor WALL WUNTRACED)) ++ log σ.
Proof.
  induction fuel as [|fuel IH]; intros σ sig σ'; [discriminate|].
  rewrite wait_loop_S. unfold Wait4. mred.
  destruct (script σ) as [|r sc] eqn:E; mred; [discriminate|].
  assert (∀ σ1 : state,
    log σ1 = CWait4 (tid t) (Z.lor WALL WUNTRACED) :: log σ →
    wait_loop fuel t outcome σ1 = (Ret sig, σ') →
    ∃ n, log σ' =
           replicate (S n) (CWait4 (tid t) (Z.lor WALL WUNTRACED)) ++ log σ)
    as Hrec.
  { intros σ1 Hl H. apply IH in H as [n Hn]. exists (S n).
    rewrite Hn, Hl. cbn [replicate app]. by rewrite replicate_snoc_cons. }
  destruct r; mred; try discriminate.
  destruct (bool_decide _ || bool_decide _); [by apply Hrec|].
  destruct err; [discriminate|].
  destruct (negb (r =? tid t)); [discriminate|].
  destruct (outcome =? stopped).
  - destruct (negb (WaitStatus.Stopped status)); mred; [never_returns|].
    destruct (_ =? 0); [by apply Hrec|].
    destruct (_ =? SIGTRAP); mred.
    + destruct (_ =? PTRACE_EVENT_EXIT); mred; [never_returns|].
      intros [= <- <-]. by exists O.
    + intros [= <- <-]. by exists O.
  - destruct (outcome =? killed).
    + destruct (negb _ && negb _); mred; [never_returns|].
      intros [= <- <-]. by exists O.
    + mred. never_returns.
Qed.

Lemma wait_returns t outcome σ sig σ' :
  wait t outcome σ = (Ret sig, σ') →
  ∃ n, log σ' =
         replicate (S n) (CWait4 (tid t) (Z.lor WALL WUNTRACED)) ++ log σ.
Proof. apply wait_loop_returns. Qed.

Lemma ptrace_Ret_inv c σ errno σ' :
  ptrace c σ = (Ret errno, σ') →
  ∃ sc, script σ = RErrno errno :: sc ∧ σ' = set_os sc (c :: log σ) σ.
Proof.
  unfold ptrace. mred. destruct (script σ) as [|[] sc]; mred; try discriminate.
  intros [= <- <-]. eauto.
Qed.

(** ** attach, newThread and destroy *)

(** X4.  A thread returned by [newThread] is attached and configured: the
    calls made since the request are, in order, PTRACE_ATTACH on that
    thread, one or more wait4 calls on it, and PTRACE_SETOPTIONS on it with
    TRACESYSGOOD, TRACEEXIT and EXITKILL set.  When PTRACE_ATTACH fails,
    [newThread] panics without waiting. *)
Theorem newThread_attached s σ :
  (∀ t σ',
     newThread s σ = (Ret t, σ') →
     ∃ n options,
       log σ' =
         CPtraceSetOptions (tid t) options ::
         replicate (S n) (CWait4 (tid t) (Z.lor WALL WUNTRACED)) ++
         CPtraceAttach (tid t) :: CRequestThread s :: log σ ∧
       Z.land options PTRACE_O_TRACESYSGOOD = PTRACE_O_TRACESYSGOOD ∧
       Z.land options PTRACE_O_TRACEEXIT = PTRACE_O_TRACEEXIT ∧
       Z.land options PTRACE_O_EXITKILL = PTRACE_O_EXITKILL) ∧
  (∀ t errno sc,
     script σ = RThread t :: RErrno errno :: sc → errno ≠ 0 →
     newThread s σ =
       (Panic (PanicAttach errno),
        set_os sc (CPtraceAttach (tid t) :: CRequestThread s :: log σ) σ)).
Proof.
  split.
  - intros t σ'. unfold newThread. rewrite bind_unfold. unfold oscall.
    destruct (script σ) as [|r sc] eqn:Hs; [discriminate|].
    destruct r as [| | | | | |p| | | |]; try discriminate.
    intros H. apply bind_Ret_inv in H as ([] & σ3 & Ha & [= <- <-]).
    unfold attach in Ha.
    apply bind_Ret_inv in Ha as (errno & σ1 & Hp & Ha).
    apply ptrace_Ret_inv in Hp as (sc1 & _ & ->).
    destruct (negb (errno =? 0)); [discriminate|].
    apply bind_Ret_inv in Ha as (sig & σ2 & Hw & Ha).
    apply wait_returns in Hw as [n Hn].
    destruct (negb (sig =? SIGSTOP)); [discriminate|].
    unfold thread_init in Ha.
    apply bind_Ret_inv in Ha as (errno' & σ4 & Hp & Ha).
    apply ptrace_Ret_inv in Hp as (sc2 & _ & ->).
    destruct (negb (errno' =? 0)); [discriminate|].
    injection Ha as <-. exists n. eexists. split.
    + cbn [log set_os]. rewrite Hn. reflexivity.
    + done.
  - intros t errno sc Hs Hne. unfold newThread, attach, ptrace. mred.
    rewrite Hs. mred. apply Z.eqb_neq in Hne. rewrite Hne. reflexivity.
Qed.

(** X5.  [destroy] detaches, sends SIGKILL to the thread and reaps it:
    - when PTRACE_DETACH fails it panics, and no signal has been sent;
    - the error value of the kill is dropped: whatever it is, [destroy]
      returns as soon as wait4 reports that the thread exited or was killed;
    - whenever it returns, the calls it made are the detach, the kill and
      then one or more wait4 calls, in this order. *)
Theorem destroy_kills_and_reaps t σ :
  (∀ errno sc,
     script σ = RErrno errno :: sc → errno ≠ 0 →
     destroy t σ =
       (Panic (PanicDetach errno),
        set_os sc (CPtraceDetach (tid t) SIGSTOP :: log σ) σ)) ∧
  (∀ e status sc,
     script σ = RErrno 0 :: RErr e :: RWait4 (tid t) status None :: sc →
     WaitStatus.Exited status || WaitStatus.Signaled status = true →
     destroy t σ =
       (Ret tt,
        set_os sc (CWait4 (tid t) (Z.lor WALL WUNTRACED) ::
                   CTgkill (tgid t) (tid t) SIGKILL ::
                   CPtraceDetach (tid t) SIGSTOP :: log σ) σ)) ∧
  (∀ σ',
     destroy t σ = (Ret tt, σ') →
     ∃ n, log σ' =
            replicate (S n) (CWait4 (tid t) (Z.lor WALL WUNTRACED)) ++
            CTgkill (tgid t) (tid t) SIGKILL ::
            CPtraceDetach (tid t) SIGSTOP :: log σ).
Proof.
  split_and!.
  - intros errno sc Hs Hne. unfold destroy, detach, ptrace. mred.
    rewrite Hs. mred. apply Z.eqb_neq in Hne. rewrite Hne. reflexivity.
  - intros e status sc Hs Hst. unfold destroy, detach, ptrace, Tgkill. mred.
    rewrite Hs. mred.
    unfold wait. rewrite wait_loop_S. unfold Wait4. mred.
    rewrite Z.eqb_refl. mred.
    apply orb_true_iff in Hst.
    assert (negb (WaitStatus.Exited status) && negb (WaitStatus.Signaled status)
            = false) as ->.
    { apply andb_false_iff. rewrite !negb_false_iff. done. }
    reflexivity.
  - intros σ'. unfold destroy. intros H.
    apply bind_Ret_inv in H as ([] & σ1 & Hd & H).
    unfold detach in Hd. apply bind_Ret_inv in Hd as (errno & σ0 & Hp & Hd).
    apply ptrace_Ret_inv in Hp as (sc & _ & ->).
    destruct (negb (errno =? 0)); [discriminate|]. injection Hd as <-.
    apply bind_Ret_inv in H as (e & σ2 & Hk & H).
    assert (log σ2 = CTgkill (tgid t) (tid t) SIGKILL ::
                     CPtraceDetach (tid t) SIGSTOP :: log σ) as Hl2.
    { revert Hk. unfold Tgkill. mred.
      destruct sc as [|[] sc]; mred; try discriminate.
      by intros [= <- <-]. }
    apply bind_Ret_inv in H as (code & σ3 & Hw & [= <-]).
    apply wait_returns in Hw as [n Hn]. exists n. by rewrite Hn, Hl2.
Qed.

(** ** thread.syscall *)

Lemma signal_stop_spec status :
  signal_stop status = true →
  WaitStatus.Stopped status = true ∧ WaitStatus.StopSignal status ≠ 0 ∧
  WaitStatus.StopSignal status ≠ SIGTRAP ∧
  WaitStatus.TrapCause status ≠ PTRACE_EVENT_EXIT.
Proof.
  unfold signal_stop. rewrite !andb_true_iff, !negb_true_iff, !Z.eqb_neq.
  intros [[H1 H2] H3]. split_and!; try done.
  unfold WaitStatus.TrapCause. apply Z.eqb_neq in H3. by rewrite H3.
Qed.

Lemma trap_stop_spec status :
  trap_stop status = true →
  WaitStatus.Stopped status = true ∧ WaitStatus.StopSignal status = SIGTRAP ∧
  WaitStatus.TrapCause status = 0.
Proof.
  unfold trap_stop. rewrite !andb_true_iff, !Z.eqb_eq. tauto.
Qed.

Lemma syscall_loop_resumes t ws :
  ∀ σ fuel trap sc,
    script σ = stops t ws ++ RErrno 0 :: RWait4 (tid t) trap None :: sc →
    Forall (λ w, signal_stop w = true) ws →
    trap_stop trap = true →
    (length (script σ) < fuel)%nat →
    syscall_loop fuel t σ =
      (Ret tt,
       set_os sc (CWait4 (tid t) (Z.lor WALL WUNTRACED) :: CPtraceCont (tid t) ::
                  resumptions t ws ++ log σ) σ).
Proof.
  induction ws as [|w ws IH]; intros σ [|fuel] trap sc Hs Hall Htrap Hfuel;
    try lia; cbn [stops app] in Hs; rewrite syscall_loop_S, bind_unfold.
  - assert (ptrace (CPtraceCont (tid t)) σ =
            (Ret 0, set_os (RWait4 (tid t) trap None :: sc)
                      (CPtraceCont (tid t) :: log σ) σ)) as ->.
    { unfold ptrace. mred. rewrite Hs. reflexivity. }
    cbn [negb Z.eqb]. rewrite bind_unfold.
    apply trap_stop_spec in Htrap as (H1 & H2 & H3).
    erewrite wait_stopped_eq; [|reflexivity|done|rewrite H2; done|rewrite H3; done].
    rewrite H2, H3. reflexivity.
  - apply Forall_cons in Hall as [Hw Hall].
    assert (ptrace (CPtraceCont (tid t)) σ =
            (Ret 0, set_os (RWait4 (tid t) w None ::
                           stops t ws ++ RErrno 0 :: RWait4 (tid t) trap None :: sc)
                      (CPtraceCont (tid t) :: log σ) σ)) as ->.
    { unfold ptrace. mred. rewrite Hs. reflexivity. }
    cbn [negb Z.eqb]. rewrite bind_unfold.
    apply signal_stop_spec in Hw as (H1 & H2 & H3 & H4).
    erewrite wait_stopped_eq; [|reflexivity|done..].
    apply Z.eqb_neq in H3. rewrite H3.
    rewrite Hs in Hfuel. cbn [length] in Hfuel.
    unfold resumed. cbn [resumptions]. unfold resumed.
    destruct (negb _ && negb _); mred; rewrite H3.
    + erewrite IH; [|reflexivity|done|done|simpl; lia].
      cbn [log set_os]. by rewrite <- !app_assoc.
    + erewrite IH; [|reflexivity|done|done|simpl; lia].
      cbn [log set_os]. by rewrite <- !app_assoc.
Qed.

(** X6.  A system call injected with [thread.syscall] survives any number
    of stops of the traced thread by a signal other than SIGTRAP: after
    each of them the thread is resumed with PTRACE_CONT, a warning being
    logged unless the signal is SIGSTOP or SIGCHLD, and the call returns at
    the first plain SIGTRAP stop, with the return value decoded from the
    registers read at that stop.  The registers are set once, before the
    first PTRACE_CONT, and read once, after the SIGTRAP. *)
Theorem thread_syscall_resumes_until_trap t regs σ ws trap regs' sc :
  script σ = RErr None :: stops t ws ++
             RErrno 0 :: RWait4 (tid t) trap None :: RRegs regs' None :: sc →
  Forall (λ w, signal_stop w = true) ws →
  trap_stop trap = true →
  thread_syscall t regs σ =
    (Ret (syscallReturnValue regs'),
     set_os sc (CGetRegs (tid t) :: CWait4 (tid t) (Z.lor WALL WUNTRACED) ::
                CPtraceCont (tid t) :: resumptions t ws ++
                CSetRegs (tid t) regs :: log σ) σ).
Proof.
  intros Hs Hall Htrap. unfold thread_syscall. rewrite bind_unfold.
  assert (setRegs t regs σ =
          (Ret None,
           set_os (stops t ws ++ RErrno 0 :: RWait4 (tid t) trap None ::
                   RRegs regs' None :: sc) (CSetRegs (tid t) regs :: log σ) σ)) as ->.
  { unfold setRegs. mred. rewrite Hs. reflexivity. }
  rewrite bind_unfold.
  erewrite syscall_loop_resumes; [|reflexivity|done|done|simpl; lia].
  unfold getRegs. mred. reflexivity.
Qed.

(** ** What a run leaves alone *)

#[local] Hint Extern 0 (OsBlind _) => (intros ? ? ?; reflexivity) : typeclass_instances.

#[local] Instance frame_keeps {B} (f : state → B) `{!OsBlind f} : Frame (keeps f).
Proof.
  split; unfold keeps.
  - done.
  - intros σ1 σ2 σ3 H1 H2. congruence.
  - intros σ c sc. apply os_blind.
Qed.

#[local] Instance frame_extends : Frame extends.
Proof.
  split; unfold extends.
  - intros σ. by exists [].
  - intros σ1 σ2 σ3 [n1 H1] [n2 H2]. exists (n2 ++ n1).
    by rewrite H2, H1, app_assoc.
  - intros σ c sc. by exists [c].
Qed.

Section Steps.
Context (R : relation state) `{!Frame R}.

Lemma steps_bind {A B} (m : M A) (k : A → M B) :
  steps R m → (∀ a, steps R (k a)) → steps R (m ≫= k).
Proof.
  intros Hm Hk σ o σ'. rewrite bind_unfold.
  destruct (m σ) as [[a| | |] σ1] eqn:E; intros H;
    try (injection H as <- <-; eapply Hm; eassumption).
  eapply frame_trans; [eapply Hm|eapply Hk]; eassumption.
Qed.

Lemma steps_ret {A} (a : A) : steps R (mret a).
Proof. intros σ o σ' [= <- <-]. apply frame_refl. Qed.

Lemma steps_panic {A} p : steps R (@do_panic _ A p).
Proof. intros σ o σ' [= <- <-]. apply frame_refl. Qed.

Lemma steps_stuck {A} : steps R (@stuck _ A).
Proof. intros σ o σ' [= <- <-]. apply frame_refl. Qed.

Lemma steps_terminated {A} sig : steps R (@terminated _ A sig).
Proof. intros σ o σ' [= <- <-]. apply frame_refl. Qed.

Lemma steps_gets {A} (g : state → A) : steps R (gets g).
Proof. intros σ o σ' [= <- <-]. apply frame_refl. Qed.

Lemma steps_notify c : steps R (notify c).
Proof. intros σ o σ' [= <- <-]. apply frame_os. Qed.

Lemma steps_oscall c : steps R (oscall c).
Proof.
  intros σ o σ'. unfold oscall.
  destruct (script σ); intros [= <- <-]; apply frame_os.
Qed.

Lemma steps_modify (g : state → state) :
  (∀ σ, R σ (g σ)) → steps R (modify g).
Proof. intros Hg σ o σ' [= <- <-]. apply Hg. Qed.

Lemma steps_new_sysThread th :
  (∀ σ, R σ (snd (new_sysThread th σ))) → steps R (new_sysThread th).
Proof. intros Hg σ o σ' [= <- <-]. apply Hg. Qed.

Lemma steps_defer {A} (d : M unit) (body : M A) :
  steps R d → steps R body → steps R (defer d body).
Proof.
  intros Hd Hb σ o σ'. unfold defer.
  destruct (body σ) as [[a| | |] σ1] eqn:E; intros H;
    try (injection H as <- <-; eapply Hb; eassumption).
  - eapply frame_trans; [eapply Hb; eassumption|]. revert H.
    apply (steps_bind d (λ _, mret a)); [done|]. intros _. apply steps_ret.
  - eapply frame_trans; [eapply Hb; eassumption|]. revert H.
    apply (steps_bind d (λ _, do_panic p)); [done|]. intros _. apply steps_panic.
Qed.
End Steps.

Ltac steps_mod :=
  intros; unfold keeps, extends; simpl; rewrite ?fn_lookup_insert;
  first [reflexivity | by exists []].

Ltac steps_unfold :=
  unfold attach, thread_init, detach, ptrace, setRegs, getRegs, RawTgkill,
    Tgkill, Wait4, getEventMessage, dumpAndPanic, unexpectedStubExit, mapStack,
    mapPrivateStack, waitEvent, sysmsgThread_destroy, get_sysThread, get_msg,
    get_regs, put_regs, modify_msg, modify_sysThread, modify_ctx, modify_subproc,
    subprocess_syscall.

Ltac steps_with tac :=
  steps_unfold;
  repeat match goal with
  | |- steps ?R _ => first
    [ apply (steps_ret R) | apply (steps_panic R) | apply (steps_stuck R)
    | apply (steps_terminated R) | apply (steps_gets R) | apply (steps_oscall R)
    | apply (steps_notify R)
    | tac
    | apply (steps_modify R); steps_mod
    | apply (steps_new_sysThread R); steps_mod
    | apply (steps_bind R); [|intros ?]
    | match goal with
      | |- steps _ (match ?x with _ => _ end) => destruct x
      | |- steps _ (let '(_, _) := ?x in _) => destruct x
      | |- steps _ (let _ := _ in _) => cbv zeta
      end ]
  end.

Lemma steps_wait_loop R `{!Frame R} fuel t outcome :
  steps R (wait_loop fuel t outcome).
Proof.
  induction fuel as [|fuel IH]; [apply (steps_stuck R)|].
  rewrite wait_loop_S. steps_with ltac:(apply IH).
Qed.

Lemma steps_wait R `{!Frame R} t outcome : steps R (wait t outcome).
Proof. intros σ o σ'. unfold wait. by apply steps_wait_loop. Qed.

Lemma steps_syscall_loop R `{!Frame R} fuel t : steps R (syscall_loop fuel t).
Proof.
  induction fuel as [|fuel IH]; [apply (steps_stuck R)|].
  rewrite syscall_loop_S.
  steps_with ltac:(first [apply IH | apply (steps_wait R)]).
Qed.

Lemma steps_thread_syscall R `{!Frame R} t regs : steps R (thread_syscall t regs).
Proof.
  unfold thread_syscall.
  steps_with ltac:(intros σ o σ'; by apply steps_syscall_loop).
Qed.

Lemma steps_syscallIgnoreInterrupt R `{!Frame R} t initRegs sysno args :
  steps R (syscallIgnoreInterrupt t initRegs sysno args).
Proof.
  assert (∀ fuel, steps R (syscallIgnoreInterrupt_loop fuel t initRegs sysno args))
    as H.
  { induction fuel as [|fuel IH]; [apply (steps_stuck R)|].
    intros σ o σ'. rewrite syscallIgnoreInterrupt_loop_S. unfold cycle.
    revert σ o σ'.
    match goal with |- ∀ σ o σ', ?m σ = (o, σ') → _ => change (steps R m) end.
    steps_with ltac:(first [apply IH | apply (steps_thread_syscall R)]). }
  intros σ o σ'. apply H.
Qed.

Ltac steps :=
  steps_with ltac:(idtac; match goal with
                   | |- steps ?R _ =>
                       first [ apply (steps_wait R) | apply (steps_thread_syscall R)
                             | apply (steps_syscallIgnoreInterrupt R) ]
                   end).

Lemma post_bind {A B} (Q : B → state → Prop) (m : M A) (k : A → M B) :
  (∀ a, post Q (k a)) → post Q (m ≫= k).
Proof.
  intros Hk σ b σ' H. apply bind_Ret_inv in H as (a & σ1 & _ & H).
  by eapply Hk.
Qed.

Lemma post_ret {A} (Q : A → state → Prop) a : (∀ σ, Q a σ) → post Q (mret a).
Proof. intros H σ b σ' [= <- <-]. apply H. Qed.

Lemma post_panic {A} (Q : A → state → Prop) p : post Q (do_panic p).
Proof. intros σ b σ'. discriminate. Qed.

Lemma post_stuck {A} (Q : A → state → Prop) : post Q stuck.
Proof. intros σ b σ'. discriminate. Qed.

Lemma post_alloc {A} (Q : A → state → Prop) th (k : nat → M A) :
  (∀ σ a σ', k (nextSysThread σ) (snd (new_sysThread th σ)) = (Ret a, σ') → Q a σ') →
  post Q (new_sysThread th ≫= k).
Proof.
  intros H σ a σ' Hk. apply bind_Ret_inv in Hk as (st & σ1 & [= <- <-] & Hk).
  eapply H. exact Hk.
Qed.

Ltac post_with tac :=
  repeat first
    [ apply post_panic | apply post_stuck
    | tac
    | apply post_bind; intros ?
    | match goal with
      | |- post _ (match ?x with _ => _ end) => destruct x
      | |- post _ (let '(_, _) := ?x in _) => destruct x
      | |- post _ (let _ := _ in _) => cbv zeta
      end ].

(** ** getSysmsgThread *)

Lemma createSysmsgThread_ctxs s ac :
  steps (keeps (λ σ, ctxs σ)) (createSysmsgThread s ac).
Proof. unfold createSysmsgThread. steps. Qed.

Lemma createSysmsgThread_log s ac : steps extends (createSysmsgThread s ac).
Proof. unfold createSysmsgThread. steps. Qed.

(* The thread that [createSysmsgThread] returns belongs to [s]. *)
Lemma createSysmsgThread_subproc s ac :
  post (λ st σ', subproc (sysThreads σ' st) = s) (createSysmsgThread s ac).
Proof.
  unfold createSysmsgThread. post_with ltac:(apply post_alloc).
  intros σ res σ' Hk. cbv beta in Hk.
  match type of Hk with ?m _ = _ =>
    assert (post (λ x _, x = nextSysThread σ) m) as Hv
      by (post_with ltac:(apply post_ret; reflexivity));
    assert (steps (keeps (λ σ', subproc (sysThreads σ' (nextSysThread σ)))) m) as Hp
      by steps
  end.
  pose proof (Hv _ _ _ Hk) as ->. apply Hp in Hk. unfold keeps in Hk.
  rewrite Hk. simpl. by rewrite fn_lookup_insert.
Qed.

Lemma startSysmsgThread_cases c st σ o σ' :
  startSysmsgThread c st σ = (o, σ') →
  subproc (sysThreads σ' st) = subproc (sysThreads σ st) ∧
  extends σ σ' ∧
  ((o = Ret (inl st) ∧ sysmsgThread_ (ctxs σ' c) = Some st) ∨
   (ctxs σ' = ctxs σ ∧ (∀ st', o ≠ Ret (inl st')) ∧
    ∀ e, o = Ret (inr e) →
      ∃ lg, log σ' = CSysThreadDestroy (tid (sthread (sysThreads σ' st))) :: lg)).
Proof.
  unfold startSysmsgThread, waitEvent, sysmsgThread_destroy, get_sysThread,
    get_msg, modify_msg, modify_sysThread, modify_ctx, extends. mred.
  destruct (script σ) as [|[] sc]; mred;
    try (intros [= <- <-]; simpl; split_and!;
         [done|by eexists [_]|right; split_and!; done]).
  rewrite fn_lookup_insert. simpl. destruct (negb (Err m =? 0)).
  - intros [= <- <-]. simpl. rewrite fn_lookup_insert. split_and!;
      [done|by eexists [_]|right; split_and!; done].
  - destruct (FPUStateOffset m) as [off [e|]]; mred; intros [= <- <-]; simpl;
      rewrite ?fn_lookup_insert; simpl.
    + split_and!; [done|by eexists [_; _]|right].
      split_and!; [done|done|]. intros _ _. eauto.
    + split_and!; [done|by eexists [_]|left; done].
Qed.

Lemma newSysmsgThread_cases s c ac σ o σ' :
  newSysmsgThread s c ac σ = (o, σ') →
  extends σ σ' ∧
  ((∃ st, o = Ret (inl st) ∧ sysmsgThread_ (ctxs σ' c) = Some st ∧
          subproc (sysThreads σ' st) = s) ∨
   (ctxs σ' = ctxs σ ∧ (∀ st', o ≠ Ret (inl st')) ∧
    ∀ e, o = Ret (inr e) →
      ∃ st lg, log σ' = CSysThreadDestroy (tid (sthread (sysThreads σ' st))) :: lg ∧
               subproc (sysThreads σ' st) = s)).
Proof.
  unfold newSysmsgThread. rewrite bind_unfold.
  destruct (createSysmsgThread s ac σ) as [oc σ1] eqn:Hc.
  pose proof (createSysmsgThread_ctxs s ac _ _ _ Hc) as Hctx.
  pose proof (createSysmsgThread_log s ac _ _ _ Hc) as Hlog.
  unfold keeps in Hctx.
  destruct oc as [st| | |]; try (intros [= <- <-]; split; [done|right]; done).
  pose proof (createSysmsgThread_subproc s ac _ _ _ Hc) as Hsub. cbv beta in Hsub.
  intros Hs. apply startSysmsgThread_cases in Hs as (Hsp & Hext & Hcase).
  split; [by eapply frame_trans|].
  destruct Hcase as [[-> Hb]|(Hc' & Hno & Herr)].
  - left. exists st. split_and!; congruence.
  - right. split_and!; [congruence|done|].
    intros e He. destruct (Herr e He) as [lg Hlg]. exists st, lg.
    split; congruence.
Qed.

(** X7.  A thread returned by [getSysmsgThread] belongs to the subprocess
    and is the one the context is now bound to; so a second call returns the
    same thread at once: it makes no call to the environment and changes
    nothing. *)
Theorem getSysmsgThread_binds s c ac σ st σ' :
  getSysmsgThread s c ac σ = (Ret (inl st), σ') →
  sysmsgThread_ (ctxs σ' c) = Some st ∧
  subproc (sysThreads σ' st) = s ∧
  getSysmsgThread s c ac σ' = (Ret (inl st), σ').
Proof.
  intros H.
  assert (sysmsgThread_ (ctxs σ' c) = Some st ∧ subproc (sysThreads σ' st) = s)
    as [Hb Hs].
  { revert H. unfold getSysmsgThread, sysmsgThread_destroy, get_sysThread. mred.
    destruct (sysmsgThread_ (ctxs σ c)) as [st0|] eqn:Hcur; mred.
    - destruct (subproc (sysThreads σ st0) =? s)%nat eqn:Heq; mred.
      + intros [= <- <-]. apply Nat.eqb_eq in Heq. done.
      + intros H. apply newSysmsgThread_cases in H as [_ [(st' & [= <-] & ? & ?)|(_ & Hno & _)]];
          [done|]. by destruct (Hno st).
    - intros H. apply newSysmsgThread_cases in H as [_ [(st' & [= <-] & ? & ?)|(_ & Hno & _)]];
        [done|]. by destruct (Hno st). }
  split_and!; try done.
  unfold getSysmsgThread, get_sysThread. mred. rewrite Hb. mred.
  rewrite Hs, Nat.eqb_refl. reflexivity.
Qed.

Lemma getSysmsgThread_failure_cases s c ac σ o σ' :
  getSysmsgThread s c ac σ = (o, σ') →
  (∀ st, o ≠ Ret (inl st)) →
  ctxs σ' = ctxs σ ∧
  (∀ st0, sysmsgThread_ (ctxs σ c) = Some st0 →
          subproc (sysThreads σ st0) ≠ s →
          sysmsgThread_ (ctxs σ' c) = Some st0 ∧
          CSysThreadDestroy (tid (sthread (sysThreads σ st0))) ∈ log σ') ∧
  (∀ e, o = Ret (inr e) →
        ∃ st lg,
          log σ' = CSysThreadDestroy (tid (sthread (sysThreads σ' st))) :: lg ∧
          subproc (sysThreads σ' st) = s).
Proof.
  intros H Hno. revert H.
  unfold getSysmsgThread, sysmsgThread_destroy, get_sysThread. mred.
  destruct (sysmsgThread_ (ctxs σ c)) as [st0|] eqn:Hcur; mred.
  - destruct (subproc (sysThreads σ st0) =? s)%nat eqn:Heq; mred.
    + intros [= <- <-]. by destruct (Hno st0).
    + intros H.
      apply newSysmsgThread_cases in H as [[new Hext] [(st' & -> & _)|(Hc & _ & He)]];
        [by destruct (Hno st')|].
      simpl in Hc, Hext. split_and!; [done| |done].
      intros st1 [= <-] _. rewrite Hc, Hcur. split; [done|].
      rewrite Hext. apply elem_of_app. right. left.
  - intros H.
    apply newSysmsgThread_cases in H as [_ [(st' & -> & _)|(Hc & _ & He)]];
      [by destruct (Hno st')|].
    split_and!; [done| |done]. intros st0 [=].
Qed.

(** X8.  When [getSysmsgThread] does not return a thread (it returns an
    error, panics or blocks), it has changed no context: [c.sysmsgThread]
    is what it was.  In particular, when the context was bound to a thread
    of another subprocess, that thread has been destroyed and the context
    still names it.  When the call returns an error, the last thing it did
    was to destroy a thread it had created for this subprocess. *)
Theorem getSysmsgThread_failure_keeps_binding s c ac σ o σ' :
  getSysmsgThread s c ac σ = (o, σ') →
  (∀ st, o ≠ Ret (inl st)) →
  ctxs σ' = ctxs σ ∧
  (∀ st0, sysmsgThread_ (ctxs σ c) = Some st0 →
          subproc (sysThreads σ st0) ≠ s →
          sysmsgThread_ (ctxs σ' c) = Some st0 ∧
          CSysThreadDestroy (tid (sthread (sysThreads σ st0))) ∈ log σ') ∧
  (∀ e, o = Ret (inr e) →
        ∃ st lg,
          log σ' = CSysThreadDestroy (tid (sthread (sysThreads σ' st))) :: lg ∧
          subproc (sysThreads σ' st) = s).
Proof. apply getSysmsgThread_failure_cases. Qed.

(** X17.  When [getSysmsgThread] returns an error, switchToApp returns
    [(false, false, err)] with that error, in the state [getSysmsgThread]
    left: it has not gone on to enable interrupt delivery, and every
    context, the signal-info and the forwarder of [c] included, is what it
    was before the call. *)
Theorem switchToApp_thread_error s c ac σ e σg :
  getSysmsgThread s c ac σ = (Ret (inr e), σg) →
  switchToApp s c ac σ = (Ret (false, false, Some e), σg) ∧
  ctxs (snd (switchToApp s c ac σ)) = ctxs σ.
Proof.
  intros Hg. rewrite switchToApp_eq, Hg. split; [done|].
  destruct (getSysmsgThread_failure_cases s c ac σ _ σg Hg) as (Hc & _);
    [discriminate|].
  exact Hc.
Qed.

(** ** switchToApp: the deferred Disable and the delivered event *)

Lemma switchToApp_enter_interrupt c ac st :
  steps (keeps (λ σ, interrupt (ctxs σ c))) (switchToApp_enter c ac st).
Proof.
  unfold switchToApp_enter, roundtrip, refreshFPUStateOffset, classify. steps.
Qed.

(** X9.  Once [c.interrupt.Enable] has returned true, the deferred
    [c.interrupt.Disable()] runs on every exit from switchToApp: when it
    returns, whatever it returns, and when it panics, the forwarder of the
    context is the one [Disable] yields from the forwarder that [Enable]
    left.  While the call is blocked waiting for the stub, the forwarder is
    still the enabled one. *)
Theorem switchToApp_disables_interrupts s c ac σ st σg o σ' :
  getSysmsgThread s c ac σ = (Ret (inl st), σg) →
  fst (arm c ac st σg) = true →
  switchToApp s c ac σ = (o, σ') →
  let enabled := interrupt (ctxs (snd (arm c ac st σg)) c) in
  match o with
  | Ret _ | Panic _ => interrupt (ctxs σ' c) = Disable enabled
  | Terminated _ | Stuck => interrupt (ctxs σ' c) = enabled
  end.
Proof.
  intros Hg Hok. rewrite switchToApp_eq, Hg. cbv zeta. rewrite Hok.
  unfold modify_ctx. rewrite defer_modify.
  destruct (switchToApp_enter c ac st (snd (arm c ac st σg))) as [o1 σ2] eqn:He.
  apply switchToApp_enter_interrupt in He. unfold keeps in He.
  destruct o1; intros [= <- <-]; simpl; rewrite ?fn_lookup_insert; simpl;
    by rewrite He.
Qed.

Lemma classify_state c ac st σ :
  let th := sysThreads σ st in
  let m := msg th in
  let regs := fst (retrieveArchSpecificState
                     (setPtraceRegs (Regs m) (acRegs (acs σ ac))) m
                     (sthread th) (acs σ ac)) in
  let patch := maybePatchSignalInfo regs (MsgSignalInfo m) in
  let σ' := snd (classify c ac st σ) in
  match Type_ m with
  | EventTypeFault =>
      signalInfo (ctxs σ' c) = MsgSignalInfo m ∧ acRegs (acs σ' ac) = regs
  | EventTypeSyscall | EventTypeSyscallTrap | EventTypeSyscallCanBePatched =>
      signalInfo (ctxs σ' c) = snd patch ∧
      acRegs (acs σ' ac) =
        (if fst (fst patch) then snd (fst patch)
         else updateSyscallRegs (snd (fst patch)))
  | _ => True
  end.
Proof.
  intros th m regs patch σ'. subst th m regs patch σ'.
  unfold classify, get_sysThread, get_regs, put_regs, get_msg, modify_msg,
    modify_sysThread, modify_ctx. mred.
  destruct (retrieveArchSpecificState _ _ _ _) as [regs a]. mred.
  destruct (Type_ (msg (sysThreads σ st))) eqn:Hty;
    repeat (progress (mred; rewrite ?fn_lookup_insert, ?Hty));
    try done;
    try (destruct (maybePatchSignalInfo _ _) as [[patched regs'] si];
         destruct patched;
         repeat (progress (mred; rewrite ?fn_lookup_insert, ?Hty)));
    by split.
Qed.

(** X10.  After a round-trip that left a Message [m] with no in-band error
    and a usable FPU-state offset, switchToApp has delivered the event to
    the context.  For a fault, [c.signalInfo] is the signal-info of the
    Message and the registers of [ac] are those of the Message, as the
    architecture retrieves them.  For a system call, the signal-info and
    the registers are what [maybePatchSignalInfo] made of those, and the
    registers have gone through [updateSyscallRegs] unless the signal-info
    was patched. *)
Theorem switchToApp_delivers_event s c ac σ st σg m sc :
  getSysmsgThread s c ac σ = (Ret (inl st), σg) →
  fst (arm c ac st σg) = true →
  script σg = RMsg m :: sc →
  fpu_refresh_ok m = true →
  Err m = 0 →
  let σ1 := snd (arm c ac st σg) in
  let regs := regs_after_roundtrip ac st σ1 m in
  let patch := maybePatchSignalInfo regs (MsgSignalInfo m) in
  let σ' := snd (switchToApp s c ac σ) in
  match Type_ m with
  | EventTypeFault =>
      signalInfo (ctxs σ' c) = MsgSignalInfo m ∧ acRegs (acs σ' ac) = regs
  | EventTypeSyscall | EventTypeSyscallTrap | EventTypeSyscallCanBePatched =>
      signalInfo (ctxs σ' c) = snd patch ∧
      acRegs (acs σ' ac) =
        (if fst (fst patch) then snd (fst patch)
         else updateSyscallRegs (snd (fst patch)))
  | _ => True
  end.
Proof.
  intros Hg Hok Hs Hfpu Herr σ1 regs patch σ'. subst σ'.
  rewrite switchToApp_eq, Hg. cbv zeta. rewrite Hok. fold σ1.
  destruct (arm_os c ac st σg) as [Hsc _]. fold σ1 in Hsc. rewrite Hs in Hsc.
  destruct (switchToApp_enter_checked c ac st σ1 m sc Hsc Hfpu)
    as (σ3 & He & Hm & Ht & Ha).
  unfold modify_ctx. rewrite defer_modify, He, Herr. cbn [Z.eqb negb].
  pose proof (classify_state c ac st σ3) as Hc. cbv zeta in Hc.
  rewrite Hm, Ht, Ha in Hc. cbn [acRegs] in Hc.
  fold (regs_after_roundtrip ac st σ1 m) in Hc. fold regs in Hc. fold patch in Hc.
  destruct (classify c ac st σ3) as [o σ4]. cbn [fst snd] in *.
  destruct (Type_ m); try done;
    destruct o; simpl; rewrite ?fn_lookup_insert; exact Hc.
Qed.

(** ** MapFile, Unmap and unmap *)

(** X11.  [MapFile] injects one mmap into the subprocess and hands its
    error back: whatever the answer, it does not panic, and it changes no
    subprocess and no context.  The arguments of the call are the address,
    the length of the file range, the protection, the flags, the file
    descriptor and the start of the file range, in this order; the flags
    always have MAP_SHARED and MAP_FIXED set, and MAP_POPULATE exactly when
    [precommit] is set. *)
Theorem MapFile_returns_error SYS_MMAP s addr fd fr prot (precommit : bool) σ :
  ∃ flags,
    Z.land flags MAP_SHARED = MAP_SHARED ∧
    Z.land flags MAP_FIXED = MAP_FIXED ∧
    Z.land flags MAP_POPULATE = (if precommit then MAP_POPULATE else 0) ∧
    (∀ rval err sc,
       script σ = RSyscall rval err :: sc →
       MapFile SYS_MMAP s addr fd fr prot precommit σ =
         (Ret err,
          set_os sc
            (CSubprocessSyscall s SYS_MMAP
               [{| Value := addr |}; {| Value := uint64 (End_ fr - Start fr) |};
                {| Value := uint64 prot |}; {| Value := flags |};
                {| Value := uint64 fd |}; {| Value := Start fr |}] :: log σ) σ)) ∧
    (∀ p, fst (MapFile SYS_MMAP s addr fd fr prot precommit σ) ≠ Panic p) ∧
    subprocs (snd (MapFile SYS_MMAP s addr fd fr prot precommit σ)) = subprocs σ ∧
    ctxs (snd (MapFile SYS_MMAP s addr fd fr prot precommit σ)) = ctxs σ.
Proof.
  exists (uint64 (Z.lor (Z.lor (if precommit then Z.lor 0 MAP_POPULATE else 0)
                           MAP_SHARED) MAP_FIXED)).
  split_and!.
  - by destruct precommit.
  - by destruct precommit.
  - by destruct precommit.
  - intros rval err sc Hs. unfold MapFile, subprocess_syscall. mred.
    rewrite Hs. reflexivity.
  - intros p. unfold MapFile, subprocess_syscall. mred.
    destruct (script σ) as [|[] sc]; discriminate.
  - unfold MapFile, subprocess_syscall. mred.
    destruct (script σ) as [|[] sc]; reflexivity.
  - unfold MapFile, subprocess_syscall. mred.
    destruct (script σ) as [|[] sc]; reflexivity.
Qed.

Lemma uint64_in_range z : 0 ≤ z < 2 ^ 64 → uint64 z = z.
Proof. intros H. unfold uint64. by apply Z.mod_small. Qed.

(* What one [Unmap] whose range does not overflow does to the fault caches
   and to the bound sets. *)
Lemma Unmap_effect s addr length σ o σ' :
  0 ≤ addr < 2 ^ 64 → 0 ≤ length < 2 ^ 64 → addr + length < 2 ^ 64 →
  Unmap s addr length σ = (o, σ') →
  let ar := {| arStart := addr; arEnd := addr + length |} in
  (∀ a l, o ≠ Panic (PanicOverflow a l)) ∧
  (∀ c, ctxs σ' c =
        if bool_decide (c ∈ contexts (subprocs σ s)) && stale s ar (ctxs σ c)
        then set_lastFaultSP None (ctxs σ c) else ctxs σ c) ∧
  (∀ c, c ∈ contexts (subprocs σ' s) ↔
        c ∈ contexts (subprocs σ s) ∧ stale s ar (ctxs σ c) = false) ∧
  (∀ s', s' ≠ s → subprocs σ' s' = subprocs σ s') ∧
  (o = Ret tt →
   log σ' = CSubprocessSyscall s SYS_MUNMAP
              [{| Value := addr |}; {| Value := length |}] :: log σ).
Proof.
  intros Ha Hl Hsum HU ar.
  assert (addr ≤ uint64 (addr + length)) as Hok by (by apply uint64_no_overflow).
  pose proof (ToRange_ok addr length Ha Hl Hok) as HT.
  destruct (Unmap_run s addr length σ) as (σ1 & Hp & HU'); [by rewrite HT|].
  rewrite HT in Hp. cbn [fst] in Hp. fold ar in Hp.
  rewrite HU' in HU. clear HU'.
  destruct Hp as (_ & Hlg & _ & _ & _ & _ & _ & Hoth & _ & _ & Hmem & Hctx).
  assert (ctxs σ' = ctxs σ1 ∧ subprocs σ' = subprocs σ1 ∧
          (∀ a l, o ≠ Panic (PanicOverflow a l)) ∧
          (o = Ret tt →
           log σ' = CSubprocessSyscall s SYS_MUNMAP
                      [{| Value := addr |}; {| Value := length |}] :: log σ))
    as (-> & -> & Hno & Hlog).
  { cbv zeta in HU. destruct (script σ) as [|[] sc];
      try (injection HU as <- <-; split_and!; done).
    destruct err; injection HU as <- <-; split_and!; done. }
  split_and!; try done.
  - intros c. rewrite Hctx.
    by rewrite (bool_decide_ext _ _ (elem_of_elements (contexts (subprocs σ s)) c)).
  - intros c. rewrite Hmem, elem_of_elements.
    destruct (stale s ar (ctxs σ c)); split; intros [? ?]; split; try done.
    + exfalso. auto.
    + intros [_ ?]. done.
Qed.

Lemma stale_spec s addr length x :
  stale s {| arStart := addr; arEnd := addr + length |} x = true ↔
  lastFaultSP x = Some s ∧ addr ≤ lastFaultAddr x < addr + length.
Proof.
  unfold stale. rewrite andb_true_iff, bool_decide_eq_true, Contains_spec.
  reflexivity.
Qed.

(** X12.  When the range does not overflow, [Unmap] keeps the invariant
    stated on [subprocess.contexts], that every context whose cached fault
    is in this subprocess is in its [contexts] set, and it leaves no cached
    fault of this subprocess inside the unmapped range, whether the
    injected munmap succeeds or not.  The same invariant of every other
    subprocess is kept too. *)
Theorem Unmap_keeps_contexts_invariant s addr length σ :
  0 ≤ addr < 2 ^ 64 → 0 ≤ length < 2 ^ 64 → addr + length < 2 ^ 64 →
  let σ' := snd (Unmap s addr length σ) in
  (contexts_inv s σ →
   contexts_inv s σ' ∧
   ∀ c, lastFaultSP (ctxs σ' c) = Some s →
        ¬ (addr ≤ lastFaultAddr (ctxs σ' c) < addr + length)) ∧
  (∀ s', s' ≠ s → contexts_inv s' σ → contexts_inv s' σ').
Proof.
  intros Ha Hl Hsum σ'.
  destruct (Unmap s addr length σ) as [o σ1] eqn:HU. subst σ'. cbn [snd].
  destruct (Unmap_effect s addr length σ o σ1 Ha Hl Hsum HU)
    as (_ & Hctx & Hmem & Hoth & _).
  split.
  - intros Hinv. split.
    + intros c. rewrite Hctx, Hmem.
      destruct (bool_decide (c ∈ contexts (subprocs σ s))) eqn:Hin; cbn [andb].
      * apply bool_decide_eq_true in Hin.
        destruct (stale s _ (ctxs σ c)); [discriminate|done].
      * intros Hsp. apply Hinv in Hsp. by apply bool_decide_eq_false in Hin.
    + intros c. rewrite Hctx.
      destruct (bool_decide (c ∈ contexts (subprocs σ s))) eqn:Hin; cbn [andb].
      * destruct (stale s _ (ctxs σ c)) eqn:Hst; [discriminate|].
        intros Hsp Hr. apply not_true_iff_false in Hst. apply Hst.
        by apply stale_spec.
      * intros Hsp. apply Hinv in Hsp. by apply bool_decide_eq_false in Hin.
  - intros s' Hne Hinv c. rewrite Hctx, Hoth by done.
    destruct (_ && _); [discriminate|]. apply Hinv.
Qed.

(** X13.  With the stub inside the user address space
    ([0 ≤ stubStart ≤ stubEnd ≤ maximumUserAddress < 2^64]), [unmap] never
    panics for an overflowing range, and it spares every cached fault whose
    address lies in the stub, [[stubStart, stubEnd)].  When it returns it
    has injected munmap for [[0, stubStart)] and then, unless the stub ends
    the address space, for [[stubEnd, maximumUserAddress)], and every bound
    context whose cached fault was in this subprocess at an address of
    these two ranges has forgotten it and has left [s.contexts]. *)
Theorem unmap_spares_the_stub s σ :
  0 ≤ stubStart → stubStart ≤ stubEnd → stubEnd ≤ maximumUserAddress →
  maximumUserAddress < 2 ^ 64 →
  (∀ a l, fst (unmap s σ) ≠ Panic (PanicOverflow a l)) ∧
  (∀ c, stubStart ≤ lastFaultAddr (ctxs σ c) < stubEnd →
        ctxs (snd (unmap s σ)) c = ctxs σ c ∧
        (c ∈ contexts (subprocs (snd (unmap s σ)) s) ↔
         c ∈ contexts (subprocs σ s))) ∧
  (∀ σ', unmap s σ = (Ret tt, σ') →
     log σ' =
       (if maximumUserAddress =? stubEnd then []
        else [CSubprocessSyscall s SYS_MUNMAP
                [{| Value := stubEnd |};
                 {| Value := maximumUserAddress - stubEnd |}]]) ++
       CSubprocessSyscall s SYS_MUNMAP [{| Value := 0 |}; {| Value := stubStart |}]
       :: log σ ∧
     ∀ c, c ∈ contexts (subprocs σ s) →
          lastFaultSP (ctxs σ c) = Some s →
          0 ≤ lastFaultAddr (ctxs σ c) < stubStart ∨
          stubEnd ≤ lastFaultAddr (ctxs σ c) < maximumUserAddress →
          lastFaultSP (ctxs σ' c) = None ∧ c ∉ contexts (subprocs σ' s)).
Proof.
  intros H0 H1 H2 H3. unfold unmap. rewrite !bind_unfold.
  rewrite (uint64_in_range stubStart) by lia.
  rewrite (uint64_in_range (maximumUserAddress - stubEnd)) by lia.
  destruct (Unmap s 0 stubStart σ) as [o1 σ1] eqn:HU1.
  destruct (Unmap_effect s 0 stubStart σ o1 σ1) as (Hno1 & Hctx1 & Hmem1 & _ & Hlog1);
    [lia..|done|]. cbv zeta in *. rewrite Z.add_0_l in *.
  assert (∀ c, stubStart ≤ lastFaultAddr (ctxs σ c) →
               stale s {| arStart := 0; arEnd := stubStart |} (ctxs σ c) = false)
    as Hout1.
  { intros c Hc. apply not_true_iff_false.
    rewrite <- (Z.add_0_l stubStart), stale_spec. lia. }
  destruct (Unmap s stubEnd (maximumUserAddress - stubEnd) σ1) as [o2 σ2] eqn:HU2.
  destruct (Unmap_effect s stubEnd (maximumUserAddress - stubEnd) σ1 o2 σ2)
    as (Hno2 & Hctx2 & Hmem2 & _ & Hlog2); [lia..|done|]. cbv zeta in *.
  replace (stubEnd + (maximumUserAddress - stubEnd)) with maximumUserAddress in *
    by lia.
  assert (∀ x, lastFaultAddr x < stubEnd →
               stale s {| arStart := stubEnd; arEnd := maximumUserAddress |} x = false)
    as Hout2.
  { intros x Hx. apply not_true_iff_false. unfold stale.
    rewrite andb_true_iff, Contains_spec. simpl. lia. }
  split_and!.
  - intros a l. destruct o1 as [[]| | |]; cbn [fst]; try apply Hno1; try done.
    destruct (negb _); [rewrite HU2; apply Hno2|done].
  - intros c Hc.
    assert (ctxs σ1 c = ctxs σ c ∧
            (c ∈ contexts (subprocs σ1 s) ↔ c ∈ contexts (subprocs σ s)))
      as [Hc1 Hm1].
    { rewrite Hctx1, Hmem1, Hout1 by lia. rewrite andb_false_r. tauto. }
    destruct o1 as [[]| | |]; cbn [snd]; try done.
    destruct (negb _); [rewrite HU2|]; cbn [snd]; [|done].
    rewrite Hctx2, Hmem2, Hc1, Hout2 by lia. rewrite andb_false_r. tauto.
  - intros σ'. destruct o1 as [[]| | |]; try discriminate.
    specialize (Hlog1 eq_refl).
    destruct (maximumUserAddress =? stubEnd) eqn:Heq; cbn [negb].
    + intros [= <-]. split; [done|]. apply Z.eqb_eq in Heq.
      intros c Hin Hsp [Hr|Hr]; [|lia].
      assert (stale s {| arStart := 0; arEnd := stubStart |} (ctxs σ c) = true)
        as Hst.
      { rewrite <- (Z.add_0_l stubStart), stale_spec. split; [done|lia]. }
      rewrite Hctx1, Hmem1, Hst, bool_decide_eq_true_2 by done.
      split; [done|]. intros [_ ?]. done.
    + rewrite HU2. intros [= -> <-]. specialize (Hlog2 eq_refl).
      split; [by rewrite Hlog2, Hlog1|].
      intros c Hin Hsp [Hr|Hr].
      * assert (stale s {| arStart := 0; arEnd := stubStart |} (ctxs σ c) = true)
          as Hst.
        { rewrite <- (Z.add_0_l stubStart), stale_spec. split; [done|lia]. }
        assert (ctxs σ1 c = set_lastFaultSP None (ctxs σ c)) as Hc1.
        { by rewrite Hctx1, Hst, bool_decide_eq_true_2. }
        assert (c ∉ contexts (subprocs σ1 s)) as Hm1.
        { rewrite Hmem1, Hst. intros [_ ?]. done. }
        rewrite Hctx2, Hmem2, Hc1. rewrite bool_decide_eq_false_2 by done.
        split; [done|]. tauto.
      * assert (ctxs σ1 c = ctxs σ c ∧ c ∈ contexts (subprocs σ1 s)) as [Hc1 Hm1].
        { rewrite Hctx1, Hmem1, Hout1 by lia. rewrite andb_false_r. done. }
        assert (stale s {| arStart := stubEnd; arEnd := maximumUserAddress |}
                  (ctxs σ c) = true) as Hst.
        { unfold stale. rewrite andb_true_iff, bool_decide_eq_true, Contains_spec.
          done. }
        rewrite Hctx2, Hmem2, Hc1, Hst, bool_decide_eq_true_2 by done.
        split; [done|]. intros [_ ?]. done.
Qed.

(** ** What [wait(stopped)] can return *)

Lemma wait_loop_stopped_returns fuel t :
  ∀ σ sig σ',
    wait_loop fuel t stopped σ = (Ret sig, σ') →
    1 ≤ Z.land sig 255 < 256 ∧ Z.shiftr sig 8 ≠ PTRACE_EVENT_EXIT.
Proof.
  induction fuel as [|fuel IH]; intros σ sig σ'; [discriminate|].
  rewrite wait_loop_S. unfold Wait4. mred.
  destruct (script σ) as [|r sc] eqn:E; mred; [discriminate|].
  destruct r; mred; try discriminate.
  destruct (bool_decide _ || bool_decide _); [apply IH|].
  destruct err; [discriminate|].
  destruct (negb (r =? tid t)); [discriminate|].
  destruct (WaitStatus.Stopped status) eqn:Hst; mred; [|never_returns].
  pose proof (StopSignal_range status Hst) as Hr.
  destruct (WaitStatus.StopSignal status =? 0) eqn:H0; [apply IH|].
  apply Z.eqb_neq in H0.
  destruct (WaitStatus.StopSignal status =? SIGTRAP) eqn:Htrap; mred.
  - destruct (WaitStatus.TrapCause status =? PTRACE_EVENT_EXIT) eqn:Hc; mred;
      [never_returns|].
    intros [= <- <-]. apply Z.eqb_neq in Hc.
    rewrite lor_shiftl8_low, lor_shiftl8_high by lia. split; [lia|done].
  - intros [= <- <-]. split.
    + change 255 with (Z.ones 8). rewrite Z.land_ones by lia.
      rewrite Z.mod_small by lia. lia.
    + rewrite Z.shiftr_div_pow2, Z.div_small by lia. done.
Qed.

(** X15.  Whatever the environment answers, a value returned by
    [wait(stopped)] names a signal: its low byte is between 1 and 255,
    never 0, since a stop without a signal makes [wait] wait again; and the
    bits above the low byte are never PTRACE_EVENT_EXIT, since on that event
    [wait] does not return. *)
Theorem wait_stopped_returns_signal t σ sig σ' :
  wait t stopped σ = (Ret sig, σ') →
  1 ≤ Z.land sig 255 < 256 ∧ Z.shiftr sig 8 ≠ PTRACE_EVENT_EXIT.
Proof. apply wait_loop_stopped_returns. Qed.

(** ** switchToApp: what is published to the stub *)

Lemma roundtrip_log ac st σ m sc :
  script σ = RMsg m :: sc →
  let th := sysThreads σ st in
  let rs := restoreArchSpecificState (acRegs (acs σ ac)) (sthread th) th (acs σ ac) in
  log (snd (roundtrip ac st σ)) =
    CWaitEvent (tid (sthread th)) StateDone
      (EnableSentryFastPath (set_Regs (regsPtraceRegs (fst rs)) (snd rs))) :: log σ.
Proof.
  intros Hs th rs. subst th rs.
  unfold roundtrip, waitEvent, get_sysThread, get_regs, put_regs,
    modify_msg, modify_sysThread. mred.
  destruct (restoreArchSpecificState _ _ _ _) as [regs m1]. mred.
  rewrite Hs. mred. rewrite !fn_lookup_insert. reflexivity.
Qed.

Ltac preserves_tac :=
  unfold get_sysThread, get_regs, put_regs, get_msg, modify_msg,
    modify_sysThread, modify_ctx;
  repeat first
    [ apply preserves_ret | apply preserves_panic | apply preserves_gets
    | apply preserves_modify; intros ?; simpl;
        rewrite ?fn_lookup_insert; reflexivity
    | apply preserves_bind; [|intros ?]
    | match goal with
      | |- preserves _ (if ?b then _ else _) => destruct b
      | |- preserves _ (match ?x with _ => _ end) => destruct x
      | |- preserves _ (let '(_, _) := ?x in _) => destruct x
      | |- preserves _ (let _ := _ in _) => cbv zeta
      end ].

(** X16.  In a round-trip on a context that is bound and has no interrupt
    pending, switchToApp makes exactly one call to the environment, however
    it ends: it waits for the stub to reach the Done state, having
    published in the Message the registers of [ac] as the architecture
    restored them, with the sentry fast path enabled.  The stub's answer is
    the only answer consumed. *)
Theorem switchToApp_publishes_registers s c ac σ st σg m sc :
  getSysmsgThread s c ac σ = (Ret (inl st), σg) →
  fst (arm c ac st σg) = true →
  script σg = RMsg m :: sc →
  let σ1 := snd (arm c ac st σg) in
  let th := sysThreads σ1 st in
  let rs := restoreArchSpecificState (acRegs (acs σ1 ac)) (sthread th) th (acs σ1 ac) in
  log (snd (switchToApp s c ac σ)) =
    CWaitEvent (tid (sthread th)) StateDone
      (EnableSentryFastPath (set_Regs (regsPtraceRegs (fst rs)) (snd rs))) :: log σg ∧
  script (snd (switchToApp s c ac σ)) = sc.
Proof.
  intros Hg Hok Hs σ1 th rs.
  rewrite switchToApp_eq, Hg. cbv zeta. rewrite Hok. fold σ1.
  destruct (arm_os c ac st σg) as [Hsc Hlg]. fold σ1 in Hsc, Hlg.
  rewrite Hs in Hsc.
  pose proof (roundtrip_log ac st σ1 m sc Hsc) as Hlog. cbv zeta in Hlog.
  fold th in Hlog. fold rs in Hlog.
  destruct (roundtrip_done ac st σ1 m sc Hsc) as (σ2 & Hr & _ & _ & _ & _ & Hsc2).
  rewrite Hr in Hlog. cbn [snd] in Hlog. rewrite Hlg in Hlog.
  unfold modify_ctx. rewrite defer_modify.
  unfold switchToApp_enter. rewrite bind_unfold, Hr.
  match goal with |- context [?k σ2] =>
    assert (preserves (λ σ, (script σ, log σ)) k) as Hp
      by (unfold refreshFPUStateOffset, classify; preserves_tac);
    destruct (k σ2) as [o σ3] eqn:Hk
  end.
  apply Hp in Hk. injection Hk as Hk1 Hk2.
  destruct o; cbn [snd set_ctx script log]; by rewrite Hk1, Hk2.
Qed.

End Properties.

(** * Instances of the properties on the example architecture *)

#[local] Existing Instances Example.types Example.ops.

(** An unexpected exit after SIGKILL whose forwarded SIGKILL terminates the
    process. *)
Lemma wait_unexpected_exit_witness :
  let σ := Example.state0
    [RWait4 101 Example.exit_stop None; REventMsg 9 None; RKilled] in
  (WaitStatus.Stopped Example.exit_stop = true ∧
   WaitStatus.StopSignal Example.exit_stop = SIGTRAP ∧
   WaitStatus.TrapCause Example.exit_stop = PTRACE_EVENT_EXIT ∧
   WaitStatus.Signaled (uint32 9) && (WaitStatus.Signal (uint32 9) =? SIGKILL) = true) ∧
  wait Example.thread0 stopped σ =
    (Terminated SIGKILL,
     set_os [] [CTgkill 1 1 SIGKILL; CWarningf (WarnKilledBySIGKILL 100);
                CGetEventMessage 101; CWait4 101 (Z.lor WALL WUNTRACED)] σ) ∧
  ∀ p, fst (wait Example.thread0 stopped σ) ≠ Panic p.
Proof.
  intros σ. split; [repeat split|].
  destruct (wait_unexpected_exit Example.thread0 σ Example.exit_stop 9 None [RKilled])
    as (_ & H & _); [reflexivity..|].
  destruct (H eq_refl) as (_ & Hno & Hk).
  split; [exact (Hk [] eq_refl)|].
  apply Hno. intros e rest'. discriminate.
Defined.

(** The source has no [return] after [unix.Tgkill]: in a run in which the
    call sending SIGKILL to the tracer's own process came back to its
    caller, [unexpectedStubExit] would go on to [dumpAndPanic]. *)
Example wait_SIGKILL_exit_panics :
  let σ := Example.state0
    [RWait4 101 Example.exit_stop None; REventMsg 9 None; RErr None;
     RRegs Example.regs0 None] in
  WaitStatus.Stopped Example.exit_stop = true ∧
  WaitStatus.StopSignal Example.exit_stop = SIGTRAP ∧
  WaitStatus.TrapCause Example.exit_stop = PTRACE_EVENT_EXIT ∧
  WaitStatus.Signaled (uint32 9) = true ∧
  WaitStatus.Signal (uint32 9) = SIGKILL ∧
  fst (wait Example.thread0 stopped σ) =
    Panic (PanicDump (DumpProcessExited 100 101 9 None) (Some "regs"%string) 4096).
Proof. vm_compute. repeat split. Qed.

(** The last context of a released subprocess unregisters: the subprocess
    becomes available. *)
Lemma available_iff_released_and_idle_witness :
  pool_inv Example.state_released ∧
  0%nat ∈ available (globalPool
    (snd (unregisterContext (Some 0%nat) 7%nat Example.state_released))).
Proof.
  assert (pool_inv Example.state_released) as Hinv.
  { intros s. simpl. rewrite elem_of_empty.
    destruct s; simpl; split; try done; intros [? ?]; done. }
  split; [exact Hinv|].
  destruct (available_iff_released_and_idle Example.state_released Hinv) as [H _].
  destruct (H 0%nat 7%nat) as (_ & _ & _ & _ & Hav); [simpl; lia|].
  apply Hav. simpl. done.
Defined.

(** Unmapping [0x1000, 0x2000) clears the cache of context 1, which last
    faulted at 0x1800. *)
Lemma Unmap_clears_fault_cache_witness :
  let σ := Example.state_faulted [RSyscall 0 None] in
  (0 ≤ 4096 < 2 ^ 64 ∧ 4096 ≤ uint64 (4096 + 4096) ∧
   1%nat ∈ contexts (subprocs σ 0%nat) ∧
   lastFaultSP (ctxs σ 1%nat) = Some 0%nat ∧
   4096 ≤ lastFaultAddr (ctxs σ 1%nat) < 4096 + 4096) ∧
  lastFaultSP (ctxs (snd (Unmap 0%nat 4096 4096 σ)) 1%nat) = None ∧
  1%nat ∉ contexts (subprocs (snd (Unmap 0%nat 4096 4096 σ)) 0%nat).
Proof.
  intros σ.
  assert (0 ≤ 4096 < 2 ^ 64) as Hr by lia.
  assert (4096 ≤ uint64 (4096 + 4096)) as Hok by (vm_compute; discriminate).
  assert (1%nat ∈ contexts (subprocs σ 0%nat)) as Hin.
  { simpl. apply elem_of_union_l. by apply elem_of_singleton. }
  assert (lastFaultSP (ctxs σ 1%nat) = Some 0%nat) as Hsp by reflexivity.
  assert (4096 ≤ lastFaultAddr (ctxs σ 1%nat) < 4096 + 4096) as Ha by (simpl; lia).
  split; [done|].
  destruct (Unmap_clears_fault_cache 0%nat 4096 4096 σ Hr Hr Hok 1%nat) as [H _].
  exact (H Hin Hsp Ha).
Defined.

(** A patchable syscall from ordinary code. *)
Lemma switchToApp_classifies_witness :
  let m := Example.reply EventTypeSyscallCanBePatched 0 64 4096 in
  let σ := Example.state1 [RMsg m] in
  (getSysmsgThread 0%nat 0%nat 0%nat σ = (Ret (inl 0%nat), σ) ∧
   fst (arm 0%nat 0%nat 0%nat σ) = true ∧
   fpu_refresh_ok m = true ∧ Err m = 0) ∧
  fst (switchToApp 0%nat 0%nat 0%nat σ) = Ret (true, true, None) ∧
  Type_ (msg (sysThreads (snd (switchToApp 0%nat 0%nat 0%nat σ)) 0%nat)) =
    EventTypeSyscall.
Proof.
  intros m σ.
  assert (getSysmsgThread 0%nat 0%nat 0%nat σ = (Ret (inl 0%nat), σ)) as Hg
    by reflexivity.
  assert (fst (arm 0%nat 0%nat 0%nat σ) = true) as Hok by reflexivity.
  assert (fpu_refresh_ok m = true) as Hfpu by reflexivity.
  assert (Err m = 0) as Herr by reflexivity.
  split; [done|].
  destruct (switchToApp_classifies 0%nat 0%nat 0%nat σ 0%nat σ m []
              Hg Hok eq_refl Hfpu Herr) as [H1 H2].
  split; [exact H1|]. apply H2. reflexivity.
Defined.

(** C4 as stated fails: the event type is Syscall, the round-trip succeeded,
    and switchToApp returns [isSyscall = false], because the signal came
    from the vsyscall page and [maybePatchSignalInfo] patched it. *)
Lemma switchToApp_syscall_patched_not_syscall :
  let m := Example.reply EventTypeSyscall 0 64 Example.VSyscallStartAddr in
  let σ := Example.state1 [RMsg m] in
  Type_ m = EventTypeSyscall ∧ Err m = 0 ∧ fpu_refresh_ok m = true ∧
  fst (switchToApp 0%nat 0%nat 0%nat σ) = Ret (false, false, None).
Proof. vm_compute. repeat split. Qed.

(** An interrupt is pending when switchToApp arms interrupt delivery. *)
Lemma switchToApp_pending_interrupt_witness :
  let σ := Example.state_pending in
  (getSysmsgThread 0%nat 0%nat 0%nat σ = (Ret (inl 0%nat), σ) ∧
   fst (arm 0%nat 0%nat 0%nat σ) = false) ∧
  fst (switchToApp 0%nat 0%nat 0%nat σ) = Ret (false, false, None) ∧
  Signo (signalInfo (ctxs (snd (switchToApp 0%nat 0%nat 0%nat σ)) 0%nat)) = SIGCHLD ∧
  log (snd (switchToApp 0%nat 0%nat 0%nat σ)) = [].
Proof.
  intros σ.
  assert (getSysmsgThread 0%nat 0%nat 0%nat σ = (Ret (inl 0%nat), σ)) as Hg
    by reflexivity.
  assert (fst (arm 0%nat 0%nat 0%nat σ) = false) as Hok by reflexivity.
  split; [done|].
  destruct (switchToApp_pending_interrupt 0%nat 0%nat 0%nat σ 0%nat σ Hg Hok)
    as (H1 & _ & H3 & _ & _ & _ & H7).
  split_and!.
  - by rewrite H1.
  - exact H3.
  - exact H7.
Defined.

(** A fault whose Message carries the FPU-state offset 64. *)
Lemma switchToApp_refreshes_fpu_offset_witness :
  let m := Example.reply EventTypeFault 0 64 4096 in
  let σ := Example.state1 [RMsg m] in
  (getSysmsgThread 0%nat 0%nat 0%nat σ = (Ret (inl 0%nat), σ) ∧
   fst (arm 0%nat 0%nat 0%nat σ) = true) ∧
  fpuStateToMsgOffset (sysThreads (snd (switchToApp 0%nat 0%nat 0%nat σ)) 0%nat) = 64.
Proof.
  intros m σ.
  assert (getSysmsgThread 0%nat 0%nat 0%nat σ = (Ret (inl 0%nat), σ)) as Hg
    by reflexivity.
  assert (fst (arm 0%nat 0%nat 0%nat σ) = true) as Hok by reflexivity.
  split; [done|].
  exact (switchToApp_refreshes_fpu_offset 0%nat 0%nat 0%nat σ 0%nat σ m []
           Hg Hok eq_refl).
Defined.

(** C7 fails in switchToApp: the stub reports the in-band error 5 in a
    Message whose FPU-state offset is unusable, and switchToApp returns the
    error of [FPUStateOffset] to its caller instead of panicking; the check
    of [msg.Err] comes after that return. *)
Theorem switchToApp_stub_error_returned :
  let m := Example.reply EventTypeFault 5 99999 4096 in
  let σ := Example.state1 [RMsg m] in
  Err m ≠ 0 ∧
  fst (switchToApp 0%nat 0%nat 0%nat σ) =
    Ret (false, false, Some (Errorf "FPU offset has been corrupted")).
Proof. vm_compute. split; [discriminate|reflexivity]. Qed.

(** A syscall cycle that the kernel restarts once: the second cycle's result
    is returned. *)
Example syscallIgnoreInterrupt_restarted :
  let trap := 1407 (* 0x7f | SIGTRAP << 8 *) in
  let restart := {| Example.Rax := 2 ^ 64 - 512; Example.Rip := 0; Example.Rsp := 0 |} in
  let done_ := {| Example.Rax := 7; Example.Rip := 0; Example.Rsp := 0 |} in
  let σ := Example.state0
    [RErr None; RErrno 0; RWait4 101 trap None; RRegs restart None;
     RErr None; RErrno 0; RWait4 101 trap None; RRegs done_ None] in
  fst (syscallIgnoreInterrupt Example.thread0 Example.regs0 11 [] σ) = Ret (7, None) ∧
  script (snd (syscallIgnoreInterrupt Example.thread0 Example.regs0 11 [] σ)) = [].
Proof. vm_compute. split; reflexivity. Qed.

(** Unmap of a range that wraps around panics and changes nothing. *)
Example Unmap_overflow_unchanged :
  let σ := Example.state_faulted [RSyscall 0 None] in
  Unmap 0%nat (2 ^ 64 - 4096) 8192 σ = (Panic (PanicOverflow (2 ^ 64 - 4096) 8192), σ).
Proof. reflexivity. Qed.

(** wait4 is interrupted, then reports a stop without a signal, then the
    stop by SIGSTOP: three calls, and SIGSTOP is returned. *)
Lemma wait_skips_interruptions_witness :
  let pre := [RWait4 0 0 (Some EINTR); RWait4 101 127 None] in
  let sc := [RWait4 101 (Example.stop_status SIGSTOP) None] in
  let σ := Example.state0 (pre ++ sc) in
  Forall (λ r, wait_skipped Example.thread0 stopped r = true) pre ∧
  wait Example.thread0 stopped σ =
    (Ret SIGSTOP, set_os [] (replicate 3 (CWait4 101 (Z.lor WALL WUNTRACED))) σ).
Proof.
  intros pre sc σ.
  assert (Forall (λ r, wait_skipped Example.thread0 stopped r = true) pre) as HF
    by (repeat constructor).
  split; [exact HF|].
  etrans; [exact (wait_skips_interruptions Example.thread0 stopped pre σ sc eq_refl HF)|].
  reflexivity.
Defined.

(** A SIGTRAP stop with the ptrace event 1 (0x7f | SIGTRAP << 8 | 1 << 16). *)
Lemma wait_stopped_result_witness :
  let σ := Example.state0 [RWait4 101 66943 None] in
  (WaitStatus.Stopped 66943 = true ∧ WaitStatus.StopSignal 66943 ≠ 0 ∧
   WaitStatus.TrapCause 66943 ≠ PTRACE_EVENT_EXIT) ∧
  ∃ sig,
    wait Example.thread0 stopped σ =
      (Ret sig, set_os [] [CWait4 101 (Z.lor WALL WUNTRACED)] σ) ∧
    Z.land sig 255 = SIGTRAP ∧ Z.shiftr sig 8 = 1.
Proof.
  intros σ.
  assert (WaitStatus.Stopped 66943 = true) as H1 by reflexivity.
  assert (WaitStatus.StopSignal 66943 ≠ 0) as H2 by (vm_compute; discriminate).
  assert (WaitStatus.TrapCause 66943 ≠ PTRACE_EVENT_EXIT) as H3
    by (vm_compute; discriminate).
  split; [done|].
  destruct (wait_stopped_result Example.thread0 σ 66943 [] eq_refl H1 H2 H3)
    as (sig & Hw & Hl & _ & Hh & _).
  exists sig. split_and!; [exact Hw|exact Hl|]. apply Hh. reflexivity.
Defined.

(** The thread exited with the code 3 (wait status 3 << 8). *)
Lemma wait_killed_result_witness :
  let σ := Example.state0 [RWait4 101 768 None] in
  WaitStatus.Exited 768 = true ∧
  wait Example.thread0 killed σ =
    (Ret 3, set_os [] [CWait4 101 (Z.lor WALL WUNTRACED)] σ).
Proof.
  intros σ. split; [reflexivity|].
  destruct (wait_killed_result Example.thread0 σ 768 [] eq_refl) as (H & _ & _).
  destruct (H eq_refl) as [Hw _]. exact Hw.
Defined.

(** The injected call is interrupted once by SIGCHLD, then completes with
    the value 7: the thread is resumed twice, and no warning is logged. *)
Lemma thread_syscall_resumes_until_trap_witness :
  let r7 := {| Example.Rax := 7; Example.Rip := 0; Example.Rsp := 0 |} in
  let ws := [Example.stop_status SIGCHLD] in
  let trap := Example.stop_status SIGTRAP in
  let σ := Example.state0
    (RErr None :: stops Example.thread0 ws ++
     [RErrno 0; RWait4 101 trap None; RRegs r7 None]) in
  (Forall (λ w, signal_stop w = true) ws ∧ trap_stop trap = true) ∧
  fst (thread_syscall Example.thread0 Example.regs0 σ) = Ret (7, None) ∧
  log (snd (thread_syscall Example.thread0 Example.regs0 σ)) =
    [CGetRegs 101; CWait4 101 (Z.lor WALL WUNTRACED); CPtraceCont 101;
     CWait4 101 (Z.lor WALL WUNTRACED); CPtraceCont 101;
     CSetRegs 101 Example.regs0].
Proof.
  intros r7 ws trap σ.
  assert (Forall (λ w, signal_stop w = true) ws) as HF by (repeat constructor).
  assert (trap_stop trap = true) as HT by reflexivity.
  split; [done|].
  pose proof (thread_syscall_resumes_until_trap Example.thread0 Example.regs0 σ
                ws trap r7 [] eq_refl HF HT) as H.
  split.
  - exact (f_equal fst H).
  - exact (f_equal (λ x, log (snd x)) H).
Defined.

(** An unbound context asks for a thread of subprocess 5: the thread is
    created, belongs to subprocess 5 and is bound to the context, and the
    next call returns it at once. *)
Lemma getSysmsgThread_binds_witness :
  let σ := Example.state0
    (Example.creation_script (Example.reply EventTypeFault 0 64 0)) in
  let σ' := snd (getSysmsgThread 5%nat 0%nat 0%nat σ) in
  getSysmsgThread 5%nat 0%nat 0%nat σ = (Ret (inl 0%nat), σ') ∧
  sysmsgThread_ (ctxs σ' 0%nat) = Some 0%nat ∧
  subproc (sysThreads σ' 0%nat) = 5%nat ∧
  getSysmsgThread 5%nat 0%nat 0%nat σ' = (Ret (inl 0%nat), σ').
Proof.
  intros σ σ'.
  assert (fst (getSysmsgThread 5%nat 0%nat 0%nat σ) = Ret (inl 0%nat)) as Hf
    by (vm_compute; reflexivity).
  assert (getSysmsgThread 5%nat 0%nat 0%nat σ = (Ret (inl 0%nat), σ')) as H.
  { subst σ'. destruct (getSysmsgThread 5%nat 0%nat 0%nat σ) as [o σ1].
    cbn [fst snd] in *. by rewrite Hf. }
  split; [exact H|].
  exact (getSysmsgThread_binds 5%nat 0%nat 0%nat σ 0%nat σ' H).
Defined.

(** A context bound to thread 0, of subprocess 0, asks for a thread of
    subprocess 5; the new stub thread reports a Message whose FPU-state
    offset is unusable.  The call returns the error, both threads have been
    destroyed, and the context still names thread 0. *)
Lemma getSysmsgThread_failure_keeps_binding_witness :
  let σ := Example.state1
    (Example.creation_script (Example.reply EventTypeFault 0 99999 0)) in
  let e := Errorf "FPU offset has been corrupted" in
  let σ' := snd (getSysmsgThread 5%nat 0%nat 0%nat σ) in
  (getSysmsgThread 5%nat 0%nat 0%nat σ = (Ret (inr e), σ') ∧
   sysmsgThread_ (ctxs σ 0%nat) = Some 0%nat ∧
   subproc (sysThreads σ 0%nat) ≠ 5%nat) ∧
  sysmsgThread_ (ctxs σ' 0%nat) = Some 0%nat ∧
  CSysThreadDestroy 101 ∈ log σ' ∧
  ∃ st lg, log σ' = CSysThreadDestroy (tid (sthread (sysThreads σ' st))) :: lg ∧
           subproc (sysThreads σ' st) = 5%nat.
Proof.
  intros σ e σ'.
  assert (fst (getSysmsgThread 5%nat 0%nat 0%nat σ) = Ret (inr e)) as Hf
    by (vm_compute; reflexivity).
  assert (getSysmsgThread 5%nat 0%nat 0%nat σ = (Ret (inr e), σ')) as H.
  { subst σ'. destruct (getSysmsgThread 5%nat 0%nat 0%nat σ) as [o σ1].
    cbn [fst snd] in *. by rewrite Hf. }
  assert (sysmsgThread_ (ctxs σ 0%nat) = Some 0%nat) as Hb by reflexivity.
  assert (subproc (sysThreads σ 0%nat) ≠ 5%nat) as Hs by discriminate.
  split; [exact (conj H (conj Hb Hs))|].
  destruct (getSysmsgThread_failure_keeps_binding 5%nat 0%nat 0%nat σ
              (Ret (inr e)) σ' H) as (_ & Hstale & Herr); [discriminate|].
  destruct (Hstale 0%nat Hb Hs) as [H1 H2].
  exact (conj H1 (conj H2 (Herr e eq_refl))).
Defined.

(** The stub reports the in-band error 5: switchToApp panics, and the
    deferred Disable has run. *)
Lemma switchToApp_disables_interrupts_witness :
  let σ := Example.state1 [RMsg (Example.reply EventTypeFault 5 64 4096)] in
  let σ' := snd (switchToApp 0%nat 0%nat 0%nat σ) in
  (getSysmsgThread 0%nat 0%nat 0%nat σ = (Ret (inl 0%nat), σ) ∧
   fst (arm 0%nat 0%nat 0%nat σ) = true ∧
   switchToApp 0%nat 0%nat 0%nat σ = (Panic (PanicStubThread 101 5 0), σ')) ∧
  interrupt (ctxs σ' 0%nat) =
    Disable (interrupt (ctxs (snd (arm 0%nat 0%nat 0%nat σ)) 0%nat)).
Proof.
  intros σ σ'.
  assert (getSysmsgThread 0%nat 0%nat 0%nat σ = (Ret (inl 0%nat), σ)) as Hg
    by reflexivity.
  assert (fst (arm 0%nat 0%nat 0%nat σ) = true) as Hok by reflexivity.
  assert (fst (switchToApp 0%nat 0%nat 0%nat σ) = Panic (PanicStubThread 101 5 0))
    as Hf by (vm_compute; reflexivity).
  assert (switchToApp 0%nat 0%nat 0%nat σ = (Panic (PanicStubThread 101 5 0), σ'))
    as Hsw.
  { subst σ'. destruct (switchToApp 0%nat 0%nat 0%nat σ) as [o σ1].
    cbn [fst snd] in *. by rewrite Hf. }
  split; [exact (conj Hg (conj Hok Hsw))|].
  exact (switchToApp_disables_interrupts 0%nat 0%nat 0%nat σ 0%nat σ
           (Panic (PanicStubThread 101 5 0)) σ' Hg Hok Hsw).
Defined.

(** A fault at 0x1000: the context holds the signal-info of the Message. *)
Lemma switchToApp_delivers_event_witness :
  let m := Example.reply EventTypeFault 0 64 4096 in
  let σ := Example.state1 [RMsg m] in
  let σ' := snd (switchToApp 0%nat 0%nat 0%nat σ) in
  (getSysmsgThread 0%nat 0%nat 0%nat σ = (Ret (inl 0%nat), σ) ∧
   fst (arm 0%nat 0%nat 0%nat σ) = true ∧
   fpu_refresh_ok m = true ∧ Err m = 0) ∧
  signalInfo (ctxs σ' 0%nat) = MsgSignalInfo m ∧
  acRegs (acs σ' 0%nat) = Example.regs0.
Proof.
  intros m σ σ'.
  assert (getSysmsgThread 0%nat 0%nat 0%nat σ = (Ret (inl 0%nat), σ)) as Hg
    by reflexivity.
  assert (fst (arm 0%nat 0%nat 0%nat σ) = true) as Hok by reflexivity.
  assert (fpu_refresh_ok m = true) as Hfpu by reflexivity.
  assert (Err m = 0) as Herr by reflexivity.
  split; [done|].
  exact (switchToApp_delivers_event 0%nat 0%nat 0%nat σ 0%nat σ m []
           Hg Hok eq_refl Hfpu Herr).
Defined.

(** The same fault: the one call made is the wait for the Done state, with
    the registers of the context published in the Message. *)
Lemma switchToApp_publishes_registers_witness :
  let m := Example.reply EventTypeFault 0 64 4096 in
  let σ := Example.state1 [RMsg m] in
  (getSysmsgThread 0%nat 0%nat 0%nat σ = (Ret (inl 0%nat), σ) ∧
   fst (arm 0%nat 0%nat 0%nat σ) = true) ∧
  log (snd (switchToApp 0%nat 0%nat 0%nat σ)) =
    [CWaitEvent 101 StateDone Example.msg0] ∧
  script (snd (switchToApp 0%nat 0%nat 0%nat σ)) = [].
Proof.
  intros m σ.
  assert (getSysmsgThread 0%nat 0%nat 0%nat σ = (Ret (inl 0%nat), σ)) as Hg
    by reflexivity.
  assert (fst (arm 0%nat 0%nat 0%nat σ) = true) as Hok by reflexivity.
  split; [done|].
  exact (switchToApp_publishes_registers 0%nat 0%nat 0%nat σ 0%nat σ m []
           Hg Hok eq_refl).
Defined.

(** Contexts 1 and 2 are bound and cached in subprocess 0; unmapping
    [0x1000, 0x2000) keeps the invariant and leaves no cached fault in the
    range. *)
Lemma Unmap_keeps_contexts_invariant_witness :
  let σ := Example.state_cached [RSyscall 0 None] in
  let σ' := snd (Unmap 0%nat 4096 4096 σ) in
  (0 ≤ 4096 < 2 ^ 64 ∧ 4096 + 4096 < 2 ^ 64 ∧ contexts_inv 0%nat σ) ∧
  contexts_inv 0%nat σ' ∧
  ∀ c, lastFaultSP (ctxs σ' c) = Some 0%nat →
       ¬ (4096 ≤ lastFaultAddr (ctxs σ' c) < 4096 + 4096).
Proof.
  intros σ σ'.
  assert (0 ≤ 4096 < 2 ^ 64) as Hr by lia.
  assert (4096 + 4096 < 2 ^ 64) as Hsum by lia.
  assert (contexts_inv 0%nat σ) as Hinv.
  { intros c. simpl. destruct c as [|[|[|c]]]; simpl; try discriminate; intros _.
    - apply elem_of_union_l. by apply elem_of_singleton.
    - apply elem_of_union_r. by apply elem_of_singleton. }
  split; [done|].
  destruct (Unmap_keeps_contexts_invariant 0%nat 4096 4096 σ Hr Hr Hsum) as [H _].
  exact (H Hinv).
Defined.

(** On the example architecture the stub is [0x1000, 0x2000): context 1,
    whose cached fault is at 0x1800, is spared by [unmap]. *)
Lemma unmap_spares_the_stub_witness :
  let σ := Example.state_cached [RSyscall 0 None; RSyscall 0 None] in
  (0 ≤ stubStart ∧ stubStart ≤ stubEnd ∧ stubEnd ≤ maximumUserAddress ∧
   maximumUserAddress < 2 ^ 64 ∧
   stubStart ≤ lastFaultAddr (ctxs σ 1%nat) < stubEnd) ∧
  ctxs (snd (unmap 0%nat σ)) 1%nat = ctxs σ 1%nat ∧
  (1%nat ∈ contexts (subprocs (snd (unmap 0%nat σ)) 0%nat) ↔
   1%nat ∈ contexts (subprocs σ 0%nat)).
Proof.
  intros σ.
  assert (0 ≤ stubStart) as H0 by (simpl; lia).
  assert (stubStart ≤ stubEnd) as H1 by (simpl; lia).
  assert (stubEnd ≤ maximumUserAddress) as H2 by (simpl; lia).
  assert (maximumUserAddress < 2 ^ 64) as H3 by (simpl; lia).
  assert (stubStart ≤ lastFaultAddr (ctxs σ 1%nat) < stubEnd) as Hc by (simpl; lia).
  split; [done|].
  destruct (unmap_spares_the_stub 0%nat σ H0 H1 H2 H3) as (_ & H & _).
  exact (H 1%nat Hc).
Defined.

(** The stop by SIGSTOP is returned as 19. *)
Lemma wait_stopped_returns_signal_witness :
  let σ := Example.state0 [RWait4 101 (Example.stop_status SIGSTOP) None] in
  wait Example.thread0 stopped σ =
    (Ret SIGSTOP, set_os [] [CWait4 101 (Z.lor WALL WUNTRACED)] σ) ∧
  1 ≤ Z.land SIGSTOP 255 < 256 ∧ Z.shiftr SIGSTOP 8 ≠ PTRACE_EVENT_EXIT.
Proof.
  intros σ.
  assert (wait Example.thread0 stopped σ =
            (Ret SIGSTOP, set_os [] [CWait4 101 (Z.lor WALL WUNTRACED)] σ)) as H
    by reflexivity.
  split; [exact H|].
  exact (wait_stopped_returns_signal Example.thread0 σ SIGSTOP _ H).
Defined.

(** The new stub thread reports an unusable FPU-state offset: switchToApp
    returns the error, and the context is unchanged. *)
Lemma switchToApp_thread_error_witness :
  let σ := Example.state0
    (Example.creation_script (Example.reply EventTypeFault 0 99999 0)) in
  let e := Errorf "FPU offset has been corrupted" in
  fst (getSysmsgThread 5%nat 0%nat 0%nat σ) = Ret (inr e) ∧
  fst (switchToApp 5%nat 0%nat 0%nat σ) = Ret (false, false, Some e) ∧
  ctxs (snd (switchToApp 5%nat 0%nat 0%nat σ)) = ctxs σ.
Proof.
  intros σ e.
  assert (fst (getSysmsgThread 5%nat 0%nat 0%nat σ) = Ret (inr e)) as Hf
    by (vm_compute; reflexivity).
  split; [exact Hf|].
  assert (getSysmsgThread 5%nat 0%nat 0%nat σ =
            (Ret (inr e), snd (getSysmsgThread 5%nat 0%nat 0%nat σ))) as H.
  { destruct (getSysmsgThread 5%nat 0%nat 0%nat σ) as [o σ1].
    cbn [fst snd] in *. by rewrite Hf. }
  destruct (switchToApp_thread_error 5%nat 0%nat 0%nat σ e _ H) as [H1 H2].
  split; [exact (f_equal fst H1)|exact H2].
Defined.

(** * The stub dispatcher *)

Section SyshandlerProperties.
Import Syshandler.

Lemma uint64_small z : 0 ≤ z < 2 ^ 64 → uint64 z = z.
Proof. intros H. unfold uint64. by apply Z.mod_small. Qed.

Lemma push_spec r m :
  8 ≤ regs m rsp < 2 ^ 64 →
  regs (push r m) rsp = regs m rsp - 8 ∧
  (∀ r', r' ≠ rsp → regs (push r m) r' = regs m r') ∧
  gs (push r m) = gs m ∧
  mem (push r m) (regs m rsp - 8) = regs m r ∧
  (∀ a, regs m rsp ≤ a → mem (push r m) a = mem m a).
Proof.
  intros Hsp. unfold push. rewrite uint64_small by lia. simpl.
  rewrite !fn_lookup_insert. split_and!; try done.
  - intros r' Hne. by rewrite fn_lookup_insert_ne.
  - intros a Ha. rewrite fn_lookup_insert_ne; [done|lia].
Qed.

Lemma pop_spec r m :
  r ≠ rsp →
  0 ≤ regs m rsp → regs m rsp + 8 < 2 ^ 64 →
  regs (pop r m) r = mem m (regs m rsp) ∧
  regs (pop r m) rsp = regs m rsp + 8 ∧
  (∀ r', r' ≠ r → r' ≠ rsp → regs (pop r m) r' = regs m r') ∧
  gs (pop r m) = gs m ∧
  mem (pop r m) = mem m.
Proof.
  intros Hne Hsp1 Hsp2. unfold pop. rewrite uint64_small by lia. simpl.
  rewrite fn_lookup_insert, fn_lookup_insert_ne, fn_lookup_insert by done.
  split_and!; try done.
  intros r' H1 H2. by rewrite !fn_lookup_insert_ne.
Qed.

Lemma run_push rs :
  ∀ m, 8 * Z.of_nat (length rs) ≤ regs m rsp → regs m rsp < 2 ^ 64 →
       rsp ∉ rs →
       let m' := run (push <$> rs) m in
       regs m' rsp = regs m rsp - 8 * Z.of_nat (length rs) ∧
       (∀ r', r' ≠ rsp → regs m' r' = regs m r') ∧
       gs m' = gs m ∧
       (∀ a, regs m rsp ≤ a → mem m' a = mem m a) ∧
       (∀ i r, reverse rs !! i = Some r →
               mem m' (regs m' rsp + 8 * Z.of_nat i) = regs m r).
Proof.
  induction rs as [|r rs IH]; intros m Hlo Hhi Hnin;
    cbn [length fmap list_fmap run foldl] in *.
  - split_and!; try done. simpl. lia.
  - rewrite Nat2Z.inj_succ in *.
    apply not_elem_of_cons in Hnin as [Hr Hnin].
    destruct (push_spec r m) as (Hp1 & Hp2 & Hp3 & Hp4 & Hp5); [lia|].
    destruct (IH (push r m)) as (H1 & H2 & H3 & H4 & H5); [lia..|done|].
    fold (run (push <$> rs) (push r m)) in *.
    split_and!.
    + lia.
    + intros r' Hne. by rewrite H2, Hp2.
    + congruence.
    + intros a Ha. rewrite H4, Hp5; [done|lia..].
    + intros i r' Hi. rewrite reverse_cons in Hi.
      destruct (decide (i < length (reverse rs))%nat) as [Hlt|Hge].
      * rewrite lookup_app_l in Hi by done. rewrite (H5 i r' Hi).
        apply Hp2. intros ->. apply Hnin. apply elem_of_reverse.
        by eapply list_elem_of_lookup_2.
      * rewrite lookup_app_r in Hi by lia.
        destruct (i - length (reverse rs))%nat as [|k] eqn:Hk; [|by destruct k].
        injection Hi as <-. rewrite length_reverse in *.
        assert (i = length rs) as -> by lia.
        rewrite H1, Hp1.
        replace (regs m rsp - 8 - 8 * Z.of_nat (length rs) + 8 * Z.of_nat (length rs))
          with (regs m rsp - 8) by lia.
        rewrite H4 by lia. done.
Qed.

Lemma run_pop rs :
  ∀ m vs, length vs = length rs → NoDup rs → rsp ∉ rs →
          0 ≤ regs m rsp → regs m rsp + 8 * Z.of_nat (length rs) < 2 ^ 64 →
          (∀ i v, vs !! i = Some v → mem m (regs m rsp + 8 * Z.of_nat i) = v) →
          let m' := run (pop <$> rs) m in
          (∀ i r v, rs !! i = Some r → vs !! i = Some v → regs m' r = v) ∧
          (∀ r', r' ∉ rs → r' ≠ rsp → regs m' r' = regs m r') ∧
          gs m' = gs m.
Proof.
  induction rs as [|r rs IH]; intros m vs Hlen Hnd Hnin Hlo Hhi Hmem;
    cbn [length fmap list_fmap run foldl] in *.
  - split_and!; done.
  - destruct vs as [|v vs]; [done|]. simpl in Hlen.
    rewrite Nat2Z.inj_succ in *.
    apply not_elem_of_cons in Hnin as [Hr Hnin].
    apply NoDup_cons in Hnd as [Hrnin Hnd].
    destruct (pop_spec r m) as (Hp1 & Hp2 & Hp3 & Hp4 & Hp5); [done|lia..|].
    destruct (IH (pop r m) vs) as (H1 & H2 & H3); [lia|done|done|lia|lia| |].
    { intros i v' Hi. rewrite Hp5, Hp2.
      replace (regs m rsp + 8 + 8 * Z.of_nat i)
        with (regs m rsp + 8 * Z.of_nat (S i)) by lia.
      by apply Hmem. }
    fold (run (pop <$> rs) (pop r m)) in *.
    split_and!.
    + intros [|i] r' v' Hi Hv; simpl in Hi, Hv.
      * injection Hi as <-. injection Hv as <-.
        rewrite H2, Hp1 by (done || congruence).
        specialize (Hmem O v eq_refl). simpl in Hmem.
        by rewrite Z.add_0_r in Hmem.
      * by eapply H1.
    + intros r' Hr' Hne. apply not_elem_of_cons in Hr' as [Hr1 Hr2].
      rewrite H2 by done. by apply Hp3.
    + congruence.
Qed.

(* Whatever the handler does to the registers, the nine saved ones are back
   when the dispatcher has popped them. *)
Lemma restored_registers h m :
  (∀ m, regs (h m) rsp = regs m rsp) →
  (∀ m a, regs m rsp ≤ a → mem (h m) a = mem m a) →
  72 ≤ regs m rsp < 2 ^ 64 →
  (∀ r, r ∈ pushed → regs (restored h m) r = regs m r) ∧
  gs (restored h m) = gs (h (run (push <$> pushed) m)).
Proof.
  intros Hrsp Hmem Hsp. unfold restored.
  assert (rsp ∉ pushed) as Hnp.
  { unfold pushed. rewrite !not_elem_of_cons. split_and!; try done.
    apply not_elem_of_nil. }
  destruct (run_push pushed m) as (H1 & H2 & H3 & H4 & H5); [simpl; lia..|done|].
  set (m1 := run (push <$> pushed) m) in *.
  assert (length pushed = 9%nat) as Hlen by reflexivity. rewrite Hlen in H1.
  destruct (run_pop popped (h m1) (regs m <$> popped)) as (P1 & P2 & P3).
  - by rewrite length_fmap.
  - unfold popped. repeat (apply NoDup_cons; split;
      [rewrite ?not_elem_of_cons; split_and?; (done || apply not_elem_of_nil)|]).
    apply NoDup_nil_2.
  - unfold popped. rewrite !not_elem_of_cons. split_and!; try done.
    apply not_elem_of_nil.
  - rewrite Hrsp. lia.
  - rewrite Hrsp. change (length popped) with 9%nat. lia.
  - intros i v Hi. rewrite Hrsp, Hmem by (rewrite ?Hrsp; lia).
    apply list_lookup_fmap_Some in Hi as (r & Hv & Hr). subst v.
    apply H5. exact Hr.
  - split; [|done]. intros r Hin.
    assert (r ∈ popped) as Hin'.
    { change popped with (reverse pushed). by apply elem_of_reverse. }
    apply list_elem_of_lookup_1 in Hin' as [i Hi].
    apply (P1 i r (regs m r) Hi). rewrite list_lookup_fmap.
    by rewrite Hi.
Qed.

(** C9.  Whenever the handler honours the calling convention (it returns
    with the stack pointer it was called with and leaves the caller's stack
    alone), the dispatcher pushes nine registers and pops the same nine in
    the opposite order, so that each holds at the dispatch what it held on
    entry.  Then, with the Message as the handler left it:
    - if its event type is Syscall, one syscall instruction is issued, with
      0xffff in %eax, followed by the jump to the saved return address;
    - otherwise, if its interrupt flag is set, Interrupt is written into
      the event type and a fault is triggered;
    - otherwise the dispatcher jumps to the saved return address. *)
Theorem export_syshandler_dispatch kSYSMSG_SYSCALL kSYSMSG_INTERRUPT h kernel m :
  (∀ m, regs (h m) rsp = regs m rsp) →
  (∀ m a, regs m rsp ≤ a → mem (h m) a = mem m a) →
  72 ≤ regs m rsp < 2 ^ 64 →
  let m1 := restored h m in
  let m2 := set_reg rsp (app_stack (gs m1)) m1 in
  let events := fst (__export_syshandler kSYSMSG_SYSCALL kSYSMSG_INTERRUPT h kernel m) in
  let m' := snd (__export_syshandler kSYSMSG_SYSCALL kSYSMSG_INTERRUPT h kernel m) in
  length pushed = 9%nat ∧
  popped = reverse pushed ∧
  (∀ r, r ∈ pushed → regs m1 r = regs m r) ∧
  gs m1 = gs (h (run (push <$> pushed) m)) ∧
  (if type (gs m1) =? kSYSMSG_SYSCALL then
     events = [Syscall 65535; Jump (ret_addr (gs m'))] ∧
     m' = kernel (set_reg rax 65535 m2)
   else if interrupt (gs m1) =? 0 then
     events = [Jump (ret_addr (gs m1))] ∧ m' = m2
   else
     events = [Fault] ∧ type (gs m') = kSYSMSG_INTERRUPT ∧
     m' = set_type kSYSMSG_INTERRUPT m2).
Proof.
  intros Hrsp Hmem Hsp m1 m2 events m'.
  destruct (restored_registers h m Hrsp Hmem Hsp) as [Hregs Hgs].
  split_and!; try done.
  subst events m'. unfold __export_syshandler. fold m1. cbv zeta. fold m2.
  change (gs m2) with (gs m1).
  destruct (type (gs m1) =? kSYSMSG_SYSCALL); [done|].
  destruct (interrupt (gs m1) =? 0); done.
Qed.

(** The handler leaves a Syscall event: the sentinel syscall, then the jump
    to the saved return address, with %rcx as on entry. *)
Lemma export_syshandler_dispatch_witness :
  ((∀ m, regs (handler0 m) rsp = regs m rsp) ∧
   (∀ m a, regs m rsp ≤ a → mem (handler0 m) a = mem m a) ∧
   72 ≤ regs machine0 rsp < 2 ^ 64) ∧
  fst (__export_syshandler 1 4 handler0 id machine0) = [Syscall 65535; Jump 8192] ∧
  regs (restored handler0 machine0) rcx = 10.
Proof.
  assert (∀ m, regs (handler0 m) rsp = regs m rsp) as Hrsp by reflexivity.
  assert (∀ m a, regs m rsp ≤ a → mem (handler0 m) a = mem m a) as Hmem
    by reflexivity.
  assert (72 ≤ regs machine0 rsp < 2 ^ 64) as Hsp by (simpl; lia).
  split; [done|].
  destruct (export_syshandler_dispatch 1 4 handler0 id machine0 Hrsp Hmem Hsp)
    as (_ & _ & Hregs & Hgs & Hif).
  rewrite Hgs in Hif. cbn [handler0 set_type gs type Z.eqb Pos.eqb] in Hif.
  destruct Hif as [Hev Hm]. split.
  - rewrite Hev. f_equal.
  - apply (Hregs rcx). unfold pushed. rewrite !elem_of_cons. tauto.
Defined.

Lemma run_pop_frame rs :
  ∀ m, rsp ∉ rs → 0 ≤ regs m rsp →
       regs m rsp + 8 * Z.of_nat (length rs) < 2 ^ 64 →
       let m' := run (pop <$> rs) m in
       regs m' rsp = regs m rsp + 8 * Z.of_nat (length rs) ∧
       (∀ r', r' ∉ rs → r' ≠ rsp → regs m' r' = regs m r') ∧
       mem m' = mem m.
Proof.
  induction rs as [|r rs IH]; intros m Hnin Hlo Hhi;
    cbn [length fmap list_fmap run foldl] in *.
  - split_and!; try done. lia.
  - rewrite Nat2Z.inj_succ in *.
    apply not_elem_of_cons in Hnin as [Hr Hnin].
    destruct (pop_spec r m) as (_ & Hp2 & Hp3 & _ & Hp5); [done|lia..|].
    destruct (IH (pop r m)) as (H1 & H2 & H3); [done|lia..|].
    fold (run (pop <$> rs) (pop r m)) in *.
    split_and!.
    + lia.
    + intros r' Hr' Hne. apply not_elem_of_cons in Hr' as [Hr1 Hr2].
      rewrite H2 by done. by apply Hp3.
    + congruence.
Qed.

(* The pushes and pops are balanced, and touch neither the caller's stack
   nor %rax. *)
Lemma restored_frame h m :
  (∀ m, regs (h m) rsp = regs m rsp) →
  (∀ m a, regs m rsp ≤ a → mem (h m) a = mem m a) →
  72 ≤ regs m rsp < 2 ^ 64 →
  regs (restored h m) rsp = regs m rsp ∧
  (∀ a, regs m rsp ≤ a → mem (restored h m) a = mem m a) ∧
  regs (restored h m) rax = regs (h (run (push <$> pushed) m)) rax.
Proof.
  intros Hrsp Hmem Hsp. unfold restored.
  assert (rsp ∉ pushed) as Hnp.
  { unfold pushed. rewrite !not_elem_of_cons. split_and!; try done.
    apply not_elem_of_nil. }
  assert ((rsp ∉ popped) ∧ (rax ∉ popped)) as [Hnq Hax].
  { unfold popped. rewrite !not_elem_of_cons. split_and!; try done;
      apply not_elem_of_nil. }
  destruct (run_push pushed m) as (H1 & _ & _ & H4 & _); [simpl; lia..|done|].
  set (m0 := run (push <$> pushed) m) in *.
  assert (length pushed = 9%nat) as Hlen by reflexivity. rewrite Hlen in H1.
  assert (length popped = 9%nat) as Hlen' by reflexivity.
  destruct (run_pop_frame popped (h m0)) as (P1 & P2 & P3).
  { done. }
  { rewrite Hrsp. lia. }
  { rewrite Hrsp, Hlen'. lia. }
  rewrite Hlen' in P1. split_and!.
  - rewrite P1, Hrsp. lia.
  - intros a Ha. rewrite P3, Hmem by lia. by apply H4.
  - by apply P2.
Qed.

(* When the event is not a system call, the dispatcher only loads the
   stack pointer and, for an interrupt, rewrites the event type. *)
Lemma export_syshandler_leaves kSYSMSG_SYSCALL kSYSMSG_INTERRUPT h kernel m :
  type (gs (restored h m)) ≠ kSYSMSG_SYSCALL →
  regs (snd (__export_syshandler kSYSMSG_SYSCALL kSYSMSG_INTERRUPT h kernel m)) =
    <[rsp := app_stack (gs (restored h m))]> (regs (restored h m)) ∧
  mem (snd (__export_syshandler kSYSMSG_SYSCALL kSYSMSG_INTERRUPT h kernel m)) =
    mem (restored h m).
Proof.
  intros Hty. unfold __export_syshandler.
  generalize (restored h m) Hty. clear Hty. intros m1 Hty. cbv zeta.
  cbn [gs set_reg]. apply Z.eqb_neq in Hty. rewrite Hty.
  destruct (interrupt (gs m1) =? 0); done.
Qed.

(** X14.  Whenever the handler honours the calling convention, the nine
    pushes and the nine pops of the dispatcher are balanced: when the last
    register has been popped the stack pointer is the one of entry, the
    memory at and above it is what it was, and %rax, which is not saved,
    holds what the handler left in it.  So, when the event is not a system
    call, control leaves the dispatcher with the stack pointer loaded from
    the Message's [app_stack], the nine saved registers as on entry, and
    the handler's %rax. *)
Theorem export_syshandler_stack kSYSMSG_SYSCALL kSYSMSG_INTERRUPT h kernel m :
  (∀ m, regs (h m) rsp = regs m rsp) →
  (∀ m a, regs m rsp ≤ a → mem (h m) a = mem m a) →
  72 ≤ regs m rsp < 2 ^ 64 →
  let m1 := restored h m in
  let m' := snd (__export_syshandler kSYSMSG_SYSCALL kSYSMSG_INTERRUPT h kernel m) in
  regs m1 rsp = regs m rsp ∧
  (∀ a, regs m rsp ≤ a → mem m1 a = mem m a) ∧
  regs m1 rax = regs (h (run (push <$> pushed) m)) rax ∧
  (type (gs m1) ≠ kSYSMSG_SYSCALL →
   regs m' rsp = app_stack (gs m1) ∧
   regs m' rax = regs (h (run (push <$> pushed) m)) rax ∧
   (∀ r, r ∈ pushed → regs m' r = regs m r) ∧
   mem m' = mem m1).
Proof.
  intros Hrsp Hmem Hsp m1 m'.
  destruct (restored_registers h m Hrsp Hmem Hsp) as [Hregs _].
  destruct (restored_frame h m Hrsp Hmem Hsp) as (Hbal & Hstack & Hrax).
  split_and!; [exact Hbal|exact Hstack|exact Hrax|].
  intros Hty.
  destruct (export_syshandler_leaves kSYSMSG_SYSCALL kSYSMSG_INTERRUPT h kernel m Hty)
    as [Hr Hm].
  subst m1 m'. rewrite Hr, Hm. split_and!.
  - by rewrite fn_lookup_insert.
  - by rewrite fn_lookup_insert_ne.
  - intros r Hin. rewrite fn_lookup_insert_ne; [by apply Hregs|].
    intros <-. revert Hin. unfold pushed. rewrite !elem_of_cons.
    intros H. repeat (destruct H as [H|H]; [discriminate|]).
    by apply elem_of_nil in H.
  - reflexivity.
Qed.

(** The handler leaves a Fault event (type 2 is not the Syscall type 1): the
    dispatcher leaves on the application stack with the handler's %rax. *)
Lemma export_syshandler_stack_witness :
  let h := λ m, set_type 2 (set_reg rax 42 m) in
  ((∀ m, regs (h m) rsp = regs m rsp) ∧
   (∀ m a, regs m rsp ≤ a → mem (h m) a = mem m a) ∧
   72 ≤ regs machine0 rsp < 2 ^ 64) ∧
  regs (restored h machine0) rsp = 1024 ∧
  regs (snd (__export_syshandler 1 4 h id machine0)) rsp = 4096 ∧
  regs (snd (__export_syshandler 1 4 h id machine0)) rax = 42.
Proof.
  intros h.
  assert (∀ m, regs (h m) rsp = regs m rsp) as Hrsp by reflexivity.
  assert (∀ m a, regs m rsp ≤ a → mem (h m) a = mem m a) as Hmem by reflexivity.
  assert (72 ≤ regs machine0 rsp < 2 ^ 64) as Hsp by (simpl; lia).
  split; [done|].
  destruct (export_syshandler_stack 1 4 h id machine0 Hrsp Hmem Hsp)
    as (Hbal & _ & _ & Hleave).
  split; [exact Hbal|].
  destruct Hleave as (H1 & H2 & _); [vm_compute; discriminate|].
  split; [exact H1|exact H2].
Defined.

End SyshandlerProperties.
